(** * MolDB-Screening: the screening notebook [DB_Screening.ipynb]

    The notebook sequences calls to pandas, numpy, scikit-learn and
    AutoDock Vina.  This development embeds the cells that carry the
    pipeline (filter, sample, label, split, score, select, dock) together
    with the library operations they call, and proves properties of them.

    Conventions.
    - The numbers of a float64 array are embedded as rationals [Q]: no
      infinity, no rounding.  A cell of the column [Scores], which the
      table may leave empty, is a number or NaN (type [float64]);
      comparisons with NaN are False.
    - A [DataFrame] is the list of its rows in positional order; a row
      carries its index label and its cells.
    - A Python exception is a value [Raise e] of the type [result]. *)

From Stdlib Require Import List ZArith QArith Qabs Qround Bool Lia Lqa Permutation Sorted String.
From stdpp Require Import base gmap strings.
Import ListNotations.

Local Open Scope Z_scope.

(** ** Exceptions and results *)

Inductive exn : Type :=
  | KeyError
  | ValueError
  | IndexError
  | NameError
  | TypeError
  | RuntimeError.

Inductive result (A : Type) : Type :=
  | Ok (a : A)
  | Raise (e : exn).
Arguments Ok {A} a.
Arguments Raise {A} e.

Definition bind {A B : Type} (r : result A) (k : A -> result B) : result B :=
  match r with
  | Ok a => k a
  | Raise e => Raise e
  end.

Notation "'try' x <- r 'in' k" := (bind r (fun x => k))
  (at level 10, x name, r at level 100, k at level 200).

(** ** float64 cells *)

(** A number, or NaN, which is how pandas holds a missing value. *)
Inductive float64 : Type :=
  | Num (q : Q)
  | NaN.

Module f64.

(** [x < y]: False when either side is NaN. *)
Definition ltb (x y : float64) : bool :=
  match x, y with
  | Num a, Num b => match Qcompare a b with
                    | Lt => true
                    | _ => false
                    end
  | _, _ => false
  end.

(** [x > y] *)
Definition gtb (x y : float64) : bool := ltb y x.

(** [x <= y]: False when either side is NaN. *)
Definition leb (x y : float64) : bool :=
  match x, y with
  | Num a, Num b => Qle_bool a b
  | _, _ => false
  end.

End f64.

(** ** Data model *)

(** A row of the pickled table: the fingerprint column [RDKit], the docking
    energy column [Scores], and the cells of whatever further columns the
    table has, which no cell of the notebook reads. *)
Record Compound : Type := mkCompound {
  RDKit : list Q;
  Scores : float64;
  other : list string
}.

(** A row after the cell [database['Predictions'] = predicted_scores]. *)
Record Scored : Type := mkScored {
  compound : Compound;
  Predictions : Q
}.

(** A frame over rows of type [A]: index label and cells, in order. *)
Definition DataFrame (A : Type) : Type := list (Z * A).

(** ** Python sequences *)

(** [[l[i] for i in positions]]; IndexError for a position out of range. *)
Fixpoint take_at {B : Type} (positions : list nat) (l : list B)
  : result (list B) :=
  match positions with
  | [] => Ok []
  | i :: ps =>
      match nth_error l i with
      | Some x => try rest <- take_at ps l in Ok (x :: rest)
      | None => Raise IndexError
      end
  end.

(** ** numpy *)

Module np.

(** [a < b] on float64 *)
Definition Qltb (x y : Q) : bool :=
  match Qcompare x y with
  | Lt => true
  | _ => false
  end.

(** *** [ndarray.argsort(kind='quicksort')], portable code path

    [aquicksort_] and [aheapsort_] of numpy's [npysort]: an introsort on
    an array [tosort] of positions into the keys [v].  Pointers into
    [tosort] are offsets of type [Z].  Every loop runs on fuel; [None]
    means that the fuel ran out, never that the C code returned. *)

Section ArgQuicksort.
Variable v : list Q.

Definition key (i : nat) : Q := nth i v 0%Q.

(** [*p] and [*p = x] *)
Definition rd (a : list nat) (p : Z) : nat := nth (Z.to_nat p) a 0%nat.
Definition wr (a : list nat) (p : Z) (x : nat) : list nat :=
  <[Z.to_nat p := x]> a.

(** [INTP_SWAP] of the entries at [p] and [q] *)
Definition swap (a : list nat) (p q : Z) : list nat :=
  wr (wr a p (rd a q)) q (rd a p).

Definition SMALL_QUICKSORT : Z := 16.

(** [npy_get_msb] *)
Definition npy_get_msb (num : Z) : Z := Z.log2 num.

(** The sift-down loop shared by both phases of [aheapsort_]; [b] is the
    one-based array [a = tosort - 1]. *)
Fixpoint sift (fuel : nat) (a : list nat) (b n : Z) (tmp : nat) (i j : Z)
  : option (list nat) :=
  match fuel with
  | O => None
  | S fuel =>
      if j <=? n then
        let j := if (j <? n) && Qltb (key (rd a (b + j))) (key (rd a (b + j + 1)))
                 then j + 1 else j in
        if Qltb (key tmp) (key (rd a (b + j)))
        then sift fuel (wr a (b + i) (rd a (b + j))) b n tmp j (j + j)
        else Some (wr a (b + i) tmp)
      else Some (wr a (b + i) tmp)
  end.

(** [for (l = n >> 1; l > 0; --l)] *)
Fixpoint heapify (fuel : nat) (a : list nat) (b n l : Z) : option (list nat) :=
  match fuel with
  | O => None
  | S fuel =>
      if l >? 0 then
        match sift (S (Z.to_nat n)) a b n (rd a (b + l)) l (Z.shiftl l 1) with
        | Some a => heapify fuel a b n (l - 1)
        | None => None
        end
      else Some a
  end.

(** [for (; n > 1;)] *)
Fixpoint sortdown (fuel : nat) (a : list nat) (b n : Z) : option (list nat) :=
  match fuel with
  | O => None
  | S fuel =>
      if n >? 1 then
        let tmp := rd a (b + n) in
        let a := wr a (b + n) (rd a (b + 1)) in
        let n := n - 1 in
        match sift (S (Z.to_nat n)) a b n tmp 1 2 with
        | Some a => sortdown fuel a b n
        | None => None
        end
      else Some a
  end.

(** [aheapsort_(vv, tosort, n)] on the [n] entries from [tosort] on. *)
Definition aheapsort (a : list nat) (tosort n : Z) : option (list nat) :=
  let b := tosort - 1 in
  match heapify (S (Z.to_nat n)) a b n (Z.shiftr n 1) with
  | Some a => sortdown (S (Z.to_nat n)) a b n
  | None => None
  end.

(** [do { ++pi; } while (v[*pi] < vp);] *)
Fixpoint scan_up (fuel : nat) (a : list nat) (vp : Q) (pi : Z) : option Z :=
  match fuel with
  | O => None
  | S fuel =>
      let pi := pi + 1 in
      if Qltb (key (rd a pi)) vp then scan_up fuel a vp pi else Some pi
  end.

(** [do { --pj; } while (vp < v[*pj]);] *)
Fixpoint scan_down (fuel : nat) (a : list nat) (vp : Q) (pj : Z) : option Z :=
  match fuel with
  | O => None
  | S fuel =>
      let pj := pj - 1 in
      if Qltb vp (key (rd a pj)) then scan_down fuel a vp pj else Some pj
  end.

(** The [for (;;)] loop of the partition; returns the array and [pi]. *)
Fixpoint partition_loop (fuel : nat) (a : list nat) (vp : Q) (pi pj : Z)
  : option (list nat * Z) :=
  match fuel with
  | O => None
  | S fuel =>
      match scan_up (S (length a)) a vp pi with
      | Some pi =>
          match scan_down (S (length a)) a vp pj with
          | Some pj =>
              if pi >=? pj then Some (a, pi)
              else partition_loop fuel (swap a pi pj) vp pi pj
          | None => None
          end
      | None => None
      end
  end.

(** One round of the body of [while ((pr - pl) > SMALL_QUICKSORT)] up to
    and including the final swap of the pivot into place. *)
Definition partition (a : list nat) (pl pr : Z) : option (list nat * Z) :=
  let pm := pl + Z.shiftr (pr - pl) 1 in
  let a := if Qltb (key (rd a pm)) (key (rd a pl)) then swap a pm pl else a in
  let a := if Qltb (key (rd a pr)) (key (rd a pm)) then swap a pr pm else a in
  let a := if Qltb (key (rd a pm)) (key (rd a pl)) then swap a pm pl else a in
  let vp := key (rd a pm) in
  let pi := pl in
  let pj := pr - 1 in
  let a := swap a pm pj in
  match partition_loop (S (length a)) a vp pi pj with
  | Some (a, pi) => Some (swap a pi (pr - 1), pi)
  | None => None
  end.

(** A saved range: [pl], [pr] on [stack], its depth on [depth]. *)
Definition frame : Type := (Z * Z * Z)%type.

Record qstate : Type := mkQ {
  arr : list nat;
  q_pl : Z;
  q_pr : Z;
  q_stack : list frame;
  q_cdepth : Z
}.

(** [while ((pr - pl) > SMALL_QUICKSORT)]: partition, push the larger
    side, go on with the smaller one. *)
Fixpoint quick_loop (fuel : nat) (s : qstate) : option qstate :=
  match fuel with
  | O => None
  | S fuel =>
      let pl := q_pl s in
      let pr := q_pr s in
      if pr - pl >? SMALL_QUICKSORT then
        match partition (arr s) pl pr with
        | Some (a, pi) =>
            let cdepth := q_cdepth s - 1 in
            if pi - pl <? pr - pi
            then quick_loop fuel
                   (mkQ a pl (pi - 1) ((pi + 1, pr, cdepth) :: q_stack s) cdepth)
            else quick_loop fuel
                   (mkQ a (pi + 1) pr ((pl, pi - 1, cdepth) :: q_stack s) cdepth)
        | None => None
        end
      else Some s
  end.

(** [while (pj > pl && vp < v[*pk]) { *pj-- = *pk--; }  *pj = vi;] *)
Fixpoint shift_back (fuel : nat) (a : list nat) (pl : Z) (vi : nat) (pj : Z)
  : option (list nat) :=
  match fuel with
  | O => None
  | S fuel =>
      if (pj >? pl) && Qltb (key vi) (key (rd a (pj - 1)))
      then shift_back fuel (wr a pj (rd a (pj - 1))) pl vi (pj - 1)
      else Some (wr a pj vi)
  end.

(** [for (pi = pl + 1; pi <= pr; ++pi)] *)
Fixpoint insertion (fuel : nat) (a : list nat) (pl pr pi : Z) : option (list nat) :=
  match fuel with
  | O => None
  | S fuel =>
      if pi <=? pr then
        match shift_back (S (length a)) a pl (rd a pi) pi with
        | Some a => insertion fuel a pl pr (pi + 1)
        | None => None
        end
      else Some a
  end.

(** The outer [while (1)] with its [stack_pop] label. *)
Fixpoint intro_loop (fuel : nat) (s : qstate) : option (list nat) :=
  match fuel with
  | O => None
  | S fuel =>
      let round :=
        if q_cdepth s <? 0 then
          match aheapsort (arr s) (q_pl s) (q_pr s - q_pl s + 1) with
          | Some a => Some (a, q_stack s)
          | None => None
          end
        else
          match quick_loop (S (length (arr s))) s with
          | Some s' =>
              match insertion (S (length (arr s'))) (arr s')
                      (q_pl s') (q_pr s') (q_pl s' + 1) with
              | Some a => Some (a, q_stack s')
              | None => None
              end
          | None => None
          end in
      match round with
      | Some (a, []) => Some a
      | Some (a, (pl, pr, cdepth) :: stack) =>
          intro_loop fuel (mkQ a pl pr stack cdepth)
      | None => None
      end
  end.

(** [aquicksort_(vv, tosort, num)] on [tosort = 0, 1, .., num-1], which is
    how [argsort] fills the index array before the call. *)
Definition aquicksort : option (list nat) :=
  let num := length v in
  intro_loop (S num)
    (mkQ (seq 0 num) 0 (Z.of_nat num - 1) [] (npy_get_msb (Z.of_nat num) * 2)).

End ArgQuicksort.

(** *** [np.percentile(a, q)], default method 'linear'

    [np.sort] stands for the partial sort that [percentile] runs on a
    copy of the data: only order statistics are read from it, and these
    do not depend on the sorting algorithm. *)
Fixpoint insert_sorted (x : Q) (l : list Q) : list Q :=
  match l with
  | [] => [x]
  | y :: l' => if Qle_bool x y then x :: l else y :: insert_sorted x l'
  end.

Definition sort (l : list Q) : list Q := fold_right insert_sorted [] l.

(** [_lerp(a, b, t)]: [a + (b - a) * t], and [b - (b - a) * (1 - t)]
    where [t >= 0.5]. *)
Definition lerp (a b t : Q) : Q :=
  (if Qle_bool (1 # 2) t then b - (b - a) * (1 - t) else a + (b - a) * t)%Q.

(** The method 'linear' on the sorted numbers [arr], of which there is
    one at least.  The virtual index is [(n - 1) * q / 100]; at or above
    [n - 1] the last order statistic is returned. *)
Definition linear (arr : list Q) (q : Q) : Q :=
  let n := Z.of_nat (length arr) in
  let virtual_index := (inject_Z (n - 1) * (q / 100))%Q in
  if Qle_bool (inject_Z (n - 1)) virtual_index
  then nth (Z.to_nat (n - 1)) arr 0%Q
  else
    let previous_index := Qfloor virtual_index in
    let previous := nth (Z.to_nat previous_index) arr 0%Q in
    let next := nth (Z.to_nat (previous_index + 1)) arr 0%Q in
    let gamma := (virtual_index - inject_Z previous_index)%Q in
    lerp previous next gamma.

(** The numbers of an array; None when it holds a NaN. *)
Fixpoint numbers (a : list float64) : option (list Q) :=
  match a with
  | [] => Some []
  | Num q :: a' => match numbers a' with
                   | Some qs => Some (q :: qs)
                   | None => None
                   end
  | NaN :: _ => None
  end.

(** [np.percentile(a, q)]: ValueError for a percentage outside
    0 .. 100, IndexError for an empty array, nan for an array that
    holds a NaN. *)
Definition percentile (a : list float64) (q : Q) : result float64 :=
  if Qltb q 0 || Qltb 100 q then Raise ValueError
  else
    match a with
    | [] => Raise IndexError
    | _ :: _ =>
        match numbers a with
        | Some qs => Ok (Num (linear (sort qs) q))
        | None => Ok NaN
        end
    end.

(** *** [np.random.RandomState]

    The bit generator behind a [RandomState]: how a seed makes a state,
    and [random_interval(state, max)], a draw from 0 .. max that moves
    the state on. *)
Record BitGenerator : Type := mkBitGenerator {
  rng : Type;
  seed : Z -> rng;
  random_interval : rng -> nat -> nat * rng
}.

(** [RandomState(seed)] for an integer seed, which is how pandas and
    scikit-learn turn [random_state=seed] into a generator: ValueError
    unless the seed is between 0 and 2**32 - 1. *)
Definition RandomState (G : BitGenerator) (sd : Z) : result (rng G) :=
  if (0 <=? sd) && (sd <? 4294967296) then Ok (seed G sd)
  else Raise ValueError.

(** [random_interval] stays within its bound. *)
Definition interval_bounded (G : BitGenerator) : Prop :=
  forall (s : rng G) (max : nat), (fst (random_interval G s max) <= max)%nat.

(** [x[i], x[j] = x[j], x[i]]; the array is left alone if a position is
    outside of it, which the bound on [j] excludes. *)
Definition exchange (x : list nat) (i j : nat) : list nat :=
  match x !! i, x !! j with
  | Some a, Some b => <[j := a]> (<[i := b]> x)
  | _, _ => x
  end.

Section RandomState.
Variable G : BitGenerator.

(** [for i in reversed(range(1, n)): j = random_interval(i); swap i, j] *)
Fixpoint shuffle_loop (i : nat) (x : list nat) (s : rng G) : list nat * rng G :=
  match i with
  | O => (x, s)
  | S i' =>
      let (j, s') := random_interval G s i in
      shuffle_loop i' (exchange x i j) s'
  end.

(** [rs.permutation(x)] for an array [x]: a shuffled copy. *)
Definition permutation_of (x : list nat) (s : rng G) : list nat * rng G :=
  shuffle_loop (length x - 1) x s.

(** [rs.permutation(n)] for an integer: [arange(n)], shuffled. *)
Definition permutation (n : nat) (s : rng G) : list nat * rng G :=
  permutation_of (seq 0 n) s.

(** [rs.choice(n, size=size, replace=False)] without weights:
    [permutation(n)[:size]]. *)
Definition choice (n size : nat) (s : rng G) : result (list nat) * rng G :=
  if Nat.ltb n size then (Raise ValueError, s)
  else let (p, s') := permutation n s in (Ok (firstn size p), s').

(** [rs.choice(a, size=size, replace=False)] for an array [a] and
    [size <= len(a)]: [a[permutation(len(a))[:size]]]. *)
Definition choice_from (a : list nat) (size : nat) (s : rng G)
  : list nat * rng G :=
  let (p, s') := permutation (length a) s in
  (map (fun i => nth i a 0%nat) (firstn size p), s').

End RandomState.

(** *** MT19937, the bit generator of the legacy [RandomState]

    [mt19937_seed], [mt19937_gen], [mt19937_next] and the masked
    rejection sampling of [random_interval].  The rejection loop runs on
    fuel; should the fuel run out, the state is marked [starved] and 0 is
    returned.  Seeds are 32-bit words: [RandomState] refuses any other,
    and the notebook passes 42 everywhere. *)
Module MT19937.

Definition N : nat := 624.
Definition M : nat := 397.
Definition MATRIX_A : Z := 0x9908b0df.
Definition UPPER_MASK : Z := 0x80000000.
Definition LOWER_MASK : Z := 0x7fffffff.
Definition MASK32 : Z := 0xffffffff.

Record state : Type := mkState {
  key : list Z;
  pos : nat;
  starved : bool
}.

(** [key[pos] = seed; seed = (1812433253 * (seed ^ (seed >> 30)) + pos + 1)] *)
Fixpoint init_key (n : nat) (pos : Z) (sd : Z) : list Z :=
  match n with
  | O => []
  | S n' =>
      sd :: init_key n' (pos + 1)
              (Z.land (1812433253 * Z.lxor sd (Z.shiftr sd 30) + pos + 1) MASK32)
  end.

Definition mt19937_seed (sd : Z) : state :=
  mkState (init_key N 0 (Z.land sd MASK32)) N false.

Definition at_ (k : list Z) (i : nat) : Z := nth i k 0.

(** The three loops of [mt19937_gen] update [key] in place; entry [i]
    is made from the entries [i], [i + 1] and [i + M], indices modulo
    [N], as they are when the loop reaches [i]. *)
Fixpoint gen_loop (todo : nat) (i : nat) (k : list Z) : list Z :=
  match todo with
  | O => k
  | S todo' =>
      let y := Z.lor (Z.land (at_ k i) UPPER_MASK)
                     (Z.land (at_ k ((i + 1) mod N)) LOWER_MASK) in
      let mag := if Z.odd y then MATRIX_A else 0 in
      let v := Z.lxor (Z.lxor (at_ k ((i + M) mod N)) (Z.shiftr y 1)) mag in
      gen_loop todo' (S i) (<[i := v]> k)
  end.

Definition mt19937_gen (s : state) : state :=
  mkState (gen_loop N 0 (key s)) 0 (starved s).

Definition mt19937_next (s : state) : Z * state :=
  let s := if Nat.eqb (pos s) N then mt19937_gen s else s in
  let y := at_ (key s) (pos s) in
  let y := Z.lxor y (Z.shiftr y 11) in
  let y := Z.lxor y (Z.land (Z.land (Z.shiftl y 7) MASK32) 0x9d2c5680) in
  let y := Z.lxor y (Z.land (Z.land (Z.shiftl y 15) MASK32) 0xefc60000) in
  let y := Z.lxor y (Z.shiftr y 18) in
  (y, mkState (key s) (S (pos s)) (starved s)).

(** [(uint64_t)mt19937_next(state) << 32 | mt19937_next(state)] *)
Definition mt19937_next64 (s : state) : Z * state :=
  let (hi, s) := mt19937_next s in
  let (lo, s) := mt19937_next s in
  (Z.lor (Z.shiftl hi 32) lo, s).

(** Smallest bit mask [>= max]. *)
Definition bit_mask (max : Z) : Z :=
  let m := max in
  let m := Z.lor m (Z.shiftr m 1) in
  let m := Z.lor m (Z.shiftr m 2) in
  let m := Z.lor m (Z.shiftr m 4) in
  let m := Z.lor m (Z.shiftr m 8) in
  let m := Z.lor m (Z.shiftr m 16) in
  Z.lor m (Z.shiftr m 32).

(** [while ((value = (next(state) & mask)) > max);] *)
Fixpoint reject_loop (fuel : nat) (wide : bool) (mask max : Z) (s : state)
  : Z * state :=
  match fuel with
  | O => (0, mkState (key s) (pos s) true)
  | S fuel' =>
      let (r, s') := if wide then mt19937_next64 s else mt19937_next s in
      let value := Z.land r mask in
      if value >? max then reject_loop fuel' wide mask max s' else (value, s')
  end.

Definition random_interval (s : state) (max : nat) : nat * state :=
  let max := Z.of_nat max in
  if max =? 0 then (0%nat, s)
  else
    let (value, s') := reject_loop 4096 (MASK32 <? max) (bit_mask max) max s in
    (Z.to_nat value, s').

(** [legacy_double]: the 53-bit double in [0, 1) made of two draws. *)
Definition random_double (s : state) : Q * state :=
  let (a, s) := mt19937_next s in
  let (b, s) := mt19937_next s in
  (inject_Z (Z.shiftr a 5 * 67108864 + Z.shiftr b 6) / inject_Z 9007199254740992,
   s)%Q.

End MT19937.

Definition mt19937 : BitGenerator :=
  mkBitGenerator MT19937.state MT19937.mt19937_seed MT19937.random_interval.

(** [np.unique(a)]: the sorted values of [a], each once. *)
Fixpoint drop_repeats (l : list Q) : list Q :=
  match l with
  | x :: (y :: _) as t => if Qeq_bool x y then drop_repeats t else x :: drop_repeats t
  | _ => l
  end.

Definition unique (a : list Q) : list Q := drop_repeats (sort a).

(** [np.where(a == value)[0]] *)
Definition where_eq (a : list Q) (value : Q) : list nat :=
  List.filter (fun i => Qeq_bool (nth i a 0%Q) value) (seq 0 (length a)).

(** *** What [argsort] promises

    The documentation of [argsort] promises an index array that sorts the
    keys: every position once, keys nondecreasing along it.  It promises
    an order among equal keys only for the kinds 'stable' and
    'mergesort'. *)
Definition is_arange_perm (n : nat) (idx : list nat) : bool :=
  Nat.eqb (length idx) n
  && forallb (fun i => existsb (Nat.eqb i) idx) (seq 0 n).

Fixpoint nondecreasing (l : list Q) : bool :=
  match l with
  | x :: (y :: _) as t => Qle_bool x y && nondecreasing t
  | _ => true
  end.

Definition argsort_ok (v : list Q) (idx : list nat) : bool :=
  is_arange_perm (length v) idx && nondecreasing (map (key v) idx).

(** *** The invariants of the introsort

    The predicates in which the proof that [aquicksort] returns a
    sorting index array is stated. *)

Section SortInvariants.
Variable v : list Q.

(** [a'] rearranges the entries of [a] between [l] and [r] and leaves
    the other ones where they are. *)
Definition stays (a a' : list nat) (l r : Z) : Prop :=
  length a' = length a
  /\ Permutation a a'
  /\ (forall p, 0 <= p -> p < l \/ r < p -> rd a' p = rd a p)
  /\ (forall p, l <= p <= r -> exists p', l <= p' <= r /\ rd a' p = rd a p').

(** The keys are in order from [l] to [r]. *)
Definition ord (a : list nat) (l r : Z) : Prop :=
  forall p q, l <= p -> p <= q -> q <= r ->
              (key v (rd a p) <= key v (rd a q))%Q.

(** From the parent [l] on, no entry of the heap at [b + 1 .. b + n] is
    larger than its parent. *)
Definition heap_from (b n l : Z) (a : list nat) : Prop :=
  forall p k, l <= p -> k = 2 * p \/ k = 2 * p + 1 -> k <= n ->
              (key v (rd a (b + k)) <= key v (rd a (b + p)))%Q.

(** The ranges that are still to be sorted lie in the array and share no
    position. *)
Fixpoint ranges_ok (n : Z) (R : list (Z * Z)) : Prop :=
  match R with
  | [] => True
  | lr :: R' =>
      0 <= fst lr /\ fst lr <= snd lr /\ snd lr < n
      /\ Forall (fun lr' => snd lr < fst lr' \/ snd lr' < fst lr) R'
      /\ ranges_ok n R'
  end.

Definition covered (R : list (Z * Z)) (i j : Z) : Prop :=
  Exists (fun lr => fst lr <= i /\ j <= snd lr) R.

(** Two positions that no pending range holds together are in order. *)
Definition settled (a : list nat) (R : list (Z * Z)) : Prop :=
  forall i j, 0 <= i -> i < j -> j < Z.of_nat (length a) ->
              ~ covered R i j -> (key v (rd a i) <= key v (rd a j))%Q.

Fixpoint weight (R : list (Z * Z)) : Z :=
  match R with
  | [] => 0
  | lr :: R' => snd lr - fst lr + 1 + weight R'
  end.

(** The range at hand and the ranges on the stack. *)
Definition pending (s : qstate) : list (Z * Z) :=
  (q_pl s, q_pr s) :: map fst (q_stack s).

Definition sort_inv (n : nat) (a : list nat) (R : list (Z * Z)) : Prop :=
  length a = n /\ Permutation (seq 0 n) a
  /\ ranges_ok (Z.of_nat n) R /\ settled a R.

End SortInvariants.

End np.

(** ** pandas *)

Module pd.

Section Frames.
Context {A : Type}.

(** [df.index] *)
Definition index (df : DataFrame A) : list Z := map fst df.

(** [df.col > 0], a boolean Series aligned with [df]: False in the rows
    where the cell is NaN. *)
Definition gt0 (col : A -> float64) (df : DataFrame A) : list bool :=
  map (fun r => f64.gtb (col (snd r)) (Num 0)) df.

(** [df[mask]]: boolean indexing keeps the rows whose mask entry is True. *)
Fixpoint getitem_mask (mask : list bool) (df : DataFrame A) : DataFrame A :=
  match mask, df with
  | b :: mask', r :: df' =>
      if b then r :: getitem_mask mask' df' else getitem_mask mask' df'
  | _, _ => []
  end.

Definition mem (l : Z) (labels : list Z) : bool := existsb (Z.eqb l) labels.

(** [df.drop(labels)] with the defaults [axis=0], [inplace=False],
    [errors='raise']: a label that is not in the index raises KeyError;
    otherwise the result is a new frame without the rows whose label is
    listed (every row carrying such a label, should labels repeat). *)
Definition drop (labels : list Z) (df : DataFrame A) : result (DataFrame A) :=
  if forallb (fun l => mem l (index df)) labels
  then Ok (List.filter (fun r => negb (mem (fst r) labels)) df)
  else Raise KeyError.

(** [df.take(positions)]: the rows at the given positions, in that order;
    IndexError for a position out of bounds. *)
Definition take (positions : list nat) (df : DataFrame A) : result (DataFrame A) :=
  take_at positions df.

(** [df.sort_values(by=[c], ascending=True)] for one column, read by
    [col], with the defaults [kind='quicksort'], [na_position='last']:
    [indexer = nargsort(k, kind=kind, ...)], then the rows are taken at
    [indexer].  [argsort] stands for [ndarray.argsort(kind='quicksort')],
    whose code path depends on the numpy build. *)
Definition sort_values (argsort : list Q -> list nat) (col : A -> Q)
  (df : DataFrame A) : result (DataFrame A) :=
  take (argsort (map (fun r => col (snd r)) df)) df.

(** [df[:n]]: the first [n] rows. *)
Definition head (n : nat) (df : DataFrame A) : DataFrame A := firstn n df.

(** [df.index = RangeIndex(len(df))], the effect of [ignore_index=True]. *)
Definition reset_index (df : DataFrame A) : DataFrame A :=
  combine (map Z.of_nat (seq 0 (length df))) (map snd df).

(** [df.sample(n, random_state=.., ignore_index=..)], no weights, no
    replacement.  An integer [random_state] seeds a generator of its own,
    before anything else is looked at, and a seed that [RandomState]
    refuses ends the call; with [None] the draw comes from the global
    generator of numpy, whose state [global] it moves on. *)
Definition sample (G : np.BitGenerator) (n : nat) (random_state : option Z)
  (ignore_index : bool) (df : DataFrame A) (global : np.rng G)
  : result (DataFrame A) * np.rng G :=
  match (match random_state with
         | Some sd => np.RandomState G sd
         | None => Ok global
         end) with
  | Raise e => (Raise e, global)
  | Ok rs =>
      let (sampled_indices, rs') := np.choice G (length df) n rs in
      let global' := match random_state with
                     | Some _ => global
                     | None => rs'
                     end in
      (try idx <- sampled_indices in
       try res <- take idx df in
       Ok (if ignore_index then reset_index res else res),
       global')
  end.

(** [df[c] = values] for a column [c] that [mk] writes into a row:
    ValueError unless there is one value per row; the rows keep their
    order, their labels and their other cells. *)
Definition setitem {B : Type} (mk : A -> Q -> B) (df : DataFrame A)
  (values : list Q) : result (DataFrame B) :=
  if Nat.eqb (length values) (length df)
  then Ok (map (fun rv : (Z * A) * Q => (fst (fst rv), mk (snd (fst rv)) (snd rv)))
             (combine df values))
  else Raise ValueError.

End Frames.

End pd.

(** ** scikit-learn *)

Module sk.

(** [2 ** e] *)
Definition pow2 (e : Z) : Q :=
  if 0 <=? e then inject_Z (2 ^ e) else (1 / inject_Z (2 ^ (- e)))%Q.

(** [floor(log2(x))] for [x > 0] *)
Definition ilog2 (x : Q) : Z :=
  let e := Z.log2 (Qnum x) - Z.log2 (Z.pos (Qden x)) in
  if Qle_bool (pow2 e) x then e else e - 1.

(** The nearest integer, the even one of two that are equally near. *)
Definition round_half_even (x : Q) : Z :=
  let f := Qfloor x in
  match Qcompare (x - inject_Z f) (1 # 2) with
  | Lt => f
  | Gt => f + 1
  | Eq => if Z.even f then f else f + 1
  end.

(** [np.float32(x)] for a value inside the range of float32: the nearest
    number with a mantissa of 24 bits, or the nearest multiple of
    [2 ** -149] below the normal range. *)
Definition float32 (x : Q) : Q :=
  if Qeq_bool x 0 then 0%Q
  else
    let e := Z.max (ilog2 (Qabs x)) (-126) in
    let ulp := pow2 (e - 23) in
    (inject_Z (round_half_even (x / ulp)) * ulp)%Q.

(** A value that the cast to float32 turns into an infinity: the largest
    float32 is [2 ** 128 - 2 ** 104], and from half a step above it on
    the cast rounds away from it. *)
Definition float32_overflows (x : Q) : bool :=
  Qle_bool (inject_Z (2 ^ 128 - 2 ^ 103)) (Qabs x).

(** [check_array(X, dtype=float32)] as the forest calls it on a list of
    feature rows: the array must be 2-D, which the empty list is not,
    with rows of one length; cast to float32 it must hold no infinity;
    it must have at least one sample and at least one feature.  Returns
    the array after the cast. *)
Definition check_array (X : list (list Q)) : result (list (list Q)) :=
  match X with
  | [] => Raise ValueError
  | row :: rest =>
      if forallb (fun r => Nat.eqb (length r) (length row)) rest
      then if existsb (existsb float32_overflows) X then Raise ValueError
           else if Nat.eqb (length row) 0 then Raise ValueError
           else Ok (map (map float32) X)
      else Raise ValueError
  end.

(** A fitted regression tree. *)
Inductive tree : Type :=
  | Leaf (value : Q)
  | Node (feature : nat) (threshold : Q) (children_left children_right : tree).

Fixpoint tree_predict (t : tree) (x : list Q) : Q :=
  match t with
  | Leaf value => value
  | Node feature threshold children_left children_right =>
      if Qle_bool (nth feature x 0%Q) threshold
      then tree_predict children_left x
      else tree_predict children_right x
  end.

(** A fitted [RandomForestRegressor]. *)
Record RandomForestRegressor : Type := mkForest {
  n_features_in_ : nat;
  estimators_ : list tree
}.

(** The number of columns of a 2-D array that has a row. *)
Definition n_features (X : list (list Q)) : nat :=
  match X with
  | [] => 0%nat
  | row :: _ => length row
  end.

(** [reg.predict(X)]: validate [X] and cast it to float32, compare its
    width with the one seen by [fit], then average the trees row by
    row. *)
Definition predict (reg : RandomForestRegressor) (X : list (list Q))
  : result (list Q) :=
  try X <- check_array X in
  if Nat.eqb (n_features X) (n_features_in_ reg)
  then Ok (map (fun x =>
                  (fold_right Qplus 0 (map (fun t => tree_predict t x)
                                           (estimators_ reg))
                   / inject_Z (Z.of_nat (length (estimators_ reg))))%Q)
             X)
  else Raise ValueError.

(** *** [sklearn.model_selection.train_test_split] *)

(** The ceiling of the exact product [test_size * n_samples].  For the
    two ratios of the notebook, 0.2 and 0.3, this is the ceiling of the
    float64 product that scikit-learn takes, for every number of samples
    below [2 ** 50]: the exact product is an integer, which the float64
    product then is as well, or it is a tenth or more away from one.
    For other ratios the two differ: the float64 product of 0.07 and 100
    is 7.000000000000001. *)
Definition ceil_exact (test_size : Q) (n_samples : nat) : Z :=
  Qceiling (test_size * inject_Z (Z.of_nat n_samples)).

Section ModelSelection.
Variable G : np.BitGenerator.

(** [ceil(test_size * n_samples)], which scikit-learn takes of the
    float64 product.  float64 products are not computed here:
    [ceil_product] stands for the operation, whatever it returns. *)
Variable ceil_product : Q -> nat -> Z.

(** [_validate_shuffle_split] for a float [test_size] and [train_size]
    left at None: [n_test = ceil(test_size * n_samples)],
    [n_train = n_samples - n_test]; an empty train set is an error. *)
Definition validate_shuffle_split (n_samples : nat) (test_size : Q)
  : result (nat * nat) :=
  if Qle_bool test_size 0 || Qle_bool 1 test_size then Raise ValueError
  else
    let n := Z.of_nat n_samples in
    let n_test := ceil_product test_size n_samples in
    let n_train := n - n_test in
    if n <? n_train + n_test then Raise ValueError
    else if n_train =? 0 then Raise ValueError
    else Ok (Z.to_nat n_train, Z.to_nat n_test).

(** The same function on the integer sizes, which the splitter runs
    again. *)
Definition validate_sizes (n_samples n_train n_test : nat) : result unit :=
  if Nat.leb n_samples n_test || Nat.eqb n_test 0
     || Nat.leb n_samples n_train || Nat.eqb n_train 0
  then Raise ValueError
  else if Nat.ltb n_samples (n_train + n_test) then Raise ValueError
  else Ok tt.

(** [ShuffleSplit._iter_indices], first split:
    [ind_test = permutation[:n_test]],
    [ind_train = permutation[n_test:(n_test + n_train)]]. *)
Definition shuffle_split (n_samples n_train n_test : nat) (s : np.rng G)
  : list nat * list nat :=
  let (permutation, _) := np.permutation G n_samples s in
  (firstn n_train (skipn n_test permutation), firstn n_test permutation).

(** [floored[inds] += 1] *)
Definition increment (floored : list Z) (inds : list nat) : list Z :=
  fold_left (fun f i => match f !! i with
                        | Some c => <[i := c + 1]> f
                        | None => f
                        end) inds floored.

(** The loop [for value in values] of [_approximate_mode]. *)
Fixpoint add_by_remainder (values remainder : list Q) (floored : list Z)
  (need_to_add : Z) (s : np.rng G) : list Z * np.rng G :=
  match values with
  | [] => (floored, s)
  | value :: values' =>
      let inds := np.where_eq remainder value in
      let add_now := Z.min (Z.of_nat (length inds)) need_to_add in
      let (inds, s) := np.choice_from G inds (Z.to_nat add_now) s in
      let floored := increment floored inds in
      let need_to_add := need_to_add - add_now in
      if need_to_add =? 0 then (floored, s)
      else add_by_remainder values' remainder floored need_to_add s
  end.

(** [_approximate_mode(class_counts, n_draws, rng)]: the draws are shared
    out in proportion to the class counts, rounded down; what is left
    goes to the classes with the largest remainders, ties broken by
    [rng]. *)
Definition approximate_mode (class_counts : list Z) (n_draws : Z)
  (s : np.rng G) : list Z * np.rng G :=
  let total := fold_right Z.add 0 class_counts in
  let continuous :=
    map (fun c => (inject_Z c / inject_Z total * inject_Z n_draws)%Q)
      class_counts in
  let floored := map Qfloor continuous in
  let need_to_add := n_draws - fold_right Z.add 0 floored in
  if need_to_add >? 0 then
    let remainder := map (fun x => (x - inject_Z (Qfloor x))%Q) continuous in
    let values := rev (np.sort (np.unique remainder)) in
    add_by_remainder values remainder floored need_to_add s
  else (floored, s).

(** [np.unique(y)] for boolean labels. *)
Definition classes (y : list bool) : list bool :=
  List.filter (fun c => existsb (Bool.eqb c) y) [false; true].

(** The positions of class [c], ascending: one block of
    [np.argsort(y_indices, kind='mergesort')]. *)
Definition class_positions (y : list bool) (c : bool) : list nat :=
  List.filter (fun i => Bool.eqb (nth i y false) c) (seq 0 (length y)).

(** [a.take(indices, mode='clip')] *)
Definition take_clip (a : list nat) (indices : list nat) : list nat :=
  map (fun i => nth (Nat.min i (length a - 1)) a 0%nat) indices.

(** The loop [for i in range(n_classes)] that fills [train] and [test]. *)
Fixpoint per_class (class_indices : list (list nat)) (n_i t_i : list Z)
  (train test : list nat) (s : np.rng G) : list nat * list nat * np.rng G :=
  match class_indices, n_i, t_i with
  | ci :: class_indices', n :: n_i', t :: t_i' =>
      let (permutation, s) := np.permutation G (length ci) s in
      let perm_indices_class_i := take_clip ci permutation in
      let train := train ++ firstn (Z.to_nat n) perm_indices_class_i in
      let test :=
        test ++ firstn (Z.to_nat t) (skipn (Z.to_nat n) perm_indices_class_i) in
      per_class class_indices' n_i' t_i' train test s
  | _, _, _ => (train, test, s)
  end.

(** [StratifiedShuffleSplit._iter_indices], first split, after the sizes
    have been validated, for boolean labels as [y_cls] has them.  The
    checks: [np.min] of no class counts at all, a class with fewer than
    two members, a part smaller than the number of classes. *)
Definition stratified_split (y : list bool) (n_train n_test : nat)
  (s : np.rng G) : result (list nat * list nat) :=
  let cls := classes y in
  let class_indices := map (class_positions y) cls in
  let class_counts := map (fun ci => Z.of_nat (length ci)) class_indices in
  let n_classes := length cls in
  if Nat.eqb n_classes 0 then Raise ValueError
  else if existsb (fun c => c <? 2) class_counts then Raise ValueError
  else if Nat.ltb n_train n_classes then Raise ValueError
  else if Nat.ltb n_test n_classes then Raise ValueError
  else
    let (n_i, s) := approximate_mode class_counts (Z.of_nat n_train) s in
    let class_counts_remaining :=
      map (fun cn : Z * Z => fst cn - snd cn) (combine class_counts n_i) in
    let (t_i, s) := approximate_mode class_counts_remaining (Z.of_nat n_test) s in
    let '(train, test, s) := per_class class_indices n_i t_i [] [] s in
    let (train, s) := np.permutation_of G train s in
    let (test, s) := np.permutation_of G test s in
    Ok (train, test).

(** The index arrays of the split: sizes, then the splitter that
    [stratify] selects, with a generator made from the seed.  Every
    check on the way raises ValueError, and so does [RandomState] on a
    seed it refuses, which the splitters find out after their own
    checks: whichever comes first, the outcome is the same. *)
Definition split_indices (n_samples : nat) (test_size : Q) (random_state : Z)
  (stratify : option (list bool)) : result (list nat * list nat) :=
  try sizes <- validate_shuffle_split n_samples test_size in
  match stratify with
  | None =>
      try _ok <- validate_sizes n_samples (fst sizes) (snd sizes) in
      try rs <- np.RandomState G random_state in
      Ok (shuffle_split n_samples (fst sizes) (snd sizes) rs)
  | Some labels =>
      if negb (Nat.eqb (length labels) n_samples) then Raise ValueError
      else
        try _ok <- validate_sizes n_samples (fst sizes) (snd sizes) in
        try rs <- np.RandomState G random_state in
        stratified_split labels (fst sizes) (snd sizes) rs
  end.

(** [train_test_split(X, y, test_size=.., random_state=.., shuffle=True,
    stratify=..)] on two lists: [X_train, X_test, y_train, y_test]. *)
Definition train_test_split {B C : Type} (X : list B) (y : list C)
  (test_size : Q) (random_state : Z) (stratify : option (list bool))
  : result (list B * list B * list C * list C) :=
  if negb (Nat.eqb (length X) (length y)) then Raise ValueError
  else
    try ix <- split_indices (length X) test_size random_state stratify in
    try X_train <- take_at (fst ix) X in
    try X_test <- take_at (snd ix) X in
    try y_train <- take_at (fst ix) y in
    try y_test <- take_at (snd ix) y in
    Ok (X_train, X_test, y_train, y_test).

End ModelSelection.

End sk.

(** ** AutoDock Vina *)

(** The [Vina] object as the docking loop uses it: a state that the calls
    move on, each of which may raise.  [energies] gives one row
    [total, inter, intra, torsions, intra best] per pose. *)
Record Vina : Type := mkVina {
  docker_state : Type;
  set_ligand_from_file : docker_state -> string -> result docker_state;
  compute_vina_maps : docker_state -> result docker_state;
  dock : docker_state -> nat -> nat -> result docker_state;
  energies : docker_state -> nat -> result (list (list Q))
}.

(** ** The notebook *)

Module Notebook.

(** The right-hand side of cell 34,
    [database.drop(database[ database.Scores > 0 ].index)],
    for a frame whose column [Scores] is read by [col]. *)
Definition filter_positive {A : Type} (col : A -> float64)
  (database : DataFrame A) : result (DataFrame A) :=
  pd.drop (pd.index (pd.getitem_mask (pd.gt0 col database) database)) database.

(** Cell 39, right-hand side:
    [database.sample(N_SAMPLE, random_state=42, ignore_index=True)] *)
Definition random_sel (G : np.BitGenerator) (N_SAMPLE : nat)
  (database : DataFrame Compound) (global : np.rng G)
  : result (DataFrame Compound) * np.rng G :=
  pd.sample G N_SAMPLE (Some 42) true database global.

(** Cell 44:
    [X, y = random_sel.RDKit.values.tolist(), random_sel.Scores.values.tolist()] *)
Definition cell_44 (random_sel : DataFrame Compound)
  : list (list Q) * list float64 :=
  (map (fun r => RDKit (snd r)) random_sel,
   map (fun r => Scores (snd r)) random_sel).

(** Cell 47:
    [threshold = np.percentile(y,30)]
    [y_cls = [ score < threshold for score in y]] *)
Definition cell_47 (y : list float64) : result (float64 * list bool) :=
  try threshold <- np.percentile y 30 in
  let y_cls := map (fun score => f64.ltb score threshold) y in
  Ok (threshold, y_cls).

(** Cell 49: the stratified 80/20 split for the classifier. *)
Definition cell_49 (G : np.BitGenerator) (X : list (list Q)) (y_cls : list bool)
  : result (list (list Q) * list (list Q) * list bool * list bool) :=
  sk.train_test_split G sk.ceil_exact X y_cls (20 # 100) 42 (Some y_cls).

(** Cell 58: the 70/30 split for the regressor. *)
Definition cell_58 (G : np.BitGenerator) (X : list (list Q)) (y : list float64)
  : result (list (list Q) * list (list Q) * list float64 * list float64) :=
  sk.train_test_split G sk.ceil_exact X y (30 # 100) 42 None.

(** Cell 67, right-hand side: [reg.predict(database.RDKit.values.tolist())] *)
Definition predicted_scores {A : Type} (fp : A -> list Q)
  (reg : sk.RandomForestRegressor) (database : DataFrame A) : result (list Q) :=
  sk.predict reg (map (fun r => fp (snd r)) database).

(** Cells 67 and 69 on a frame that has no column [Predictions] yet. *)
Definition scorer (reg : sk.RandomForestRegressor) (database : DataFrame Compound)
  : result (DataFrame Scored) :=
  try ps <- predicted_scores RDKit reg database in
  pd.setitem mkScored database ps.

(** The same on a frame that has the column: its cells are overwritten. *)
Definition rescorer (reg : sk.RandomForestRegressor) (database : DataFrame Scored)
  : result (DataFrame Scored) :=
  try ps <- predicted_scores (fun r => RDKit (compound r)) reg database in
  pd.setitem (fun r p => mkScored (compound r) p) database ps.

(** Cell 71, right-hand side:
    [database.sort_values(by=['Predictions'], ascending=True)[:N_SAMPLE]] *)
Definition biased_sel (argsort : list Q -> list nat) (N_SAMPLE : nat)
  (database : DataFrame Scored) : result (DataFrame Scored) :=
  try sorted <- pd.sort_values argsort Predictions database in
  Ok (pd.head N_SAMPLE sorted).

(** The portable [argsort] of numpy.  The fuel of [np.aquicksort] never
    runs out ([aquicksort_sorts] below), so the second branch is never
    taken. *)
Definition argsort_portable (v : list Q) : list nat :=
  match np.aquicksort v with
  | Some idx => idx
  | None => []
  end.

(** [R] has min(K, |D|) rows, ascending in [Predictions], and they are
    rows of [D] with the smallest predictions. *)
Definition selects_smallest (K : nat) (D R : DataFrame Scored) : Prop :=
  length R = Nat.min K (length D)
  /\ StronglySorted
       (fun x y => (Predictions (snd x) <= Predictions (snd y))%Q) R
  /\ exists rest,
       Permutation D (R ++ rest)
       /\ forall x y, In x R -> In y rest ->
                      (Predictions (snd x) <= Predictions (snd y))%Q.

(** [x] occurs at an earlier position of [l] than [y]. *)
Definition before {A : Type} (l : list A) (x y : A) : Prop :=
  exists i j, (i < j)%nat /\ nth_error l i = Some x /\ nth_error l j = Some y.

(** Rows of [R] with equal predictions follow each other as in [D]. *)
Definition ties_in_original_order (D R : DataFrame Scored) : Prop :=
  forall x y, before R x y ->
              (Predictions (snd x) == Predictions (snd y))%Q ->
              before D x y.

(** *** Cell 19: the docking loop *)

Definition EXHAUSTIVENESS : nat := 8.
Definition N_POSES : nat := 5.

(** What the loop prints. *)
Inductive printed : Type :=
  | DockingLigand (ligand : string)
  | DockingScoresHeader
  | PoseEnergy (pose : nat) (energy : list Q)
  | Stars.

Record docking (V : Vina) : Type := mkDocking {
  docker : docker_state V;
  docking_scores : list Q;
  stdout : list printed
}.
Arguments mkDocking {V} _ _ _.
Arguments docker {V} _.
Arguments docking_scores {V} _.
Arguments stdout {V} _.

(** [a[0][0]]; IndexError on an empty array. *)
Definition item00 (a : list (list Q)) : result Q :=
  match a with
  | (x :: _) :: _ => Ok x
  | _ => Raise IndexError
  end.

(** The body of the loop for one ligand.  The statements run in order;
    the first exception ends the body, keeping what was done before. *)
Definition dock_one (V : Vina) (ligand : string) (st : docking V)
  : docking V * option exn :=
  let out := stdout st ++ [DockingLigand ligand] in
  match set_ligand_from_file V (docker st) ligand with
  | Raise e => (mkDocking (docker st) (docking_scores st) out, Some e)
  | Ok d =>
  match compute_vina_maps V d with
  | Raise e => (mkDocking d (docking_scores st) out, Some e)
  | Ok d =>
  match dock V d EXHAUSTIVENESS N_POSES with
  | Raise e => (mkDocking d (docking_scores st) out, Some e)
  | Ok d =>
  let out := out ++ [DockingScoresHeader] in
  match energies V d N_POSES with
  | Raise e => (mkDocking d (docking_scores st) out, Some e)
  | Ok es =>
  let out := out ++ map (fun pe : nat * list Q => PoseEnergy (fst pe) (snd pe))
                        (combine (seq 0 (length es)) es) in
  match (try best <- energies V d 1 in item00 best) with
  | Raise e => (mkDocking d (docking_scores st) out, Some e)
  | Ok score =>
      (mkDocking d (docking_scores st ++ [score]) (out ++ [Stars]), None)
  end end end end end.

(** [for ligand in ...]: an exception raised in the body leaves the loop. *)
Fixpoint for_ligand (V : Vina) (ligands : list string) (st : docking V)
  : docking V * option exn :=
  match ligands with
  | [] => (st, None)
  | ligand :: rest =>
      match dock_one V ligand st with
      | (st', None) => for_ligand V rest st'
      | (st', Some e) => (st', Some e)
      end
  end.

(** Cell 19: [docking_scores = []], then the loop over
    [ligands[:N_TO_DOCK]]. *)
Definition cell_19 (V : Vina) (N_TO_DOCK : nat) (ligands : list string)
  (d : docker_state V) : docking V * option exn :=
  for_ligand V (firstn N_TO_DOCK ligands) (mkDocking d [] []).

(** An engine for running the loop: it cannot read the file
    [broken.pdbqt] and finds the same three poses for any other ligand. *)
Definition toy_vina : Vina :=
  mkVina (option string)
    (fun _ ligand =>
       if String.eqb ligand "broken.pdbqt" then Raise RuntimeError
       else Ok (Some ligand))
    (fun d => Ok d)
    (fun d _ _ => Ok d)
    (fun d n =>
       Ok (firstn n [[-(71 # 10); -(90 # 10); -(5 # 10); 24 # 10; -(5 # 10)];
                     [-(68 # 10); -(86 # 10); -(6 # 10); 24 # 10; -(5 # 10)];
                     [-(65 # 10); -(83 # 10); -(6 # 10); 24 # 10; -(5 # 10)]]%Q)).

(** *** Kernel state

    The names of the notebook are global variables bound to objects;
    rebinding a name leaves the object it was bound to in place, while a
    method that works in place changes the object every name sees.  A
    cell that finds a name bound to an object of another kind than the
    notebook binds it to raises; [TypeError] stands for that error. *)

Inductive object : Type :=
  | Frame (df : DataFrame Compound)
  | ScoredFrame (df : DataFrame Scored)
  | Floats (xs : list Q).

Record Kernel : Type := mkKernel {
  globals : gmap string positive;
  heap : gmap positive object
}.

Definition load_name (x : string) (k : Kernel) : result (positive * object) :=
  match globals k !! x with
  | Some l => match heap k !! l with
              | Some o => Ok (l, o)
              | None => Raise NameError
              end
  | None => Raise NameError
  end.

(** [x = <new object o>] *)
Definition store_new (x : string) (o : object) (k : Kernel) : Kernel :=
  let l := fresh (dom (heap k)) in
  {| globals := <[x := l]> (globals k); heap := <[l := o]> (heap k) |}.

(** In-place update of the object at [l]. *)
Definition mutate (l : positive) (o : object) (k : Kernel) : Kernel :=
  {| globals := globals k; heap := <[l := o]> (heap k) |}.

(** Cell 34: [database = database.drop(database[ database.Scores > 0 ].index)] *)
Definition cell_34 (k : Kernel) : result Kernel :=
  try lo <- load_name "database" k in
  match snd lo with
  | Frame df =>
      try df' <- filter_positive Scores df in
      Ok (store_new "database" (Frame df') k)
  | ScoredFrame df =>
      try df' <- filter_positive (fun r => Scores (compound r)) df in
      Ok (store_new "database" (ScoredFrame df') k)
  | Floats _ => Raise TypeError
  end.

(** Cell 67: [predicted_scores = reg.predict(database.RDKit.values.tolist())] *)
Definition cell_67 (reg : sk.RandomForestRegressor) (k : Kernel) : result Kernel :=
  try lo <- load_name "database" k in
  try ps <- match snd lo with
            | Frame df => predicted_scores RDKit reg df
            | ScoredFrame df =>
                predicted_scores (fun r => RDKit (compound r)) reg df
            | Floats _ => Raise TypeError
            end in
  Ok (store_new "predicted_scores" (Floats ps) k).

(** Cell 69: [database['Predictions'] = predicted_scores], in place. *)
Definition cell_69 (k : Kernel) : result Kernel :=
  try lo <- load_name "database" k in
  try vs <- load_name "predicted_scores" k in
  match snd lo, snd vs with
  | Frame df, Floats ps =>
      try df' <- pd.setitem mkScored df ps in
      Ok (mutate (fst lo) (ScoredFrame df') k)
  | ScoredFrame df, Floats ps =>
      try df' <- pd.setitem (fun r p => mkScored (compound r) p) df ps in
      Ok (mutate (fst lo) (ScoredFrame df') k)
  | _, _ => Raise TypeError
  end.

(** *** Scenario data *)

Definition scenario_scores : list Q := [-9; -8; -7; -6; -5; -4; -3; -2; -1; 1]%Q.

(** Ten rows with the default index 0..9; row [i] has a one-hot
    fingerprint of length ten. *)
Definition scenario_db : DataFrame Compound :=
  combine (map Z.of_nat (seq 0 10))
    (map (fun p : nat * Q =>
            mkCompound (map (fun j => if Nat.eqb j (fst p) then 1%Q else 0%Q)
                          (seq 0 10))
                       (Num (snd p)) [])
       (combine (seq 0 10) scenario_scores)).

(** The nine rows that cell 34 keeps, each predicted at its own score. *)
Definition scenario_scored : DataFrame Scored :=
  map (fun rp : (Z * Compound) * Q =>
         (fst (fst rp), mkScored (snd (fst rp)) (snd rp)))
    (combine (firstn 9 scenario_db) scenario_scores).

(** Eighteen rows with the default index, all predicted at -8. *)
Definition tied_db : DataFrame Scored :=
  map (fun i : nat =>
         (Z.of_nat i,
          mkScored (mkCompound [inject_Z (Z.of_nat i)] (Num (-8)) []) (-8)))
    (seq 0 18).

(** Twenty rows with the default index and pairwise different
    predictions in no order: row [i] is predicted at [7 i mod 20 - 10]. *)
Definition shuffled_db : DataFrame Scored :=
  map (fun i : nat =>
         let p := inject_Z (Z.of_nat ((7 * i) mod 20)%nat - 10) in
         (Z.of_nat i,
          mkScored (mkCompound [inject_Z (Z.of_nat i)] (Num p) []) p))
    (seq 0 20).

(** A forest of two trees on ten features. *)
Definition scenario_reg : sk.RandomForestRegressor :=
  sk.mkForest 10
    [sk.Node 0 (1 # 2) (sk.Node 1 (1 # 2) (sk.Leaf (-5)) (sk.Leaf (-8)))
                      (sk.Leaf (-9));
     sk.Node 2 (1 # 2) (sk.Leaf (-6)) (sk.Leaf (-7))].

(** Three rows, the first of which has no score. *)
Definition missing_db : DataFrame Compound :=
  [(0, mkCompound [1%Q; 0%Q] NaN []);
   (1, mkCompound [0%Q; 1%Q] (Num 1) []);
   (2, mkCompound [1%Q; 1%Q] (Num (-1)) [])].

Definition scenario_kernel : Kernel :=
  {| globals := {[ "database"%string := 1%positive ]};
     heap := {[ 1%positive := Frame scenario_db ]} |}.

(** *** Further cells *)

(** Cell 28, last line: [database.sample(5)], five rows drawn from
    numpy's global generator, each under its own label. *)
Definition cell_28 (G : np.BitGenerator) (database : DataFrame Compound)
  (global : np.rng G) : result (DataFrame Compound) * np.rng G :=
  pd.sample G 5 None false database global.

(** [mask.sum()] of a boolean Series: the number of True entries. *)
Definition sum_mask (mask : list bool) : nat :=
  length (List.filter (fun b : bool => b) mask).

(** Cell 32: [(database.Scores > 0).sum()] *)
Definition cell_32 {A : Type} (col : A -> float64) (database : DataFrame A)
  : nat :=
  sum_mask (pd.gt0 col database).

(** Cell 47, the counts it prints: [np.sum(y_cls)] positive samples and
    [len(y_cls) - np.sum(y_cls)] negative ones. *)
Definition positive_samples (y_cls : list bool) : nat := sum_mask y_cls.

Definition negative_samples (y_cls : list bool) : nat :=
  length y_cls - sum_mask y_cls.

(** The ligands that the loop of cell 19 has announced, read off what it
    printed. *)
Definition announced (out : list printed) : list string :=
  flat_map (fun line => match line with
                        | DockingLigand ligand => [ligand]
                        | _ => []
                        end) out.

(** An engine that docks every ligand and finds no pose. *)
Definition poseless_vina : Vina :=
  mkVina unit (fun d _ => Ok d) (fun d => Ok d) (fun d _ _ => Ok d)
    (fun _ _ => Ok []).

(** Cells 34, 67, 69 and 71 one after the other on the loaded table, for
    a regressor that has been fitted in between. *)
Definition screen (argsort : list Q -> list nat) (reg : sk.RandomForestRegressor)
  (N_SAMPLE : nat) (database : DataFrame Compound) : result (DataFrame Scored) :=
  try filtered <- filter_positive Scores database in
  try scored <- scorer reg filtered in
  biased_sel argsort N_SAMPLE scored.

End Notebook.

(** * Properties *)

(** ** Filtering (cell 34) *)

Section FilterFacts.
Context {A : Type}.
Implicit Types (df : DataFrame A) (bad : Z * A -> bool).

Lemma getitem_mask_map bad df :
  pd.getitem_mask (map bad df) df = List.filter bad df.
Proof.
  induction df as [|r df IH]; simpl; [reflexivity|].
  destruct (bad r); rewrite IH; reflexivity.
Qed.

Lemma mem_In (l : Z) (ls : list Z) : pd.mem l ls = true <-> In l ls.
Proof.
  unfold pd.mem. rewrite existsb_exists. split.
  - intros (x & Hx & E). apply Z.eqb_eq in E. subst. exact Hx.
  - intros H. exists l. split; [exact H | apply Z.eqb_refl].
Qed.

Lemma index_filter_incl bad df l :
  In l (pd.index (List.filter bad df)) -> In l (pd.index df).
Proof.
  unfold pd.index. rewrite !in_map_iff.
  intros (r & E & H). apply filter_In in H. exists r. tauto.
Qed.

(** Dropping the labels of a selection of the frame's own rows never
    raises KeyError. *)
Lemma drop_own_labels bad df :
  pd.drop (pd.index (List.filter bad df)) df
  = Ok (List.filter
          (fun r => negb (pd.mem (fst r) (pd.index (List.filter bad df)))) df).
Proof.
  unfold pd.drop.
  replace (forallb _ _) with true; [reflexivity|].
  symmetry. apply forallb_forall. intros l Hl.
  apply mem_In. eapply index_filter_incl. exact Hl.
Qed.

Lemma filter_sublist (f : Z * A -> bool) df : sublist (List.filter f df) df.
Proof.
  induction df as [|r df IH]; simpl; [constructor|].
  destruct (f r); constructor; exact IH.
Qed.

(** A row that survives the drop is not one of the selected rows. *)
Lemma drop_own_labels_kept bad df r :
  In r (List.filter
          (fun r => negb (pd.mem (fst r) (pd.index (List.filter bad df)))) df) ->
  bad r = false.
Proof.
  intros H. apply filter_In in H. destruct H as [Hin Hm].
  destruct (bad r) eqn:E; [|reflexivity].
  apply negb_true_iff in Hm.
  assert (pd.mem (fst r) (pd.index (List.filter bad df)) = true) as Hc.
  { apply mem_In. unfold pd.index. apply in_map. apply filter_In. tauto. }
  congruence.
Qed.

End FilterFacts.

Lemma filter_none_gen {B : Type} (f : B -> bool) (l : list B) :
  Forall (fun x => f x = false) l -> List.filter f l = [].
Proof.
  induction 1 as [|x l Hx _ IH]; simpl; [reflexivity|].
  rewrite Hx. exact IH.
Qed.

Section FilterIdempotent.
Context {A : Type}.

Lemma filter_all_true (f : Z * A -> bool) (df : DataFrame A) :
  Forall (fun r => f r = true) df -> List.filter f df = df.
Proof.
  induction 1 as [|r df Hr _ IH]; simpl; [reflexivity|].
  rewrite Hr, IH. reflexivity.
Qed.

Lemma filter_none (f : Z * A -> bool) (df : DataFrame A) :
  Forall (fun r => f r = false) df -> List.filter f df = [].
Proof.
  induction 1 as [|r df Hr _ IH]; simpl; [reflexivity|].
  rewrite Hr. exact IH.
Qed.

(** The idiom of cell 34 for an arbitrary row selector [bad]. *)
Lemma drop_selected (bad : Z * A -> bool) (df : DataFrame A) :
  exists df',
    pd.drop (pd.index (pd.getitem_mask (map bad df) df)) df = Ok df'
    /\ sublist df' df
    /\ Forall (fun r => bad r = false) df'.
Proof.
  rewrite getitem_mask_map, drop_own_labels.
  eexists. split; [reflexivity|]. split.
  - apply filter_sublist.
  - apply List.Forall_forall. intros r Hr.
    eapply drop_own_labels_kept. exact Hr.
Qed.

Lemma drop_selected_again (bad : Z * A -> bool) (df : DataFrame A) :
  Forall (fun r => bad r = false) df ->
  pd.drop (pd.index (pd.getitem_mask (map bad df) df)) df = Ok df.
Proof.
  intros H. rewrite getitem_mask_map, drop_own_labels.
  rewrite (filter_none bad df H). simpl.
  rewrite filter_all_true; [reflexivity|].
  apply List.Forall_forall. reflexivity.
Qed.

End FilterIdempotent.

Lemma gtb_0_number (q : Q) :
  f64.gtb (Num q) (Num 0) = negb (Qle_bool q 0).
Proof.
  unfold f64.gtb, f64.ltb. destruct (0 ?= q)%Q eqn:E.
  - apply Qeq_alt in E.
    assert (Qle_bool q 0 = true) as -> by (apply Qle_bool_iff; lra).
    reflexivity.
  - apply Qlt_alt in E.
    assert (Qle_bool q 0 = false) as ->; [|reflexivity].
    apply not_true_is_false. intros H. apply Qle_bool_iff in H. lra.
  - apply Qgt_alt in E.
    assert (Qle_bool q 0 = true) as -> by (apply Qle_bool_iff; lra).
    reflexivity.
Qed.

(** A cell that [> 0] does not select is a number that is at most 0, or
    NaN. *)
Lemma gt0_false (x : float64) :
  f64.gtb x (Num 0) = false <->
  x = NaN \/ exists q, x = Num q /\ (q <= 0)%Q.
Proof.
  destruct x as [q|].
  - rewrite gtb_0_number, negb_false_iff, Qle_bool_iff. split.
    + intros H. right. exists q. auto.
    + intros [H|(q' & E & H)]; [discriminate H|]. injection E as ->. exact H.
  - split; [intros _; left; reflexivity | reflexivity].
Qed.

(** C2 as the code has it.  Cell 34 never raises and returns a frame
    whose rows are rows of the input in their original relative order (a
    sublist); no row kept has a score greater than 0, that is, each has a
    score that is at most 0 or has no score (NaN), since [Scores > 0] is
    False of a missing score.  The same holds of the idiom
    [df.drop(df[mask].index)] for the mask of any row predicate.  On the
    ten-row scenario the result is the first nine rows, those with scores
    -9 .. -1: only the row with score 1 is dropped. *)
Theorem filter_positive_sublist_not_positive :
  (forall (A : Type) (col : A -> float64) (D : DataFrame A),
      exists D',
        Notebook.filter_positive col D = Ok D'
        /\ sublist D' D
        /\ Forall (fun r => col (snd r) = NaN
                            \/ exists q, col (snd r) = Num q /\ (q <= 0)%Q) D')
  /\ (forall (A : Type) (P : Z * A -> bool) (D : DataFrame A),
      exists D',
        pd.drop (pd.index (pd.getitem_mask (map (fun r => negb (P r)) D) D)) D
        = Ok D'
        /\ sublist D' D
        /\ Forall (fun r => P r = true) D')
  /\ Notebook.filter_positive Scores Notebook.scenario_db
     = Ok (firstn 9 Notebook.scenario_db)
  /\ map (fun r => Scores (snd r)) (firstn 9 Notebook.scenario_db)
     = map Num [-9; -8; -7; -6; -5; -4; -3; -2; -1]%Q
  /\ map (fun r => Scores (snd r)) (skipn 9 Notebook.scenario_db) = [Num 1].
Proof.
  split; [|split; [|split; [|split]]].
  - intros A col D. unfold Notebook.filter_positive, pd.gt0.
    destruct (drop_selected (fun r => f64.gtb (col (snd r)) (Num 0)) D)
      as (D' & E & Hs & Hf).
    exists D'. split; [exact E|]. split; [exact Hs|].
    eapply List.Forall_impl; [|exact Hf].
    intros r Hr. apply gt0_false. exact Hr.
  - intros A P D.
    destruct (drop_selected (fun r => negb (P r)) D) as (D' & E & Hs & Hf).
    exists D'. split; [exact E|]. split; [exact Hs|].
    eapply List.Forall_impl; [|exact Hf].
    intros r Hr. apply negb_false_iff. exact Hr.
  - vm_compute. reflexivity.
  - vm_compute. reflexivity.
  - vm_compute. reflexivity.
Qed.

(** C2 as stated fails on a table with a missing score: the row without
    a score is kept, and its score is not at most 0. *)
Lemma filter_keeps_missing_score :
  Notebook.filter_positive Scores Notebook.missing_db
  = Ok [(0, mkCompound [1%Q; 0%Q] NaN []);
        (2, mkCompound [1%Q; 1%Q] (Num (-1)) [])]
  /\ f64.leb (Scores (mkCompound [1%Q; 0%Q] NaN [])) (Num 0) = false.
Proof. split; vm_compute; reflexivity. Qed.

(** C5.  Filtering twice is filtering once, and cell 34 is pure on the
    objects of the kernel: every object that existed before the cell,
    the source frame among them, is unchanged after it; the name
    [database] is rebound to an object that did not exist before. *)
Theorem filter_idempotent_and_pure :
  (forall (A : Type) (col : A -> float64) (D : DataFrame A),
      bind (Notebook.filter_positive col D) (Notebook.filter_positive col)
      = Notebook.filter_positive col D)
  /\ (forall (A : Type) (P : Z * A -> bool) (D D' : DataFrame A),
      pd.drop (pd.index (pd.getitem_mask (map P D) D)) D = Ok D' ->
      pd.drop (pd.index (pd.getitem_mask (map P D') D')) D' = Ok D')
  /\ (forall k k' : Notebook.Kernel,
      Notebook.cell_34 k = Ok k' ->
      (forall l o, Notebook.heap k !! l = Some o ->
                   Notebook.heap k' !! l = Some o)
      /\ exists l', Notebook.globals k' !! "database"%string = Some l'
                    /\ Notebook.heap k !! l' = None).
Proof.
  assert (Hidem : forall (A : Type) (P : Z * A -> bool) (D D' : DataFrame A),
      pd.drop (pd.index (pd.getitem_mask (map P D) D)) D = Ok D' ->
      pd.drop (pd.index (pd.getitem_mask (map P D') D')) D' = Ok D').
  { intros A P D D' E.
    destruct (drop_selected P D) as (D1 & E1 & _ & Hf).
    rewrite E in E1. injection E1 as <-.
    apply drop_selected_again. exact Hf. }
  split; [|split].
  - intros A col D. unfold Notebook.filter_positive, pd.gt0.
    destruct (pd.drop _ D) as [D'|e] eqn:E; simpl; [|reflexivity].
    apply (Hidem _ _ _ _ E).
  - exact Hidem.
  - intros k k' Hk.
    assert (Hnew : forall x o,
               (forall l o', Notebook.heap k !! l = Some o' ->
                             Notebook.heap (Notebook.store_new x o k) !! l = Some o')
               /\ Notebook.heap k !! fresh (dom (Notebook.heap k)) = None).
    { intros x o.
      assert (Notebook.heap k !! fresh (dom (Notebook.heap k)) = None) as Hfr.
      { apply not_elem_of_dom. apply is_fresh. }
      split; [|exact Hfr].
      intros l o' Hl. simpl. rewrite lookup_insert_ne; [exact Hl|].
      intros E. rewrite <- E in Hl. congruence. }
    unfold Notebook.cell_34 in Hk.
    destruct (Notebook.load_name "database" k) as [[l0 o0]|e]; simpl in Hk;
      [|discriminate].
    destruct o0 as [df|df|xs]; simpl in Hk; [| |discriminate].
    + destruct (Notebook.filter_positive Scores df) as [df'|e]; simpl in Hk;
        [|discriminate].
      injection Hk as <-. destruct (Hnew "database"%string (Notebook.Frame df')) as [H1 H2].
      split; [exact H1|].
      exists (fresh (dom (Notebook.heap k))). split; [|exact H2].
      simpl. apply lookup_insert_eq.
    + destruct (Notebook.filter_positive _ df) as [df'|e]; simpl in Hk;
        [|discriminate].
      injection Hk as <-.
      destruct (Hnew "database"%string (Notebook.ScoredFrame df')) as [H1 H2].
      split; [exact H1|].
      exists (fresh (dom (Notebook.heap k))). split; [|exact H2].
      simpl. apply lookup_insert_eq.
Qed.

Lemma filter_idempotent_and_pure_witness :
  Notebook.cell_34 Notebook.scenario_kernel
  = Ok (Notebook.store_new "database"
          (Notebook.Frame (firstn 9 Notebook.scenario_db))
          Notebook.scenario_kernel)
  /\ Notebook.heap
       (Notebook.store_new "database"
          (Notebook.Frame (firstn 9 Notebook.scenario_db))
          Notebook.scenario_kernel) !! 1%positive
     = Some (Notebook.Frame Notebook.scenario_db).
Proof.
  assert (E : Notebook.cell_34 Notebook.scenario_kernel
              = Ok (Notebook.store_new "database"
                      (Notebook.Frame (firstn 9 Notebook.scenario_db))
                      Notebook.scenario_kernel)).
  { vm_compute. reflexivity. }
  split; [exact E|].
  destruct filter_idempotent_and_pure as (_ & _ & Hpure).
  apply (Hpure _ _ E). vm_compute. reflexivity.
Defined.

(** ** numpy's portable [argsort] (cell 71)

    The introsort of [np.aquicksort] returns on every array of keys, with
    the fuel its loops are given, and the index array it returns holds
    every position once and sorts the keys.  The proof follows the code:
    the insertion sort, the partition around the median of three, the
    heapsort, and the loop that drives them over the ranges it has
    pushed on its stack. *)

Lemma Qltb_true_iff (x y : Q) : np.Qltb x y = true <-> (x < y)%Q.
Proof.
  unfold np.Qltb. destruct (x ?= y)%Q eqn:E.
  - apply Qeq_alt in E. split; [discriminate|]. intros H. rewrite E in H.
    exfalso. apply (Qlt_irrefl _ H).
  - apply Qlt_alt in E. tauto.
  - apply Qgt_alt in E. split; [discriminate|]. intros H.
    exfalso. apply (Qlt_irrefl x). apply (Qlt_trans _ y); assumption.
Qed.

Lemma Qltb_false_iff (x y : Q) : np.Qltb x y = false <-> (y <= x)%Q.
Proof.
  split.
  - intros H. apply Qnot_lt_le. intros Hlt. apply Qltb_true_iff in Hlt.
    congruence.
  - intros H. apply not_true_is_false. intros Hlt. apply Qltb_true_iff in Hlt.
    apply (Qlt_not_le _ _ Hlt). exact H.
Qed.

Section Pointers.

Lemma length_wr (a : list nat) (p : Z) (x : nat) :
  length (np.wr a p x) = length a.
Proof. unfold np.wr. apply length_insert. Qed.

Lemma length_swap (a : list nat) (p q : Z) :
  length (np.swap a p q) = length a.
Proof. unfold np.swap. rewrite !length_wr. reflexivity. Qed.

Lemma rd_wr (a : list nat) (p q : Z) (x : nat) :
  0 <= p < Z.of_nat (length a) -> 0 <= q ->
  np.rd (np.wr a p x) q = if q =? p then x else np.rd a q.
Proof.
  intros Hp Hq. unfold np.rd, np.wr. rewrite !nth_lookup.
  destruct (Z.eqb_spec q p) as [->|Hne].
  - rewrite list_lookup_insert_eq by lia. reflexivity.
  - rewrite list_lookup_insert_ne by lia. reflexivity.
Qed.

Lemma rd_swap (a : list nat) (p q r : Z) :
  0 <= p < Z.of_nat (length a) -> 0 <= q < Z.of_nat (length a) -> 0 <= r ->
  np.rd (np.swap a p q) r
  = if r =? q then np.rd a p else if r =? p then np.rd a q else np.rd a r.
Proof.
  intros Hp Hq Hr. unfold np.swap.
  rewrite rd_wr by (rewrite ?length_wr; lia).
  destruct (r =? q); [reflexivity|]. apply rd_wr; lia.
Qed.

Lemma wr_rd (a : list nat) (p : Z) :
  0 <= p < Z.of_nat (length a) -> np.wr a p (np.rd a p) = a.
Proof.
  intros Hp. unfold np.wr, np.rd. apply list_insert_id.
  rewrite nth_lookup.
  destruct (lookup_lt_is_Some_2 a (Z.to_nat p)) as [x E]; [lia|].
  rewrite E. reflexivity.
Qed.

Lemma list_eq_rd (a b : list nat) :
  length a = length b ->
  (forall p, 0 <= p < Z.of_nat (length a) -> np.rd a p = np.rd b p) ->
  a = b.
Proof.
  intros Hlen H. apply (nth_ext a b 0%nat 0%nat Hlen). intros n Hn.
  specialize (H (Z.of_nat n)). unfold np.rd in H. rewrite Nat2Z.id in H.
  apply H. lia.
Qed.

(** A write into the hole that another write leaves is a swap. *)
Lemma wr_hole_swap (a : list nat) (i j : Z) (tmp : nat) :
  0 <= i < Z.of_nat (length a) -> 0 <= j < Z.of_nat (length a) -> i <> j ->
  np.wr (np.wr a i (np.rd a j)) j tmp = np.swap (np.wr a i tmp) i j.
Proof.
  intros Hi Hj Hne. apply list_eq_rd.
  - rewrite length_swap, !length_wr. reflexivity.
  - rewrite !length_wr. intros p Hp.
    rewrite rd_swap by (rewrite ?length_wr; lia).
    rewrite !rd_wr by (rewrite ?length_wr; lia).
    destruct (Z.eqb_spec p j) as [->|Hpj].
    + rewrite Z.eqb_refl. reflexivity.
    + destruct (Z.eqb_spec p i) as [->|Hpi].
      * destruct (Z.eqb_spec j i); [lia | reflexivity].
      * reflexivity.
Qed.

Lemma insert_head_Permutation (x : nat) (a : list nat) (j : nat) :
  (j < length a)%nat ->
  Permutation (x :: a) (nth j a 0%nat :: <[j := x]> a).
Proof.
  revert j. induction a as [|y a IH]; intros j Hj; simpl in Hj; [lia|].
  destruct j as [|j]; simpl.
  - apply perm_swap.
  - eapply perm_trans; [apply perm_swap|].
    eapply perm_trans; [apply perm_skip, (IH j); lia|]. apply perm_swap.
Qed.

Lemma swap_nat_Permutation (a : list nat) (i j : nat) :
  (i < length a)%nat -> (j < length a)%nat ->
  Permutation a (<[j := nth i a 0%nat]> (<[i := nth j a 0%nat]> a)).
Proof.
  revert i j. induction a as [|x a IH]; intros i j Hi Hj; simpl in Hi, Hj; [lia|].
  destruct i as [|i], j as [|j]; simpl.
  - reflexivity.
  - apply (insert_head_Permutation x a j). lia.
  - apply (insert_head_Permutation x a i). lia.
  - apply perm_skip, IH; lia.
Qed.

Lemma swap_Permutation (a : list nat) (p q : Z) :
  0 <= p < Z.of_nat (length a) -> 0 <= q < Z.of_nat (length a) ->
  Permutation a (np.swap a p q).
Proof.
  intros Hp Hq. unfold np.swap, np.wr, np.rd.
  apply swap_nat_Permutation; lia.
Qed.

End Pointers.

Section Introsort.
Variable v : list Q.
Local Abbreviation kat a p := (np.key v (np.rd a p)).

Lemma stays_refl (a : list nat) (l r : Z) : np.stays a a l r.
Proof.
  split; [reflexivity|]. split; [reflexivity|]. split; [reflexivity|].
  intros p Hp. exists p. split; [exact Hp | reflexivity].
Qed.

Lemma stays_trans (a b c : list nat) (l r : Z) :
  0 <= l -> np.stays a b l r -> np.stays b c l r -> np.stays a c l r.
Proof.
  intros Hl (L1 & P1 & F1 & R1) (L2 & P2 & F2 & R2).
  split; [congruence|]. split; [eapply perm_trans; eassumption|]. split.
  - intros p Hp Hout. rewrite F2, F1; auto.
  - intros p Hp. destruct (R2 p Hp) as (p' & Hp' & E').
    destruct (R1 p' Hp') as (p'' & Hp'' & E'').
    exists p''. split; [exact Hp'' | congruence].
Qed.

Lemma stays_widen (a b : list nat) (l r l' r' : Z) :
  0 <= l' -> l' <= l -> r <= r' -> np.stays a b l r -> np.stays a b l' r'.
Proof.
  intros H0 Hl Hr (L & P & F & R).
  split; [exact L|]. split; [exact P|]. split.
  - intros p Hp Hout. apply F; [exact Hp | lia].
  - intros p Hp.
    destruct (Z_lt_le_dec p l) as [H1|H1];
      [exists p; split; [lia | apply F; lia]|].
    destruct (Z_lt_le_dec r p) as [H2|H2];
      [exists p; split; [lia | apply F; lia]|].
    destruct (R p) as (p' & Hp' & E); [lia|]. exists p'. split; [lia | exact E].
Qed.

Lemma stays_swap (a : list nat) (p q l r : Z) :
  0 <= l -> r < Z.of_nat (length a) -> l <= p <= r -> l <= q <= r ->
  np.stays a (np.swap a p q) l r.
Proof.
  intros Hl Hr Hp Hq.
  split; [apply length_swap|]. split; [apply swap_Permutation; lia|]. split.
  - intros x Hx Hout. rewrite rd_swap by lia.
    destruct (Z.eqb_spec x q); [lia|]. destruct (Z.eqb_spec x p); [lia|].
    reflexivity.
  - intros x Hx. rewrite rd_swap by lia.
    destruct (Z.eqb_spec x q); [exists p; split; [lia | reflexivity]|].
    destruct (Z.eqb_spec x p); [exists q; split; [lia | reflexivity]|].
    exists x. split; [lia | reflexivity].
Qed.

(** *** The insertion sort *)

(** The inner loop moves the hole at [pj] down until [vi] fits; with
    [vi] written into the hole, the array is a rearrangement of the one
    it started from all along. *)
Lemma shift_back_ok (pl pi : Z) (vi : nat) (fuel : nat) :
  forall (a : list nat) (pj : Z),
    0 <= pl -> pl <= pj -> pj <= pi -> pi < Z.of_nat (length a) ->
    pj - pl < Z.of_nat fuel ->
    (forall p q, pl <= p -> p <= q -> q <= pi -> p <> pj -> q <> pj ->
                 (kat (np.wr a pj vi) p <= kat (np.wr a pj vi) q)%Q) ->
    (forall q, pj < q -> q <= pi ->
               (np.key v vi < kat (np.wr a pj vi) q)%Q) ->
    exists a',
      np.shift_back v fuel a pl vi pj = Some a'
      /\ np.stays (np.wr a pj vi) a' pl pi /\ np.ord v a' pl pi.
Proof.
  induction fuel as [|fuel IH]; intros a pj H0 Hlj Hji Hlen Hfuel Hsort Hgt;
    [lia|].
  cbn [np.shift_back].
  set (b := np.wr a pj vi) in *.
  assert (length b = length a) as Lb by apply length_wr.
  assert (np.rd b pj = vi) as Ebj.
  { unfold b. rewrite rd_wr by lia. rewrite Z.eqb_refl. reflexivity. }
  destruct ((pj >? pl) && np.Qltb (np.key v vi) (kat a (pj - 1))) eqn:Ec.
  - apply andb_true_iff in Ec. destruct Ec as [Hgtl Hlt].
    apply Z.gtb_lt in Hgtl. apply Qltb_true_iff in Hlt.
    assert (np.rd b (pj - 1) = np.rd a (pj - 1)) as Eb1.
    { unfold b. rewrite rd_wr by lia.
      destruct (Z.eqb_spec (pj - 1) pj); [lia | reflexivity]. }
    assert (np.wr (np.wr a pj (np.rd a (pj - 1))) (pj - 1) vi
            = np.swap b pj (pj - 1)) as Eswap
      by (apply wr_hole_swap; lia).
    destruct (IH (np.wr a pj (np.rd a (pj - 1))) (pj - 1)) as (a' & Ea & Hst & Ho).
    + exact H0.
    + lia.
    + lia.
    + rewrite length_wr. exact Hlen.
    + lia.
    + rewrite Eswap. intros p q Hp Hpq Hq Hp1 Hq1.
      rewrite !rd_swap by lia.
      destruct (Z.eqb_spec p (pj - 1)); [lia|].
      destruct (Z.eqb_spec q (pj - 1)); [lia|].
      destruct (Z.eqb_spec p pj) as [->|Hpj].
      * destruct (Z.eqb_spec q pj) as [->|Hqj]; [apply Qle_refl|].
        apply Hsort; lia.
      * destruct (Z.eqb_spec q pj) as [->|Hqj]; apply Hsort; lia.
    + rewrite Eswap. intros q Hq1 Hq2. rewrite rd_swap by lia.
      destruct (Z.eqb_spec q (pj - 1)); [lia|].
      destruct (Z.eqb_spec q pj) as [->|Hqj].
      * rewrite Eb1. exact Hlt.
      * apply Hgt; lia.
    + exists a'. split; [exact Ea|]. split; [|exact Ho].
      apply (stays_trans b (np.swap b pj (pj - 1)) a'); [exact H0 | |].
      * apply stays_swap; lia.
      * rewrite <- Eswap. exact Hst.
  - exists b. split; [reflexivity|]. split; [apply stays_refl|].
    intros p q Hp Hpq Hq.
    destruct (Z.eq_dec p pj) as [->|Hpj].
    + destruct (Z.eq_dec q pj) as [->|Hqj]; [apply Qle_refl|].
      rewrite Ebj. apply Qlt_le_weak. apply Hgt; lia.
    + destruct (Z.eq_dec q pj) as [->|Hqj]; [|apply Hsort; lia].
      rewrite Ebj.
      apply andb_false_iff in Ec. destruct Ec as [Ec|Ec].
      * assert (~ pl < pj) by (intros H; apply Z.gtb_lt in H; congruence). lia.
      * apply Qltb_false_iff in Ec.
        apply (Qle_trans _ (kat b (pj - 1))).
        -- destruct (Z.eq_dec p (pj - 1)) as [->|Hp1]; [apply Qle_refl|].
           apply Hsort; lia.
        -- unfold b. rewrite rd_wr by lia.
           destruct (Z.eqb_spec (pj - 1) pj); [lia | exact Ec].
Qed.

(** The insertion sort returns, and sorts the range. *)
Lemma insertion_ok (pl pr : Z) (fuel : nat) :
  forall (a : list nat) (pi : Z),
    0 <= pl -> pl < pi -> pi <= pr + 1 -> pr < Z.of_nat (length a) ->
    pr - pi + 1 < Z.of_nat fuel ->
    np.ord v a pl (pi - 1) ->
    exists a',
      np.insertion v fuel a pl pr pi = Some a'
      /\ np.stays a a' pl pr /\ np.ord v a' pl pr.
Proof.
  induction fuel as [|fuel IH]; intros a pi H0 Hli Hir Hlen Hfuel Ho; [lia|].
  cbn [np.insertion].
  destruct (pi <=? pr) eqn:Ec.
  - apply Z.leb_le in Ec.
    destruct (shift_back_ok pl pi (np.rd a pi) (S (length a)) a pi)
      as (a1 & E1 & Hst & Ho1); try lia.
    + rewrite wr_rd by lia. intros p q Hp Hpq Hq Hp1 Hq1. apply Ho; lia.
    + rewrite E1. rewrite wr_rd in Hst by lia.
      destruct Hst as (L1 & Hst').
      destruct (IH a1 (pi + 1)) as (a' & Ea & Hst2 & Ho2); try lia.
      * replace (pi + 1 - 1) with pi by lia. exact Ho1.
      * exists a'. split; [exact Ea|]. split; [|exact Ho2].
        apply (stays_trans a a1 a'); [exact H0 | | exact Hst2].
        apply (stays_widen a a1 pl pi pl pr); try lia.
        split; assumption.
  - apply Z.leb_gt in Ec. exists a. split; [reflexivity|].
    split; [apply stays_refl|].
    intros p q Hp Hpq Hq. apply Ho; lia.
Qed.

(** *** The partition *)

(** The scans stop at a sentinel at the latest: an entry that is not
    below the pivot on the way up, one that is not above it on the way
    down. *)
Lemma scan_up_ok (a : list nat) (vp : Q) (ps : Z) (fuel : nat) :
  forall pi : Z,
    pi < ps -> (vp <= kat a ps)%Q -> ps - pi <= Z.of_nat fuel ->
    exists pi',
      np.scan_up v fuel a vp pi = Some pi'
      /\ pi < pi' /\ pi' <= ps /\ (vp <= kat a pi')%Q
      /\ forall p, pi < p -> p < pi' -> (kat a p < vp)%Q.
Proof.
  induction fuel as [|fuel IH]; intros pi Hlt Hs Hfuel; [lia|].
  cbn [np.scan_up].
  destruct (np.Qltb (kat a (pi + 1)) vp) eqn:Ec.
  - apply Qltb_true_iff in Ec.
    assert (pi + 1 <> ps) as Hne.
    { intros E. rewrite E in Ec. apply (Qlt_not_le _ _ Ec). exact Hs. }
    destruct (IH (pi + 1)) as (pi' & E & H1 & H2 & H3 & H4); try lia.
    + exact Hs.
    + exists pi'. split; [exact E|]. split; [lia|]. split; [exact H2|].
      split; [exact H3|]. intros p Hp1 Hp2.
      destruct (Z.eq_dec p (pi + 1)) as [->|Hp]; [exact Ec | apply H4; lia].
  - apply Qltb_false_iff in Ec. exists (pi + 1). split; [reflexivity|].
    split; [lia|]. split; [lia|]. split; [exact Ec|]. intros p Hp1 Hp2. lia.
Qed.

Lemma scan_down_ok (a : list nat) (vp : Q) (ps : Z) (fuel : nat) :
  forall pj : Z,
    ps < pj -> (kat a ps <= vp)%Q -> pj - ps <= Z.of_nat fuel ->
    exists pj',
      np.scan_down v fuel a vp pj = Some pj'
      /\ pj' < pj /\ ps <= pj' /\ (kat a pj' <= vp)%Q
      /\ forall p, pj' < p -> p < pj -> (vp < kat a p)%Q.
Proof.
  induction fuel as [|fuel IH]; intros pj Hlt Hs Hfuel; [lia|].
  cbn [np.scan_down].
  destruct (np.Qltb vp (kat a (pj - 1))) eqn:Ec.
  - apply Qltb_true_iff in Ec.
    assert (pj - 1 <> ps) as Hne.
    { intros E. rewrite E in Ec. apply (Qlt_not_le _ _ Ec). exact Hs. }
    destruct (IH (pj - 1)) as (pj' & E & H1 & H2 & H3 & H4); try lia.
    + exact Hs.
    + exists pj'. split; [exact E|]. split; [lia|]. split; [exact H2|].
      split; [exact H3|]. intros p Hp1 Hp2.
      destruct (Z.eq_dec p (pj - 1)) as [->|Hp]; [exact Ec | apply H4; lia].
  - apply Qltb_false_iff in Ec. exists (pj - 1). split; [reflexivity|].
    split; [lia|]. split; [lia|]. split; [exact Ec|]. intros p Hp1 Hp2. lia.
Qed.

(** The loop keeps the entries up to [pi] at or below the pivot and the
    entries from [pj] on at or above it, and never touches [pr - 1],
    where the pivot waits. *)
Lemma partition_loop_ok (pl pr : Z) (vp : Q) (fuel : nat) :
  forall (a : list nat) (pi pj : Z),
    0 <= pl -> pl <= pi -> pi < pj -> pj <= pr - 1 ->
    pr < Z.of_nat (length a) ->
    pj - pi <= Z.of_nat fuel ->
    (forall p, pl <= p -> p <= pi -> (kat a p <= vp)%Q) ->
    (forall p, pj <= p -> p <= pr -> (vp <= kat a p)%Q) ->
    exists a' pi',
      np.partition_loop v fuel a vp pi pj = Some (a', pi')
      /\ np.stays a a' (pi + 1) (pj - 1)
      /\ pi < pi' /\ pi' <= pj
      /\ (forall p, pl <= p -> p < pi' -> (kat a' p <= vp)%Q)
      /\ (forall p, pi' <= p -> p <= pr -> (vp <= kat a' p)%Q).
Proof.
  induction fuel as [|fuel IH];
    intros a pi pj H0 Hli Hij Hjr Hlen Hfuel Hlow Hhigh; [lia|].
  cbn [np.partition_loop].
  destruct (scan_up_ok a vp pj (S (length a)) pi)
    as (pi' & Eu & U1 & U2 & U3 & U4); [lia | apply Hhigh; lia | lia |].
  rewrite Eu.
  destruct (scan_down_ok a vp pi (S (length a)) pj)
    as (pj' & Ed & D1 & D2 & D3 & D4); [lia | apply Hlow; lia | lia |].
  rewrite Ed.
  destruct (pi' >=? pj') eqn:Ec.
  - apply Z.geb_le in Ec. exists a, pi'. split; [reflexivity|].
    split; [apply stays_refl|]. split; [lia|]. split; [lia|]. split.
    + intros p Hp1 Hp2. destruct (Z_le_gt_dec p pi) as [H|H].
      * apply Hlow; lia.
      * apply Qlt_le_weak. apply U4; lia.
    + intros p Hp1 Hp2. destruct (Z.eq_dec p pi') as [->|Hne]; [exact U3|].
      destruct (Z_lt_le_dec p pj) as [H|H].
      * apply Qlt_le_weak. apply D4; lia.
      * apply Hhigh; lia.
  - assert (pi' < pj') as Hlt.
    { destruct (Z_lt_le_dec pi' pj') as [H|H]; [exact H|].
      apply Z.geb_le in H. congruence. }
    destruct (IH (np.swap a pi' pj') pi' pj')
      as (a' & pi'' & E & Hst & I1 & I2 & I3 & I4); try lia.
    + rewrite length_swap. exact Hlen.
    + intros p Hp1 Hp2. rewrite rd_swap by lia.
      destruct (Z.eqb_spec p pj'); [lia|].
      destruct (Z.eqb_spec p pi') as [->|Hne]; [exact D3|].
      destruct (Z_le_gt_dec p pi) as [H|H].
      * apply Hlow; lia.
      * apply Qlt_le_weak. apply U4; lia.
    + intros p Hp1 Hp2. rewrite rd_swap by lia.
      destruct (Z.eqb_spec p pj') as [->|Hne]; [exact U3|].
      destruct (Z.eqb_spec p pi'); [lia|].
      destruct (Z_lt_le_dec p pj) as [H|H].
      * apply Qlt_le_weak. apply D4; lia.
      * apply Hhigh; lia.
    + exists a', pi''. split; [exact E|]. split.
      * apply (stays_trans a (np.swap a pi' pj') a'); [lia | |].
        -- apply stays_swap; lia.
        -- apply (stays_widen _ _ (pi' + 1) (pj' - 1)); [lia | lia | lia |].
           exact Hst.
      * split; [lia|]. split; [lia|]. split; assumption.
Qed.

(** A conditional swap of the entries at [p] and [q]. *)
Lemma cswap_cases (a : list nat) (p q : Z) :
  let a' := if np.Qltb (kat a p) (kat a q) then np.swap a p q else a in
  (a' = a /\ (kat a q <= kat a p)%Q)
  \/ (a' = np.swap a p q /\ (kat a p < kat a q)%Q).
Proof.
  cbv zeta. destruct (np.Qltb (kat a p) (kat a q)) eqn:E.
  - right. split; [reflexivity|]. apply Qltb_true_iff. exact E.
  - left. split; [reflexivity|]. apply Qltb_false_iff. exact E.
Qed.

Lemma cswap_stays (a : list nat) (p q l r : Z) :
  0 <= l -> r < Z.of_nat (length a) -> l <= p <= r -> l <= q <= r ->
  np.stays a (if np.Qltb (kat a p) (kat a q) then np.swap a p q else a) l r.
Proof.
  intros. destruct (np.Qltb _ _); [apply stays_swap; lia | apply stays_refl].
Qed.

(** The three conditional swaps put the median of the entries at [pl],
    [pm] and [pr] at [pm]. *)
Lemma median_of_three (a : list nat) (pl pm pr : Z) :
  0 <= pl -> pl < pm -> pm < pr -> pr < Z.of_nat (length a) ->
  let a1 := if np.Qltb (kat a pm) (kat a pl) then np.swap a pm pl else a in
  let a2 := if np.Qltb (kat a1 pr) (kat a1 pm) then np.swap a1 pr pm else a1 in
  let a3 := if np.Qltb (kat a2 pm) (kat a2 pl) then np.swap a2 pm pl else a2 in
  np.stays a a3 pl pr
  /\ (kat a3 pl <= kat a3 pm)%Q /\ (kat a3 pm <= kat a3 pr)%Q.
Proof.
  intros H0 Hlm Hmr Hlen a1 a2 a3.
  assert (np.stays a a1 pl pr) as S1 by (apply cswap_stays; lia).
  assert (length a1 = length a) as L1 by apply S1.
  assert (np.stays a1 a2 pl pr) as S2 by (apply cswap_stays; lia).
  assert (length a2 = length a) as L2 by (destruct S2 as [L _]; lia).
  assert (np.stays a2 a3 pl pr) as S3 by (apply cswap_stays; lia).
  split.
  { apply (stays_trans a a1 a3); [lia | exact S1|].
    apply (stays_trans a1 a2 a3); [lia | exact S2 | exact S3]. }
  assert ((pm =? pl) = false) as E1 by (apply Z.eqb_neq; lia).
  assert ((pl =? pm) = false) as E2 by (apply Z.eqb_neq; lia).
  assert ((pr =? pm) = false) as E3 by (apply Z.eqb_neq; lia).
  assert ((pm =? pr) = false) as E4 by (apply Z.eqb_neq; lia).
  assert ((pr =? pl) = false) as E5 by (apply Z.eqb_neq; lia).
  assert ((pl =? pr) = false) as E6 by (apply Z.eqb_neq; lia).
  destruct (cswap_cases a2 pm pl) as [[Ea3 H3]|[Ea3 H3]]; fold a3 in Ea3;
    rewrite Ea3;
    destruct (cswap_cases a1 pr pm) as [[Ea2 H2]|[Ea2 H2]]; fold a2 in Ea2;
    rewrite Ea2 in *;
    destruct (cswap_cases a pm pl) as [[Ea1 H1]|[Ea1 H1]]; fold a1 in Ea1;
    rewrite Ea1 in *;
    repeat (rewrite rd_swap in * by (rewrite ?length_swap; lia));
    rewrite ?Z.eqb_refl, ?E1, ?E2, ?E3, ?E4, ?E5, ?E6 in *;
    split; lra.
Qed.

(** The partition of a range of more than [SMALL_QUICKSORT] entries
    returns, with the pivot strictly inside the range, nothing larger
    before it and nothing smaller after it. *)
Lemma partition_ok (a : list nat) (pl pr : Z) :
  0 <= pl -> pr < Z.of_nat (length a) -> np.SMALL_QUICKSORT < pr - pl ->
  exists a' pi,
    np.partition v a pl pr = Some (a', pi)
    /\ np.stays a a' pl pr
    /\ pl < pi /\ pi < pr
    /\ (forall p, pl <= p -> p <= pi -> (kat a' p <= kat a' pi)%Q)
    /\ (forall p, pi <= p -> p <= pr -> (kat a' pi <= kat a' p)%Q).
Proof.
  intros H0 Hlen Hbig. unfold np.SMALL_QUICKSORT in Hbig.
  unfold np.partition. cbv zeta.
  set (pm := pl + Z.shiftr (pr - pl) 1).
  assert (pl + 8 <= pm /\ pm <= pr - 9) as Hpm.
  { unfold pm. rewrite Z.shiftr_div_pow2 by lia. change (2 ^ 1) with 2.
    Z.div_mod_to_equations. lia. }
  set (a1 := if np.Qltb (kat a pm) (kat a pl) then np.swap a pm pl else a).
  set (a2 := if np.Qltb (kat a1 pr) (kat a1 pm) then np.swap a1 pr pm else a1).
  set (a3 := if np.Qltb (kat a2 pm) (kat a2 pl) then np.swap a2 pm pl else a2).
  destruct (median_of_three a pl pm pr) as (S3 & M1 & M2); try lia.
  fold a1 a2 a3 in S3, M1, M2.
  assert (length a3 = length a) as L3 by apply S3.
  set (vp := kat a3 pm) in *.
  set (a4 := np.swap a3 pm (pr - 1)).
  assert (length a4 = length a) as L4 by (unfold a4; rewrite length_swap; exact L3).
  assert (kat a4 (pr - 1) = vp) as Epiv.
  { unfold a4. rewrite rd_swap by lia. rewrite Z.eqb_refl. reflexivity. }
  destruct (partition_loop_ok pl pr vp (S (length a4)) a4 pl (pr - 1))
    as (a5 & pi & E & S5 & I1 & I2 & I3 & I4); try lia.
  { intros p Hp1 Hp2. assert (p = pl) as -> by lia.
    unfold a4. rewrite rd_swap by lia.
    destruct (Z.eqb_spec pl (pr - 1)); [lia|].
    destruct (Z.eqb_spec pl pm); [lia|]. exact M1. }
  { intros p Hp1 Hp2. unfold a4. rewrite rd_swap by lia.
    destruct (Z.eqb_spec p (pr - 1)); [apply Qle_refl|].
    destruct (Z.eqb_spec p pm); [lia|].
    assert (p = pr) as -> by lia. exact M2. }
  rewrite E.
  assert (length a5 = length a) as L5 by (destruct S5 as [L _]; lia).
  assert (kat a5 (pr - 1) = vp) as Epiv5.
  { destruct S5 as (_ & _ & F & _). rewrite F by lia. exact Epiv. }
  exists (np.swap a5 pi (pr - 1)), pi. split; [reflexivity|]. split.
  { apply (stays_trans a a3); [lia | exact S3|].
    apply (stays_trans a3 a4); [lia | apply stays_swap; lia|].
    apply (stays_trans a4 a5); [lia|
      apply (stays_widen _ _ (pl + 1) (pr - 1 - 1)); [lia | lia | lia | exact S5]|].
    apply stays_swap; lia. }
  split; [lia|]. split; [lia|].
  assert (kat (np.swap a5 pi (pr - 1)) pi = vp) as Epi.
  { rewrite rd_swap by lia.
    destruct (Z.eqb_spec pi (pr - 1)) as [->|Hne]; [exact Epiv5|].
    rewrite Z.eqb_refl. exact Epiv5. }
  rewrite Epi. split.
  - intros p Hp1 Hp2. rewrite rd_swap by lia.
    destruct (Z.eqb_spec p (pr - 1)) as [->|Hne].
    + assert (pi = pr - 1) as -> by lia. rewrite Epiv5. apply Qle_refl.
    + destruct (Z.eqb_spec p pi) as [->|Hne']; [rewrite Epiv5; apply Qle_refl|].
      apply I3; lia.
  - intros p Hp1 Hp2. rewrite rd_swap by lia.
    destruct (Z.eqb_spec p (pr - 1)) as [->|Hne]; [apply I4; lia|].
    destruct (Z.eqb_spec p pi) as [->|Hne']; [rewrite Epiv5; apply Qle_refl|].
    apply I4; lia.
Qed.

(** *** The heapsort *)

(** Sifting [tmp] down from [i]: with [tmp] written into the hole at
    [i], every parent from [l] on other than [i] dominates its children,
    and the parent of [i] dominates the children of [i]; the loop ends
    with a heap from [l] on. *)
Lemma sift_ok (b n l : Z) (tmp : nat) (fuel : nat) :
  forall (a : list nat) (i j : Z),
    0 <= b + 1 -> b + n < Z.of_nat (length a) ->
    1 <= l -> l <= i -> i <= n -> j = 2 * i ->
    1 <= Z.of_nat fuel -> n + 2 - j <= Z.of_nat fuel ->
    (forall p k, l <= p -> p <> i -> k = 2 * p \/ k = 2 * p + 1 -> k <= n ->
                 (kat (np.wr a (b + i) tmp) (b + k)
                  <= kat (np.wr a (b + i) tmp) (b + p))%Q) ->
    (forall p k, l <= p -> i = 2 * p \/ i = 2 * p + 1 ->
                 k = 2 * i \/ k = 2 * i + 1 -> k <= n ->
                 (kat (np.wr a (b + i) tmp) (b + k)
                  <= kat (np.wr a (b + i) tmp) (b + p))%Q) ->
    exists a',
      np.sift v fuel a b n tmp i j = Some a'
      /\ np.stays (np.wr a (b + i) tmp) a' (b + 1) (b + n)
      /\ np.heap_from v b n l a'.
Proof.
  induction fuel as [|fuel IH];
    intros a i j Hb Hlen Hl Hli Hin Hj Hf1 Hfuel H1 H2; [lia|].
  subst j. cbn [np.sift].
  set (c := np.wr a (b + i) tmp) in *.
  assert (length c = length a) as Lc by apply length_wr.
  assert (np.rd c (b + i) = tmp) as Eci.
  { unfold c. rewrite rd_wr by lia. rewrite Z.eqb_refl. reflexivity. }
  assert (forall k, 1 <= k -> k <> i -> np.rd a (b + k) = np.rd c (b + k)) as Eck.
  { intros k Hk Hne. unfold c. rewrite rd_wr by lia.
    destruct (Z.eqb_spec (b + k) (b + i)); [lia | reflexivity]. }
  destruct (2 * i <=? n) eqn:Ejn.
  - apply Z.leb_le in Ejn.
    replace (b + 2 * i + 1) with (b + (2 * i + 1)) by lia.
    rewrite (Eck (2 * i)), (Eck (2 * i + 1)) by lia.
    set (jm := if (2 * i <? n)
                  && np.Qltb (kat c (b + 2 * i)) (kat c (b + (2 * i + 1)))
               then 2 * i + 1 else 2 * i).
    assert ((jm = 2 * i \/ jm = 2 * i + 1) /\ jm <= n
            /\ forall k, k = 2 * i \/ k = 2 * i + 1 -> k <= n ->
                         (kat c (b + k) <= kat c (b + jm))%Q) as (Hjm & Hjn & Hmax).
    { unfold jm.
      destruct ((2 * i <? n)
                && np.Qltb (kat c (b + 2 * i)) (kat c (b + (2 * i + 1)))) eqn:Ec.
      - apply andb_true_iff in Ec. destruct Ec as [Ec1 Ec2].
        apply Z.ltb_lt in Ec1. apply Qltb_true_iff in Ec2.
        split; [right; reflexivity|]. split; [lia|].
        intros k [->| ->] Hk; [apply Qlt_le_weak; exact Ec2 | apply Qle_refl].
      - split; [left; reflexivity|]. split; [lia|].
        intros k [->| ->] Hk; [apply Qle_refl|].
        apply andb_false_iff in Ec. destruct Ec as [Ec|Ec].
        + apply Z.ltb_ge in Ec. lia.
        + apply Qltb_false_iff in Ec. exact Ec. }
    clearbody jm. cbv zeta.
    rewrite (Eck jm) by lia.
    destruct (np.Qltb (np.key v tmp) (kat c (b + jm))) eqn:Ec.
    + apply Qltb_true_iff in Ec.
      assert (np.wr (np.wr a (b + i) (np.rd c (b + jm))) (b + jm) tmp
              = np.swap c (b + i) (b + jm)) as Eswap.
      { rewrite <- (Eck jm) by lia. apply wr_hole_swap; lia. }
      assert (forall k, 1 <= k -> k <= n ->
                np.rd (np.swap c (b + i) (b + jm)) (b + k)
                = if k =? jm then tmp
                  else if k =? i then np.rd c (b + jm) else np.rd c (b + k))
        as Esw.
      { intros k Hk1 Hk2. rewrite rd_swap by lia. rewrite Eci.
        destruct (Z.eqb_spec (b + k) (b + jm)), (Z.eqb_spec k jm); try lia;
          try reflexivity.
        destruct (Z.eqb_spec (b + k) (b + i)), (Z.eqb_spec k i); try lia;
          reflexivity. }
      destruct (IH (np.wr a (b + i) (np.rd c (b + jm))) jm (jm + jm))
        as (a' & Ea & Hst & Hh); try lia.
      * rewrite length_wr. exact Hlen.
      * rewrite Eswap. intros p k Hp Hpi Hk Hkn.
        rewrite !Esw by lia.
        destruct (Z.eqb_spec k jm) as [->|Hkj].
        -- assert (p = i) as -> by lia.
           destruct (Z.eqb_spec i jm); [lia|]. rewrite Z.eqb_refl.
           apply Qlt_le_weak. exact Ec.
        -- destruct (Z.eqb_spec p jm); [lia|].
           destruct (Z.eqb_spec k i) as [->|Hki].
           ++ destruct (Z.eqb_spec p i); [lia|].
              apply (H2 p jm); lia.
           ++ destruct (Z.eqb_spec p i) as [->|Hpi'].
              ** apply Hmax; lia.
              ** apply H1; lia.
      * rewrite Eswap. intros p k Hp Hpj Hk Hkn.
        rewrite !Esw by lia.
        destruct (Z.eqb_spec k jm); [lia|].
        destruct (Z.eqb_spec k i); [lia|].
        destruct (Z.eqb_spec p jm); [lia|].
        assert (p = i) as -> by lia. rewrite Z.eqb_refl.
        apply (H1 jm k); lia.
      * exists a'. split; [exact Ea|]. split; [|exact Hh].
        apply (stays_trans c (np.swap c (b + i) (b + jm)) a'); [lia | |].
        -- apply stays_swap; lia.
        -- rewrite <- Eswap. exact Hst.
    + apply Qltb_false_iff in Ec.
      exists c. split; [reflexivity|]. split; [apply stays_refl|].
      intros p k Hp Hk Hkn.
      destruct (Z.eq_dec p i) as [->|Hpi]; [|apply H1; lia].
      rewrite Eci. apply (Qle_trans _ (kat c (b + jm))); [|exact Ec].
      apply Hmax; lia.
  - apply Z.leb_gt in Ejn.
    exists c. split; [reflexivity|]. split; [apply stays_refl|].
    intros p k Hp Hk Hkn. apply H1; lia.
Qed.

(** The first phase builds the heap, from the last parent down to the
    root. *)
Lemma heapify_ok (b n : Z) (fuel : nat) :
  forall (a : list nat) (l : Z),
    0 <= b + 1 -> b + n < Z.of_nat (length a) ->
    0 <= l -> l <= n -> l < Z.of_nat fuel ->
    np.heap_from v b n (l + 1) a ->
    exists a',
      np.heapify v fuel a b n l = Some a'
      /\ np.stays a a' (b + 1) (b + n) /\ np.heap_from v b n 1 a'.
Proof.
  induction fuel as [|fuel IH]; intros a l Hb Hlen Hl0 Hln Hfuel Hh; [lia|].
  cbn [np.heapify].
  destruct (l >? 0) eqn:El.
  - apply Z.gtb_lt in El.
    destruct (sift_ok b n l (np.rd a (b + l)) (S (Z.to_nat n)) a l (Z.shiftl l 1))
      as (a1 & E1 & Hst & Hh1); try lia.
    + rewrite Z.shiftl_mul_pow2 by lia. change (2 ^ 1) with 2. lia.
    + rewrite Z.shiftl_mul_pow2 by lia. change (2 ^ 1) with 2. lia.
    + rewrite wr_rd by lia. intros p k Hp Hpl Hk Hkn. apply Hh; lia.
    + rewrite E1. rewrite wr_rd in Hst by lia.
      assert (length a1 = length a) as L1 by apply Hst.
      destruct (IH a1 (l - 1)) as (a' & Ea & Hst' & Hh'); try lia.
      * replace (l - 1 + 1) with l by lia. exact Hh1.
      * exists a'. split; [exact Ea|]. split; [|exact Hh'].
        apply (stays_trans a a1 a'); [lia | exact Hst | exact Hst'].
  - assert (l = 0) as ->.
    { destruct (Z_lt_le_dec 0 l) as [H|H]; [|lia].
      apply Z.gtb_lt in H. congruence. }
    exists a. split; [reflexivity|]. split; [apply stays_refl | exact Hh].
Qed.

Lemma heap_root_max (b n : Z) (a : list nat) :
  np.heap_from v b n 1 a ->
  forall k, 1 <= k -> k <= n -> (kat a (b + k) <= kat a (b + 1))%Q.
Proof.
  intros Hh.
  assert (forall m : nat, forall k, 1 <= k -> k <= n -> k <= Z.of_nat m ->
                                    (kat a (b + k) <= kat a (b + 1))%Q) as H.
  { induction m as [|m IH]; intros k Hk1 Hkn Hkm; [lia|].
    destruct (Z.eq_dec k 1) as [->|Hne]; [apply Qle_refl|].
    apply (Qle_trans _ (kat a (b + k / 2))).
    - apply Hh; [|Z.div_mod_to_equations; lia | exact Hkn].
      Z.div_mod_to_equations. lia.
    - apply IH; Z.div_mod_to_equations; lia. }
  intros k Hk1 Hkn. apply (H (Z.to_nat k)); lia.
Qed.

(** The second phase moves the root behind the heap, which shrinks by
    one, and sifts the displaced entry down; the entries behind the heap
    are sorted and dominate the heap. *)
Lemma sortdown_ok (b N : Z) (fuel : nat) :
  forall (a : list nat) (m : Z),
    0 <= b + 1 -> b + N < Z.of_nat (length a) ->
    1 <= m -> m <= N -> m <= Z.of_nat fuel ->
    np.heap_from v b m 1 a ->
    np.ord v a (b + m + 1) (b + N) ->
    (forall p q, b + 1 <= p -> p <= b + m -> b + m < q -> q <= b + N ->
                 (kat a p <= kat a q)%Q) ->
    exists a',
      np.sortdown v fuel a b m = Some a'
      /\ np.stays a a' (b + 1) (b + N) /\ np.ord v a' (b + 1) (b + N).
Proof.
  induction fuel as [|fuel IH];
    intros a m Hb Hlen Hm1 HmN Hfuel Hh Ho Hcross; [lia|].
  cbn [np.sortdown].
  destruct (m >? 1) eqn:Em.
  - apply Z.gtb_lt in Em. cbv zeta.
    set (c := np.swap a (b + m) (b + 1)).
    assert (length c = length a) as Lc by apply length_swap.
    assert (forall r, 0 <= r ->
              np.rd c r = if r =? b + 1 then np.rd a (b + m)
                          else if r =? b + m then np.rd a (b + 1)
                               else np.rd a r) as Ec.
    { intros r Hr. unfold c. apply rd_swap; lia. }
    destruct (sift_ok b (m - 1) 1 (np.rd a (b + m)) (S (Z.to_nat (m - 1)))
                (np.wr a (b + m) (np.rd a (b + 1))) 1 2)
      as (a2 & E2 & Hst & Hh2); try lia.
    + rewrite length_wr. lia.
    + change (np.wr (np.wr a (b + m) (np.rd a (b + 1))) (b + 1) (np.rd a (b + m)))
        with c.
      intros p k Hp Hp1 Hk Hkm. rewrite !Ec by lia.
      destruct (Z.eqb_spec (b + k) (b + 1)); [lia|].
      destruct (Z.eqb_spec (b + k) (b + m)); [lia|].
      destruct (Z.eqb_spec (b + p) (b + 1)); [lia|].
      destruct (Z.eqb_spec (b + p) (b + m)); [lia|].
      apply Hh; lia.
    + rewrite E2.
      change (np.wr (np.wr a (b + m) (np.rd a (b + 1))) (b + 1) (np.rd a (b + m)))
        with c in Hst.
      destruct Hst as (L2 & P2 & F2 & R2).
      destruct (IH a2 (m - 1)) as (a' & Ea & Hst' & Ho'); try lia.
      * exact Hh2.
      * intros p q Hp Hpq Hq. rewrite !F2 by lia. rewrite !Ec by lia.
        destruct (Z.eqb_spec p (b + 1)); [lia|].
        destruct (Z.eqb_spec q (b + 1)); [lia|].
        destruct (Z.eqb_spec p (b + m)) as [->|Hpm].
        -- destruct (Z.eqb_spec q (b + m)); [apply Qle_refl|].
           apply Hcross; lia.
        -- destruct (Z.eqb_spec q (b + m)); [lia|]. apply Ho; lia.
      * intros p q Hp1 Hp2 Hq1 Hq2.
        destruct (R2 p) as (p' & Hp' & Ep'); [lia|].
        rewrite Ep'. rewrite (F2 q) by lia. rewrite !Ec by lia.
        assert (exists p'', b + 1 <= p'' <= b + m
                            /\ (if p' =? b + 1 then np.rd a (b + m)
                                else if p' =? b + m then np.rd a (b + 1)
                                     else np.rd a p') = np.rd a p'')
          as (p'' & Hp'' & ->).
        { destruct (Z.eqb_spec p' (b + 1));
            [exists (b + m); split; [lia | reflexivity]|].
          destruct (Z.eqb_spec p' (b + m)); [lia|].
          exists p'. split; [lia | reflexivity]. }
        destruct (Z.eqb_spec q (b + 1)); [lia|].
        destruct (Z.eqb_spec q (b + m)) as [->|Hqm].
        -- replace p'' with (b + (p'' - b)) by lia.
           apply (heap_root_max b m a Hh); lia.
        -- apply Hcross; lia.
      * exists a'. split; [exact Ea|]. split; [|exact Ho'].
        apply (stays_trans a c a'); [lia | apply stays_swap; lia|].
        apply (stays_trans c a2 a'); [lia | | exact Hst'].
        apply (stays_widen c a2 (b + 1) (b + (m - 1))); try lia.
        repeat split; assumption.
  - assert (m = 1) as ->.
    { destruct (Z_lt_le_dec 1 m) as [H|H]; [|lia].
      apply Z.gtb_lt in H. congruence. }
    exists a. split; [reflexivity|]. split; [apply stays_refl|].
    intros p q Hp Hpq Hq.
    destruct (Z.eq_dec p q) as [->|Hne]; [apply Qle_refl|].
    destruct (Z.eq_dec p (b + 1)) as [->|Hp1].
    + apply Hcross; lia.
    + apply Ho; lia.
Qed.

(** The heapsort returns, and sorts the range. *)
Lemma aheapsort_ok (a : list nat) (tosort n : Z) :
  0 <= tosort -> 1 <= n -> tosort + n <= Z.of_nat (length a) ->
  exists a',
    np.aheapsort v a tosort n = Some a'
    /\ np.stays a a' tosort (tosort + n - 1) /\ np.ord v a' tosort (tosort + n - 1).
Proof.
  intros Ht Hn Hlen. unfold np.aheapsort. cbv zeta.
  set (b := tosort - 1).
  assert (0 <= Z.shiftr n 1 /\ Z.shiftr n 1 <= n
          /\ n <= 2 * Z.shiftr n 1 + 1) as Hhalf.
  { rewrite Z.shiftr_div_pow2 by lia. change (2 ^ 1) with 2.
    Z.div_mod_to_equations. lia. }
  destruct (heapify_ok b n (S (Z.to_nat n)) a (Z.shiftr n 1))
    as (a1 & E1 & Hst1 & Hh1); try (unfold b; lia).
  { intros p k Hp Hk Hkn. lia. }
  rewrite E1.
  assert (length a1 = length a) as L1 by apply Hst1.
  destruct (sortdown_ok b n (S (Z.to_nat n)) a1 n)
    as (a' & Ea & Hst' & Ho'); try (unfold b; lia).
  { exact Hh1. }
  { intros p q Hp Hpq Hq. lia. }
  exists a'. split; [exact Ea|].
  replace tosort with (b + 1) by (unfold b; lia).
  replace (b + 1 + n - 1) with (b + n) by lia.
  split; [|exact Ho'].
  apply (stays_trans a a1 a'); [unfold b; lia | exact Hst1 | exact Hst'].
Qed.

(** *** The introsort *)

Lemma weight_nonneg (n : Z) (R : list (Z * Z)) :
  np.ranges_ok n R -> 0 <= np.weight R.
Proof.
  induction R as [|lr R IH]; simpl; [lia|].
  intros (H1 & H2 & H3 & H4 & H5). specialize (IH H5). lia.
Qed.

(** What a rearrangement inside the first of the ranges leaves in order. *)
Lemma settled_outside (a a' : list nat) (l r : Z) (R : list (Z * Z)) :
  np.ranges_ok (Z.of_nat (length a)) ((l, r) :: R) ->
  np.settled v a ((l, r) :: R) -> np.stays a a' l r ->
  forall i j, 0 <= i -> i < j -> j < Z.of_nat (length a) ->
              ~ (l <= i /\ j <= r) -> ~ np.covered R i j ->
              (kat a' i <= kat a' j)%Q.
Proof.
  intros (H0 & Hlr & Hrn & Hdis & HR) Hs (L & P & F & Rg) i j Hi Hij Hj Hnot Hnc.
  cbn [fst snd] in *.
  assert (forall x y, l <= x <= r \/ l <= y <= r -> x <= y ->
                      ~ (l <= x /\ y <= r) -> ~ np.covered ((l, r) :: R) x y)
    as Hmixed.
  { intros x y Hin Hxy Hn Hc. unfold np.covered in Hc.
    apply Exists_cons in Hc. cbn [fst snd] in Hc.
    destruct Hc as [Hc|Hc]; [tauto|].
    apply List.Exists_exists in Hc. destruct Hc as (lr & Hlr' & Hx & Hy).
    rewrite List.Forall_forall in Hdis. specialize (Hdis lr Hlr'). lia. }
  destruct (Z_lt_le_dec i l) as [Hil|Hil].
  - rewrite (F i) by lia.
    destruct (Z_lt_le_dec j l) as [Hjl|Hjl].
    + rewrite (F j) by lia. apply Hs; try lia.
      intros Hc. apply Exists_cons in Hc. cbn [fst snd] in Hc.
      destruct Hc as [Hc|Hc]; [lia | exact (Hnc Hc)].
    + destruct (Z_lt_le_dec r j) as [Hrj|Hrj].
      * rewrite (F j) by lia. apply Hs; try lia.
        intros Hc. apply Exists_cons in Hc. cbn [fst snd] in Hc.
        destruct Hc as [Hc|Hc]; [lia | exact (Hnc Hc)].
      * destruct (Rg j) as (j' & Hj' & ->); [lia|].
        apply Hs; try lia. apply Hmixed; lia.
  - destruct (Z_lt_le_dec r i) as [Hri|Hri].
    + rewrite (F i), (F j) by lia. apply Hs; try lia.
      intros Hc. apply Exists_cons in Hc. cbn [fst snd] in Hc.
      destruct Hc as [Hc|Hc]; [lia | exact (Hnc Hc)].
    + assert (r < j) as Hrj by lia.
      rewrite (F j) by lia.
      destruct (Rg i) as (i' & Hi' & ->); [lia|].
      apply Hs; try lia. apply Hmixed; lia.
Qed.

Lemma ranges_ok_tail (n : Z) (lr : Z * Z) (R : list (Z * Z)) :
  np.ranges_ok n (lr :: R) -> np.ranges_ok n R.
Proof. intros (_ & _ & _ & _ & H). exact H. Qed.

(** Sorting the first of the ranges settles it. *)
Lemma sort_inv_sorted (n : nat) (a a' : list nat) (l r : Z)
  (R : list (Z * Z)) :
  np.sort_inv v n a ((l, r) :: R) -> np.stays a a' l r -> np.ord v a' l r ->
  np.sort_inv v n a' R.
Proof.
  intros (L & P & HR & Hs) Hst Ho. rewrite <- L in HR.
  pose proof Hst as (L' & P' & _).
  split; [congruence|]. split; [eapply perm_trans; eassumption|].
  split; [rewrite <- L; eapply ranges_ok_tail; exact HR|].
  intros i j Hi Hij Hj Hnc. rewrite L' in Hj.
  destruct (Z_le_gt_dec l i) as [Hli|Hli];
    [destruct (Z_le_gt_dec j r) as [Hjr|Hjr]; [apply Ho; lia|]|];
    apply (settled_outside a a' l r R HR Hs Hst); try lia; exact Hnc.
Qed.

(** Partitioning the first of the ranges leaves the two sides of the
    pivot to be sorted, in whichever order they are taken up. *)
Lemma sort_inv_partition (n : nat) (a a' : list nat) (l r pi : Z)
  (R : list (Z * Z)) :
  np.sort_inv v n a ((l, r) :: R) -> np.stays a a' l r ->
  l < pi -> pi < r ->
  (forall p, l <= p -> p <= pi -> (kat a' p <= kat a' pi)%Q) ->
  (forall p, pi <= p -> p <= r -> (kat a' pi <= kat a' p)%Q) ->
  np.sort_inv v n a' ((l, pi - 1) :: (pi + 1, r) :: R)
  /\ np.sort_inv v n a' ((pi + 1, r) :: (l, pi - 1) :: R).
Proof.
  intros (L & P & HR & Hs) Hst Hl Hr Hlow Hhigh. rewrite <- L in HR.
  pose proof Hst as (L' & P' & _).
  pose proof HR as (H0 & Hlr & Hrn & Hdis & HR'). cbn [fst snd] in *.
  assert (forall i j, 0 <= i -> i < j -> j < Z.of_nat (length a') ->
            ~ np.covered R i j -> ~ (l <= i /\ j <= pi - 1) ->
            ~ (pi + 1 <= i /\ j <= r) -> (kat a' i <= kat a' j)%Q) as Hcore.
  { intros i j Hi Hij Hj Hnc Hn1 Hn2. rewrite L' in Hj.
    destruct (Z_le_gt_dec l i) as [Hli|Hli];
      [destruct (Z_le_gt_dec j r) as [Hjr|Hjr];
       [apply (Qle_trans _ (kat a' pi)); [apply Hlow | apply Hhigh]; lia|]|];
      apply (settled_outside a a' l r R HR Hs Hst); try lia; exact Hnc. }
  assert (Forall (fun lr' => pi - 1 < fst lr' \/ snd lr' < l) R) as D1
    by (eapply List.Forall_impl; [|exact Hdis]; cbv beta; intros; lia).
  assert (Forall (fun lr' => r < fst lr' \/ snd lr' < pi + 1) R) as D2
    by (eapply List.Forall_impl; [|exact Hdis]; cbv beta; intros; lia).
  split.
  - split; [congruence|]. split; [eapply perm_trans; eassumption|]. split.
    + rewrite <- L. cbn [np.ranges_ok fst snd].
      repeat split; try lia; try assumption.
      constructor; [cbn [fst snd]; lia | exact D1].
    + intros i j Hi Hij Hj Hnc. apply Hcore; try assumption.
      * intros Hc. apply Hnc. right. right. exact Hc.
      * intros Hc. apply Hnc. left. exact Hc.
      * intros Hc. apply Hnc. right. left. exact Hc.
  - split; [congruence|]. split; [eapply perm_trans; eassumption|]. split.
    + rewrite <- L. cbn [np.ranges_ok fst snd].
      repeat split; try lia; try assumption.
      constructor; [cbn [fst snd]; lia | exact D2].
    + intros i j Hi Hij Hj Hnc. apply Hcore; try assumption.
      * intros Hc. apply Hnc. right. right. exact Hc.
      * intros Hc. apply Hnc. right. left. exact Hc.
      * intros Hc. apply Hnc. left. exact Hc.
Qed.

(** The quicksort loop returns with a range at hand that the insertion
    sort takes over; the positions still to be sorted have not become
    more. *)
Lemma quick_loop_ok (n : nat) (fuel : nat) :
  forall s : np.qstate,
    np.sort_inv v n (np.arr s) (np.pending s) ->
    np.q_pr s - np.q_pl s < Z.of_nat fuel ->
    exists s',
      np.quick_loop v fuel s = Some s'
      /\ np.sort_inv v n (np.arr s') (np.pending s')
      /\ np.weight (np.pending s') <= np.weight (np.pending s).
Proof.
  induction fuel as [|fuel IH]; intros s Hinv Hfuel.
  { destruct Hinv as (_ & _ & (_ & H & _) & _). cbn [fst snd] in H. lia. }
  cbn [np.quick_loop].
  destruct (np.q_pr s - np.q_pl s >? np.SMALL_QUICKSORT) eqn:Ec.
  - apply Z.gtb_lt in Ec.
    pose proof Hinv as (L & _ & (H0 & Hlr & Hrn & _) & _). cbn [fst snd] in *.
    destruct (partition_ok (np.arr s) (np.q_pl s) (np.q_pr s))
      as (a' & pi & E & Hst & Hl & Hr & Hlow & Hhigh); try lia.
    rewrite E.
    destruct (sort_inv_partition n (np.arr s) a' (np.q_pl s) (np.q_pr s) pi
                (map fst (np.q_stack s)) Hinv Hst Hl Hr Hlow Hhigh)
      as [I1 I2].
    destruct (pi - np.q_pl s <? np.q_pr s - pi).
    + destruct (IH (np.mkQ a' (np.q_pl s) (pi - 1)
                      ((pi + 1, np.q_pr s, np.q_cdepth s - 1) :: np.q_stack s)
                      (np.q_cdepth s - 1)))
        as (s' & Es & Is & Ws).
      * exact I1.
      * cbn [np.q_pr np.q_pl]. lia.
      * exists s'. split; [exact Es|]. split; [exact Is|].
        unfold np.pending in Ws |- *. cbn in Ws |- *. lia.
    + destruct (IH (np.mkQ a' (pi + 1) (np.q_pr s)
                      ((np.q_pl s, pi - 1, np.q_cdepth s - 1) :: np.q_stack s)
                      (np.q_cdepth s - 1)))
        as (s' & Es & Is & Ws).
      * exact I2.
      * cbn [np.q_pr np.q_pl]. lia.
      * exists s'. split; [exact Es|]. split; [exact Is|].
        unfold np.pending in Ws |- *. cbn in Ws |- *. lia.
  - exists s. split; [reflexivity|]. split; [exact Hinv | lia].
Qed.

(** Every round of the outer loop sorts one range for good, so that as
    many rounds as there are positions to sort suffice. *)
Lemma intro_loop_ok (n : nat) (fuel : nat) :
  forall s : np.qstate,
    np.sort_inv v n (np.arr s) (np.pending s) ->
    np.weight (np.pending s) <= Z.of_nat fuel ->
    exists a', np.intro_loop v fuel s = Some a' /\ np.sort_inv v n a' [].
Proof.
  induction fuel as [|fuel IH]; intros s Hinv Hfuel.
  { pose proof Hinv as (_ & _ & HR & _).
    pose proof (weight_nonneg _ _ (ranges_ok_tail _ _ _ HR)) as Hw.
    destruct HR as (_ & H & _). unfold np.pending in Hfuel.
    cbn [np.weight fst snd] in *. lia. }
  assert (exists a1 stk,
             (if np.q_cdepth s <? 0
              then match np.aheapsort v (np.arr s) (np.q_pl s)
                           (np.q_pr s - np.q_pl s + 1) with
                   | Some a => Some (a, np.q_stack s)
                   | None => None
                   end
              else match np.quick_loop v (S (length (np.arr s))) s with
                   | Some s' =>
                       match np.insertion v (S (length (np.arr s'))) (np.arr s')
                               (np.q_pl s') (np.q_pr s') (np.q_pl s' + 1) with
                       | Some a => Some (a, np.q_stack s')
                       | None => None
                       end
                   | None => None
                   end) = Some (a1, stk)
             /\ np.sort_inv v n a1 (map fst stk)
             /\ np.weight (map fst stk) < np.weight (np.pending s)) as Hround.
  { destruct (np.q_cdepth s <? 0).
    - pose proof Hinv as (L & _ & (H0 & Hlr & Hrn & _) & _). cbn [fst snd] in *.
      destruct (aheapsort_ok (np.arr s) (np.q_pl s) (np.q_pr s - np.q_pl s + 1))
        as (a1 & E & Hst & Ho); try lia.
      rewrite E. exists a1, (np.q_stack s). split; [reflexivity|].
      replace (np.q_pl s + (np.q_pr s - np.q_pl s + 1) - 1) with (np.q_pr s)
        in Hst, Ho by lia.
      split; [apply (sort_inv_sorted n (np.arr s) a1 _ _ _ Hinv Hst Ho)|].
      unfold np.pending. cbn [np.weight fst snd]. lia.
    - pose proof Hinv as (L & _ & (H0 & Hlr & Hrn & _) & _). cbn [fst snd] in *.
      destruct (quick_loop_ok n (S (length (np.arr s))) s Hinv)
        as (s' & Es & Is & Ws); [lia|].
      rewrite Es.
      pose proof Is as (L' & _ & (H0' & Hlr' & Hrn' & _) & _).
      cbn [fst snd] in *.
      destruct (insertion_ok (np.q_pl s') (np.q_pr s') (S (length (np.arr s')))
                  (np.arr s') (np.q_pl s' + 1))
        as (a1 & E & Hst & Ho); try lia.
      { intros p q Hp Hpq Hq. assert (p = q) as -> by lia. apply Qle_refl. }
      rewrite E. exists a1, (np.q_stack s'). split; [reflexivity|].
      split; [apply (sort_inv_sorted n (np.arr s') a1 _ _ _ Is Hst Ho)|].
      unfold np.pending in Ws |- *. cbn [np.weight fst snd] in Ws |- *. lia. }
  cbn [np.intro_loop]. cbv zeta.
  destruct Hround as (a1 & stk & -> & I1 & W1).
  destruct stk as [|[[pl pr] cdepth] stack].
  - exists a1. split; [reflexivity | exact I1].
  - apply (IH (np.mkQ a1 pl pr stack cdepth)).
    + exact I1.
    + unfold np.pending. cbn [np.q_pl np.q_pr np.q_stack].
      cbn [map fst] in W1. lia.
Qed.

Lemma nondecreasing_adjacent (l : list nat) :
  (forall i : nat, (S i < length l)%nat ->
                   (np.key v (nth i l 0%nat) <= np.key v (nth (S i) l 0%nat))%Q) ->
  np.nondecreasing (map (np.key v) l) = true.
Proof.
  induction l as [|x l IH]; intros H; [reflexivity|].
  destruct l as [|y l]; [reflexivity|].
  change (Qle_bool (np.key v x) (np.key v y)
          && np.nondecreasing (map (np.key v) (y :: l)) = true).
  apply andb_true_iff. split.
  - apply Qle_bool_iff. apply (H 0%nat). simpl. lia.
  - apply IH. intros i Hi. apply (H (S i)). simpl in Hi |- *. lia.
Qed.

(** The portable [argsort] returns, whatever the keys, and what it
    returns holds every position once and sorts the keys. *)
Lemma aquicksort_sorts :
  exists idx, np.aquicksort v = Some idx /\ np.argsort_ok v idx = true.
Proof.
  unfold np.aquicksort.
  destruct (Nat.eq_dec (length v) 0%nat) as [E0|Hn].
  { rewrite E0. exists []. split; [reflexivity|].
    unfold np.argsort_ok. rewrite E0. reflexivity. }
  set (n := length v) in *.
  destruct (intro_loop_ok n (S n)
              (np.mkQ (seq 0 n) 0 (Z.of_nat n - 1) []
                 (np.npy_get_msb (Z.of_nat n) * 2)))
    as (idx & E & L & P & _ & Hs).
  - split; [apply List.length_seq|]. split; [reflexivity|]. split.
    + unfold np.pending. cbn. repeat split; try lia. constructor.
    + intros i j Hi Hij Hj Hnc. exfalso. apply Hnc. left.
      cbn [fst snd np.q_pl np.q_pr np.arr] in Hj |- *.
      rewrite List.length_seq in Hj. lia.
  - unfold np.pending. cbn. lia.
  - exists idx. split; [exact E|]. unfold np.argsort_ok. fold n.
    apply andb_true_iff. split.
    + unfold np.is_arange_perm. apply andb_true_iff. split.
      * apply Nat.eqb_eq. exact L.
      * apply forallb_forall. intros i Hi. apply existsb_exists.
        exists i. split; [|apply Nat.eqb_refl].
        apply (Permutation_in i P). exact Hi.
    + apply nondecreasing_adjacent. intros i Hi.
      specialize (Hs (Z.of_nat i) (Z.of_nat (S i))).
      unfold np.rd in Hs. rewrite !Nat2Z.id in Hs. apply Hs; try lia.
      intros Hc. inversion Hc.
Qed.

End Introsort.

(** ** Sorting and selecting (cell 71) *)

Lemma is_arange_perm_Permutation (n : nat) (idx : list nat) :
  np.is_arange_perm n idx = true -> Permutation (seq 0 n) idx.
Proof.
  unfold np.is_arange_perm. intros H.
  apply andb_true_iff in H. destruct H as [Hlen Hall].
  apply Nat.eqb_eq in Hlen.
  apply NoDup_Permutation_bis.
  - apply List.seq_NoDup.
  - rewrite List.length_seq. lia.
  - intros i Hi. rewrite forallb_forall in Hall.
    specialize (Hall i Hi). apply existsb_exists in Hall.
    destruct Hall as (j & Hj & E). apply Nat.eqb_eq in E. subst. exact Hj.
Qed.

Lemma nondecreasing_Sorted (l : list Q) :
  np.nondecreasing l = true -> Sorted Qle l.
Proof.
  induction l as [|x l IH]; [constructor|].
  destruct l as [|y l]; [repeat constructor|].
  intros H. change (Qle_bool x y && np.nondecreasing (y :: l) = true) in H.
  apply andb_true_iff in H. destruct H as [Hxy Hl].
  constructor; [apply IH; exact Hl|].
  constructor. apply Qle_bool_iff. exact Hxy.
Qed.

Section TakeFacts.
Context {B : Type}.
Implicit Types (df : list B) (ps : list nat).

Lemma take_in_bounds df ps (d : B) :
  Forall (fun i => (i < length df)%nat) ps ->
  take_at ps df = Ok (map (fun i => nth i df d) ps).
Proof.
  induction 1 as [|i ps Hi _ IH]; simpl; [reflexivity|].
  rewrite (nth_error_nth' df d Hi), IH. reflexivity.
Qed.

Lemma map_nth_seq df (d : B) :
  map (fun i => nth i df d) (seq 0 (length df)) = df.
Proof.
  apply nth_ext with (d := d) (d' := d).
  - rewrite length_map, List.length_seq. reflexivity.
  - intros n Hn. rewrite length_map, List.length_seq in Hn.
    rewrite (nth_indep _ d (nth 0%nat df d)).
    + rewrite (map_nth (fun i => nth i df d) (seq 0 (length df)) 0%nat n).
      rewrite seq_nth by exact Hn. reflexivity.
    + rewrite length_map, List.length_seq. exact Hn.
Qed.

(** Taking the rows at a rearrangement of all positions rearranges the
    frame. *)
Lemma take_arange_perm df ps :
  np.is_arange_perm (length df) ps = true ->
  exists R, take_at ps df = Ok R /\ Permutation df R
            /\ forall d, R = map (fun i => nth i df d) ps.
Proof.
  intros H. pose proof (is_arange_perm_Permutation _ _ H) as HP.
  assert (Forall (fun i => (i < length df)%nat) ps) as Hb.
  { eapply Permutation_Forall; [exact HP|].
    apply List.Forall_forall. intros i Hi. apply in_seq in Hi. lia. }
  destruct df as [|d0 df'].
  - apply Permutation_nil in HP. subst ps. exists []. simpl.
    repeat split; auto.
  - exists (map (fun i => nth i (d0 :: df') d0) ps).
    split; [apply take_in_bounds; exact Hb|]. split.
    + rewrite <- (map_nth_seq (d0 :: df') d0) at 1.
      apply Permutation_map. exact HP.
    + intros d. apply map_ext_in. intros i Hi.
      rewrite List.Forall_forall in Hb. apply nth_indep. apply Hb. exact Hi.
Qed.

End TakeFacts.

Section SortedFacts.
Context {A : Type} (R : A -> A -> Prop).

Lemma StronglySorted_map {B : Type} (f : B -> A) (l : list B) :
  StronglySorted R (map f l) <-> StronglySorted (fun x y => R (f x) (f y)) l.
Proof.
  induction l as [|x l IH]; simpl.
  - split; constructor.
  - split; intros H; inversion H as [|? ? Hs Hf]; subst; constructor.
    + apply IH. exact Hs.
    + rewrite List.Forall_map in Hf. exact Hf.
    + apply IH. exact Hs.
    + rewrite List.Forall_map. exact Hf.
Qed.

Lemma StronglySorted_app_inv (l1 l2 : list A) :
  StronglySorted R (l1 ++ l2) ->
  StronglySorted R l1 /\ StronglySorted R l2
  /\ forall x y, In x l1 -> In y l2 -> R x y.
Proof.
  induction l1 as [|a l1 IH]; simpl; intros H.
  - repeat split; [constructor | exact H | intros x y []].
  - inversion H as [|? ? Hs Hf]; subst.
    destruct (IH Hs) as (H1 & H2 & H3).
    rewrite List.Forall_app in Hf. destruct Hf as [Hf1 Hf2].
    repeat split; [constructor; assumption | exact H2 |].
    intros x y [<-|Hx] Hy.
    + rewrite List.Forall_forall in Hf2. apply Hf2. exact Hy.
    + apply H3; assumption.
Qed.

(** A list has at most one rearrangement that is sorted for a strict
    order. *)
Lemma StronglySorted_strict_unique (l l' : list A) :
  (forall x, ~ R x x) -> (forall x y z, R x y -> R y z -> R x z) ->
  Permutation l l' -> StronglySorted R l -> StronglySorted R l' -> l = l'.
Proof.
  intros Hirr Htr. revert l'.
  induction l as [|a l IH]; intros l' HP Hl Hl'.
  - apply Permutation_nil in HP. congruence.
  - destruct l' as [|b l'].
    { apply Permutation_sym, Permutation_nil in HP. discriminate. }
    inversion Hl as [|? ? Hs Hf]; subst.
    inversion Hl' as [|? ? Hs' Hf']; subst.
    assert (a = b) as ->.
    { assert (In a (b :: l')) as Ha
        by (eapply Permutation_in; [exact HP | left; reflexivity]).
      assert (In b (a :: l)) as Hb
        by (eapply Permutation_in;
            [apply Permutation_sym; exact HP | left; reflexivity]).
      destruct Ha as [Ha|Ha]; [congruence|].
      destruct Hb as [Hb|Hb]; [congruence|].
      rewrite List.Forall_forall in Hf, Hf'.
      exfalso. apply (Hirr a). eapply Htr; [apply Hf | apply Hf']; assumption. }
    f_equal. apply IH; [|assumption|assumption].
    eapply Permutation_cons_inv. exact HP.
Qed.

End SortedFacts.

Lemma key_map {A : Type} (col : A -> Q) (df : DataFrame A) (d : Z * A) (i : nat) :
  (i < length df)%nat ->
  np.key (map (fun r => col (snd r)) df) i = col (snd (nth i df d)).
Proof.
  intros Hi. unfold np.key.
  rewrite (nth_indep _ 0%Q (col (snd d))) by (rewrite length_map; exact Hi).
  apply (map_nth (fun r => col (snd r))).
Qed.

Lemma Qle_StronglySorted (l : list Q) : Sorted Qle l -> StronglySorted Qle l.
Proof.
  apply Sorted_StronglySorted. intros x y z. apply Qle_trans.
Qed.

(** Whatever [argsort] is, if the index array it returns for the column
    sorts the column, then [sort_values] returns a rearrangement of the
    frame that is ascending in the column. *)
Lemma sort_values_sorts {A : Type} (argsort : list Q -> list nat)
  (col : A -> Q) (df : DataFrame A) :
  np.argsort_ok (map (fun r => col (snd r)) df)
    (argsort (map (fun r => col (snd r)) df)) = true ->
  exists S,
    pd.sort_values argsort col df = Ok S
    /\ Permutation df S
    /\ StronglySorted (fun x y => (col (snd x) <= col (snd y))%Q) S.
Proof.
  unfold np.argsort_ok, pd.sort_values.
  set (keys := map (fun r => col (snd r)) df).
  set (idx := argsort keys). intros H.
  apply andb_true_iff in H. destruct H as [Hperm Hnd].
  unfold keys in Hperm at 1. rewrite length_map in Hperm.
  destruct (take_arange_perm df idx Hperm) as (S & ES & HP & HS).
  exists S. split; [exact ES|]. split; [exact HP|].
  apply nondecreasing_Sorted, Qle_StronglySorted in Hnd.
  apply (StronglySorted_map Qle (fun r : Z * A => col (snd r)) S).
  destruct df as [|d df'].
  - apply Permutation_nil in HP. subst S. constructor.
  - rewrite (HS d), map_map.
    erewrite map_ext_in; [exact Hnd|].
    intros i Hi. cbv beta. symmetry. apply (key_map col (d :: df') d).
    pose proof (is_arange_perm_Permutation _ _ Hperm) as HP'.
    apply Permutation_sym in HP'.
    apply (Permutation_in _ HP') in Hi. apply in_seq in Hi. lia.
Qed.

Lemma StronglySorted_lt_seq (start len : nat) :
  StronglySorted Nat.lt (seq start len).
Proof.
  revert start. induction len as [|len IH]; intros start; simpl; constructor.
  - apply IH.
  - apply List.Forall_forall. intros i Hi. apply in_seq in Hi.
    unfold Nat.lt. lia.
Qed.

Lemma StronglySorted_refine {A : Type} (R R' : A -> A -> Prop) (l : list A) :
  StronglySorted R l -> List.NoDup l ->
  (forall x y, In x l -> In y l -> R x y -> x <> y -> R' x y) ->
  StronglySorted R' l.
Proof.
  induction 1 as [|a l Hs IH Hf]; intros Hnd Himp; constructor.
  - apply IH.
    + inversion Hnd; assumption.
    + intros x y Hx Hy. apply Himp; right; assumption.
  - inversion Hnd as [|? ? Hnotin Hnd']; subst.
    rewrite List.Forall_forall in Hf |- *. intros y Hy.
    apply Himp; [left; reflexivity | right; exact Hy | apply Hf; exact Hy |].
    intros ->. contradiction.
Qed.

Lemma strictly_increasing_nth (v : list Q) (i j : nat) :
  StronglySorted Qlt v -> (i < j)%nat -> (j < length v)%nat ->
  (np.key v i < np.key v j)%Q.
Proof.
  unfold np.key. intros Hs. revert i j.
  induction Hs as [|a v Hs IH Hf]; intros i j Hij Hj; simpl in Hj; [lia|].
  destruct j as [|j]; [lia|]. destruct i as [|i]; simpl.
  - rewrite List.Forall_forall in Hf. apply Hf. apply nth_In. lia.
  - apply IH; lia.
Qed.

(** When the keys are already strictly increasing, the only index array
    that sorts them is the identity. *)
Lemma argsort_ok_strictly_increasing (v : list Q) (idx : list nat) :
  StronglySorted Qlt v -> np.argsort_ok v idx = true ->
  idx = seq 0 (length v).
Proof.
  intros Hv H. unfold np.argsort_ok in H.
  apply andb_true_iff in H. destruct H as [Hperm Hnd].
  apply is_arange_perm_Permutation in Hperm.
  apply nondecreasing_Sorted, Qle_StronglySorted in Hnd.
  apply (StronglySorted_map Qle (np.key v) idx) in Hnd.
  apply (StronglySorted_strict_unique Nat.lt).
  - intros x. apply Nat.lt_irrefl.
  - intros x y z. apply Nat.lt_trans.
  - apply Permutation_sym. exact Hperm.
  - eapply StronglySorted_refine; [exact Hnd | |].
    + eapply Permutation_NoDup; [exact Hperm | apply List.seq_NoDup].
    + intros x y Hx Hy Hle Hne.
      assert (x < length v /\ y < length v)%nat as [Hxb Hyb].
      { apply Permutation_sym in Hperm.
        apply (Permutation_in _ Hperm) in Hx, Hy.
        apply in_seq in Hx, Hy. lia. }
      destruct (Nat.lt_trichotomy x y) as [Hlt|[Heq|Hgt]];
        [exact Hlt | contradiction |].
      exfalso. apply (Qlt_not_le _ _ (strictly_increasing_nth v y x Hv Hgt Hxb)).
      exact Hle.
  - apply StronglySorted_lt_seq.
Qed.

Lemma StronglySorted_firstn {A : Type} (R : A -> A -> Prop) (n : nat) (l : list A) :
  StronglySorted R l -> StronglySorted R (firstn n l).
Proof.
  intros H. rewrite <- (firstn_skipn n l) in H.
  apply StronglySorted_app_inv in H. tauto.
Qed.

Lemma biased_sel_selects (argsort : list Q -> list nat) (K : nat)
  (D : DataFrame Scored) :
  np.argsort_ok (map (fun r => Predictions (snd r)) D)
    (argsort (map (fun r => Predictions (snd r)) D)) = true ->
  exists R, Notebook.biased_sel argsort K D = Ok R /\ Notebook.selects_smallest K D R.
Proof.
  intros H. destruct (sort_values_sorts argsort Predictions D H)
    as (S & ES & HP & HS).
  unfold Notebook.biased_sel. rewrite ES. simpl. unfold pd.head.
  exists (firstn K S). split; [reflexivity|]. split; [|split].
  - rewrite length_firstn. rewrite (Permutation_length HP). reflexivity.
  - apply StronglySorted_firstn. exact HS.
  - exists (skipn K S). rewrite firstn_skipn. split; [exact HP|].
    rewrite <- (firstn_skipn K S) in HS.
    apply StronglySorted_app_inv in HS. tauto.
Qed.

Lemma tied_db_label (i : nat) (r : Z * Scored) :
  nth_error Notebook.tied_db i = Some r -> fst r = Z.of_nat i.
Proof.
  unfold Notebook.tied_db. rewrite nth_error_map, nth_error_seq.
  destruct (Nat.ltb i 18); simpl; intros E; [|discriminate].
  injection E as <-. reflexivity.
Qed.

Lemma argsort_portable_ok (v : list Q) :
  exists idx,
    np.aquicksort v = Some idx /\ Notebook.argsort_portable v = idx
    /\ np.argsort_ok v idx = true.
Proof.
  destruct (aquicksort_sorts v) as (idx & E & H). exists idx.
  unfold Notebook.argsort_portable. rewrite E. auto.
Qed.

(** C1 as the code has it.  numpy's portable [argsort] returns, for every
    array of keys, an index array that holds every position once and
    along which the keys do not decrease.  With it, cell 71 returns for
    every frame [D] and every [K] min(K, |D|) rows of [D], in ascending
    order of [Predictions], and no row left out has a smaller prediction
    than a row selected; the same holds with any other sorting routine
    whose index array sorts the column, which is what [argsort]
    promises.  Nothing is said about the order of rows with equal
    predictions.  On the nine-row scenario, K = 3 returns the first
    three rows, with the predictions -9, -8, -7 in that order, with the
    portable sort and with any other one. *)
Theorem biased_sel_smallest_ascending :
  (forall v : list Q,
      exists idx,
        np.aquicksort v = Some idx /\ Notebook.argsort_portable v = idx
        /\ np.argsort_ok v idx = true)
  /\ (forall (K : nat) (D : DataFrame Scored),
      exists R, Notebook.biased_sel Notebook.argsort_portable K D = Ok R
                /\ Notebook.selects_smallest K D R)
  /\ (forall (argsort : list Q -> list nat) (K : nat) (D : DataFrame Scored),
      np.argsort_ok (map (fun r => Predictions (snd r)) D)
        (argsort (map (fun r => Predictions (snd r)) D)) = true ->
      exists R, Notebook.biased_sel argsort K D = Ok R
                /\ Notebook.selects_smallest K D R)
  /\ Notebook.biased_sel Notebook.argsort_portable 3 Notebook.scenario_scored
     = Ok (firstn 3 Notebook.scenario_scored)
  /\ (forall argsort : list Q -> list nat,
      np.argsort_ok
        (map (fun r => Predictions (snd r)) Notebook.scenario_scored)
        (argsort (map (fun r => Predictions (snd r)) Notebook.scenario_scored))
      = true ->
      Notebook.biased_sel argsort 3 Notebook.scenario_scored
      = Ok (firstn 3 Notebook.scenario_scored))
  /\ map (fun r => Predictions (snd r)) (firstn 3 Notebook.scenario_scored)
     = [-9; -8; -7]%Q.
Proof.
  assert (forall argsort : list Q -> list nat,
             np.argsort_ok
               (map (fun r => Predictions (snd r)) Notebook.scenario_scored)
               (argsort (map (fun r => Predictions (snd r))
                           Notebook.scenario_scored)) = true ->
             Notebook.biased_sel argsort 3 Notebook.scenario_scored
             = Ok (firstn 3 Notebook.scenario_scored)) as Hscen.
  { intros argsort H.
    apply argsort_ok_strictly_increasing in H.
    + unfold Notebook.biased_sel, pd.sort_values. rewrite H.
      vm_compute. reflexivity.
    + repeat constructor. }
  assert (forall v, np.argsort_ok v (Notebook.argsort_portable v) = true)
    as Hport.
  { intros v. destruct (argsort_portable_ok v) as (idx & _ & -> & H). exact H. }
  split; [exact argsort_portable_ok|].
  split; [intros K D; apply biased_sel_selects; apply Hport|].
  split; [exact biased_sel_selects|].
  split; [apply Hscen; apply Hport|].
  split; [exact Hscen|].
  vm_compute. reflexivity.
Qed.

Lemma biased_sel_smallest_ascending_witness :
  exists R,
    Notebook.biased_sel Notebook.argsort_portable 3 Notebook.shuffled_db = Ok R
    /\ Notebook.selects_smallest 3 Notebook.shuffled_db R
    /\ map fst R = [0; 3; 6]%Z
    /\ map (fun r => Predictions (snd r)) R = map inject_Z [-10; -9; -8]%Z.
Proof.
  destruct biased_sel_smallest_ascending as (_ & H & _).
  destruct (H 3%nat Notebook.shuffled_db) as (R & E & Hsel).
  exists R. split; [exact E|]. split; [exact Hsel|].
  vm_compute in E. injection E as <-. split; reflexivity.
Defined.

(** C1 as stated fails on eighteen rows with one and the same prediction:
    numpy's portable quicksort moves the pivot aside and swaps inward from
    both ends, so the rows labelled 15 and 14 come out second and third,
    ahead of the rows 1 and 2 and in reverse of their original order. *)
Lemma biased_sel_ties_not_in_original_order :
  np.aquicksort (map (fun r => Predictions (snd r)) Notebook.tied_db)
  = Some [0; 15; 14; 13; 12; 11; 10; 9; 8; 7; 6; 5; 4; 3; 2; 1; 16; 17]%nat
  /\ exists R,
      Notebook.biased_sel Notebook.argsort_portable 3 Notebook.tied_db = Ok R
      /\ map fst R = [0; 15; 14]%Z
      /\ ~ Notebook.ties_in_original_order Notebook.tied_db R.
Proof.
  split; [vm_compute; reflexivity|].
  eexists. split; [vm_compute; reflexivity|].
  split; [reflexivity|].
  intros Hst.
  match goal with
  | H : Notebook.ties_in_original_order _ [_; ?x; ?y] |- _ =>
      destruct (H x y) as (i & j & Hij & Hi & Hj)
  end.
  - exists 1%nat, 2%nat. repeat split. lia.
  - reflexivity.
  - apply tied_db_label in Hi, Hj. simpl in Hi, Hj. lia.
Qed.

(** ** Labelling (cell 47) *)

Lemma Qltb_Qeq_false (x y : Q) : (x == y)%Q -> np.Qltb x y = false.
Proof.
  intros H. unfold np.Qltb. apply Qeq_alt in H. rewrite H. reflexivity.
Qed.

Lemma ltb_number (x y : Q) : f64.ltb (Num x) (Num y) = np.Qltb x y.
Proof. reflexivity. Qed.

(** C4.  On the ten scores -10 .. -1 the threshold of cell 47 is -7.3,
    and exactly the three most negative scores, -10, -9 and -8, are
    labelled True; the remaining seven are labelled False. *)
Theorem cell_47_scenario_labels :
  let y := map Num [-10; -9; -8; -7; -6; -5; -4; -3; -2; -1]%Q in
  exists t,
    Notebook.cell_47 y
    = Ok (Num t,
          [true; true; true; false; false; false; false; false; false; false])
    /\ (t == -(73 # 10))%Q
    /\ List.filter (fun score => f64.ltb score (Num t)) y
       = map Num [-10; -9; -8]%Q.
Proof.
  cbv zeta. eexists. split; [vm_compute; reflexivity|].
  split; [reflexivity|]. vm_compute. reflexivity.
Qed.

(** C10.  The comparison of cell 47 is strict: a score equal to the
    computed threshold is labelled False. *)
Theorem cell_47_threshold_inactive (y : list float64) (y_cls : list bool)
  (t score : Q) (i : nat) :
  Notebook.cell_47 y = Ok (Num t, y_cls) ->
  nth_error y i = Some (Num score) ->
  (score == t)%Q ->
  nth_error y_cls i = Some false.
Proof.
  unfold Notebook.cell_47. intros Ht Hi Heq.
  destruct (np.percentile y 30) as [threshold|e]; cbn [bind] in Ht;
    [|discriminate Ht].
  injection Ht as -> <-.
  rewrite nth_error_map, Hi. cbn [option_map]. rewrite ltb_number.
  rewrite (Qltb_Qeq_false _ _ Heq). reflexivity.
Qed.

Lemma cell_47_threshold_inactive_witness :
  exists (t : Q) (y_cls : list bool),
    Notebook.cell_47 (map Num [-11; -10; -9; -8; -7; -6; -5; -4; -3; -2; -1]%Q)
    = Ok (Num t, y_cls)
    /\ (-8 == t)%Q
    /\ nth_error y_cls 3 = Some false.
Proof.
  eexists. eexists. split; [vm_compute; reflexivity|].
  split; [vm_compute; reflexivity|].
  eapply (cell_47_threshold_inactive
            (map Num [-11; -10; -9; -8; -7; -6; -5; -4; -3; -2; -1]%Q)
            _ _ (-8)%Q 3%nat).
  - vm_compute. reflexivity.
  - reflexivity.
  - vm_compute. reflexivity.
Defined.

(** ** Random selection (cell 39) *)

Lemma exchange_Permutation (x : list nat) (i j : nat) :
  Permutation (np.exchange x i j) x.
Proof.
  unfold np.exchange.
  destruct (x !! i) as [a|] eqn:Ei; [|reflexivity].
  destruct (x !! j) as [b|] eqn:Ej; [|reflexivity].
  apply Permutation_insert_swap; assumption.
Qed.

Section RandomStateFacts.
Variable G : np.BitGenerator.

Lemma shuffle_loop_Permutation (i : nat) (x : list nat) (s : np.rng G) :
  Permutation (fst (np.shuffle_loop G i x s)) x.
Proof.
  revert x s. induction i as [|i IH]; intros x s; simpl; [reflexivity|].
  destruct (np.random_interval G s (S i)) as [j s'].
  etransitivity; [apply IH | apply exchange_Permutation].
Qed.

Lemma permutation_of_Permutation (x : list nat) (s : np.rng G) :
  Permutation (fst (np.permutation_of G x s)) x.
Proof. apply shuffle_loop_Permutation. Qed.

Lemma permutation_Permutation (n : nat) (s : np.rng G) :
  Permutation (seq 0 n) (fst (np.permutation G n s)).
Proof. symmetry. apply permutation_of_Permutation. Qed.

End RandomStateFacts.

Lemma reject_loop_bounded (fuel : nat) (wide : bool) (mask max : Z)
  (s : np.MT19937.state) :
  0 <= max -> fst (np.MT19937.reject_loop fuel wide mask max s) <= max.
Proof.
  intros Hmax. revert s.
  induction fuel as [|fuel IH]; intros s; [exact Hmax|].
  cbn [np.MT19937.reject_loop].
  destruct (if wide then _ else _) as [r s'].
  destruct (Z.land r mask >? max) eqn:Ecmp.
  - apply IH.
  - rewrite Z.gtb_ltb in Ecmp. apply Z.ltb_ge in Ecmp. exact Ecmp.
Qed.

(** The rejection loop of MT19937 returns a value within the bound. *)
Lemma mt19937_interval_bounded : np.interval_bounded np.mt19937.
Proof.
  intros s max. cbn [np.random_interval np.mt19937].
  unfold np.MT19937.random_interval.
  destruct (Z.of_nat max =? 0); [cbn [fst]; lia|].
  pose proof (reject_loop_bounded 4096 (np.MT19937.MASK32 <? Z.of_nat max)
                (np.MT19937.bit_mask (Z.of_nat max)) (Z.of_nat max) s) as H.
  destruct (np.MT19937.reject_loop _ _ _ _ _) as [value s'].
  cbn [fst] in *. lia.
Qed.

Lemma combine_projections {A B : Type} (l : list A) (k : list B) :
  length l = length k ->
  map fst (combine l k) = l /\ map snd (combine l k) = k.
Proof.
  revert k. induction l as [|a l IH]; intros [|b k] Hlen;
    try discriminate; simpl; [split; reflexivity|].
  injection Hlen as Hlen. destruct (IH k Hlen) as [-> ->].
  split; reflexivity.
Qed.

Section TakeSplit.
Context {B : Type}.
Implicit Types (df : list B) (ps qs : list nat).

Lemma take_app ps qs df :
  take_at (ps ++ qs) df
  = (try a <- take_at ps df in try b <- take_at qs df in Ok (a ++ b)).
Proof.
  induction ps as [|i ps IH]; simpl.
  - destruct (take_at qs df); reflexivity.
  - destruct (nth_error df i) as [r|]; [|reflexivity].
    rewrite IH. destruct (take_at ps df) as [a|e]; simpl; [|reflexivity].
    destruct (take_at qs df); reflexivity.
Qed.

Lemma take_length ps df R : take_at ps df = Ok R -> length R = length ps.
Proof.
  revert R. induction ps as [|i ps IH]; simpl; intros R H.
  - injection H as <-. reflexivity.
  - destruct (nth_error df i); [|discriminate].
    destruct (take_at ps df) as [a|e]; simpl in H; [|discriminate].
    injection H as <-. simpl. f_equal. apply IH. reflexivity.
Qed.

(** Rows taken at two lists of positions that together rearrange all
    positions split the frame in two. *)
Lemma take_split ps qs df :
  Permutation (seq 0 (length df)) (ps ++ qs) ->
  exists R1 R2,
    take_at ps df = Ok R1 /\ take_at qs df = Ok R2
    /\ Permutation df (R1 ++ R2)
    /\ length R1 = length ps /\ length R2 = length qs.
Proof.
  intros HP.
  assert (np.is_arange_perm (length df) (ps ++ qs) = true) as Hok.
  { unfold np.is_arange_perm. apply andb_true_iff. split.
    - apply Nat.eqb_eq. rewrite <- (Permutation_length HP).
      apply List.length_seq.
    - apply forallb_forall. intros i Hi. apply existsb_exists.
      exists i. split; [|apply Nat.eqb_refl].
      eapply Permutation_in; [exact HP | exact Hi]. }
  destruct (take_arange_perm df (ps ++ qs) Hok) as (R & ER & HR & _).
  rewrite take_app in ER.
  destruct (take_at ps df) as [R1|e] eqn:E1; simpl in ER; [|discriminate].
  destruct (take_at qs df) as [R2|e] eqn:E2; simpl in ER; [|discriminate].
  injection ER as <-. exists R1, R2.
  repeat split; try assumption; eapply take_length; eassumption.
Qed.

End TakeSplit.

(** The generator reproduces the reference values of MT19937 and of
    numpy: the first word after the seed 5489, and after the seed 42 the
    first double, 0.3745401188473625, and [permutation(10)]. *)
Example mt19937_reference_values :
  fst (np.MT19937.mt19937_next (np.MT19937.mt19937_seed 5489)) = 3499211612
  /\ fst (np.MT19937.random_double (np.MT19937.mt19937_seed 42))
     = (3373557479352566 # 9007199254740992)%Q
  /\ (3745401188473624 # 10000000000000000
      < fst (np.MT19937.random_double (np.MT19937.mt19937_seed 42)))%Q
  /\ (fst (np.MT19937.random_double (np.MT19937.mt19937_seed 42))
      < 3745401188473626 # 10000000000000000)%Q
  /\ np.permutation np.mt19937 10 (np.seed np.mt19937 42)
     = ([8; 1; 5; 0; 7; 2; 9; 4; 3; 6]%nat,
        snd (np.permutation np.mt19937 10 (np.seed np.mt19937 42)))
  /\ np.MT19937.starved (snd (np.permutation np.mt19937 10 (np.seed np.mt19937 42)))
     = false.
Proof.
  split; [vm_compute; reflexivity|].
  split; [vm_compute; reflexivity|].
  split; [vm_compute; reflexivity|].
  split; [vm_compute; reflexivity|].
  split; vm_compute; reflexivity.
Qed.

Lemma RandomState_ok (G : np.BitGenerator) (sd : Z) :
  0 <= sd < 4294967296 -> np.RandomState G sd = Ok (np.seed G sd).
Proof.
  intros H. unfold np.RandomState.
  replace (0 <=? sd) with true by (symmetry; apply Z.leb_le; lia).
  replace (sd <? 4294967296) with true by (symmetry; apply Z.ltb_lt; lia).
  reflexivity.
Qed.

Lemma RandomState_error (G : np.BitGenerator) (sd : Z) :
  ~ 0 <= sd < 4294967296 -> np.RandomState G sd = Raise ValueError.
Proof.
  intros H. unfold np.RandomState.
  destruct (0 <=? sd) eqn:E1; [|reflexivity].
  destruct (sd <? 4294967296) eqn:E2; [|reflexivity].
  apply Z.leb_le in E1. apply Z.ltb_lt in E2. exfalso. apply H. lia.
Qed.

Section SampleFacts.
Context {A : Type}.
Implicit Types (df : DataFrame A).

Lemma reset_index_rows df :
  map snd (pd.reset_index df) = map snd df
  /\ pd.index (pd.reset_index df) = map Z.of_nat (seq 0 (length df)).
Proof.
  unfold pd.reset_index, pd.index.
  destruct (combine_projections (map Z.of_nat (seq 0 (length df))) (map snd df))
    as [H1 H2]; [rewrite !length_map, List.length_seq; reflexivity|].
  split; assumption.
Qed.

(** A seeded sample of [n <= len(df)] rows: the outcome does not depend
    on the global generator and leaves it as it was. *)
Lemma sample_seeded (G : np.BitGenerator) (n : nat) (sd : Z) df :
  (n <= length df)%nat -> 0 <= sd < 4294967296 ->
  exists R rest,
    (forall global, pd.sample G n (Some sd) true df global = (Ok R, global))
    /\ length R = n
    /\ pd.index R = map Z.of_nat (seq 0 n)
    /\ Permutation (map snd df) (map snd R ++ rest).
Proof.
  intros Hn Hsd. unfold pd.sample, np.choice.
  rewrite (RandomState_ok G sd Hsd).
  apply Nat.ltb_ge in Hn. rewrite Hn. apply Nat.ltb_ge in Hn.
  pose proof (permutation_Permutation G (length df) (np.seed G sd)) as HP.
  destruct (np.permutation G (length df) (np.seed G sd)) as [p s'].
  cbn [fst] in HP. rewrite <- (firstn_skipn n p) in HP.
  destruct (take_split _ _ df HP) as (R1 & R2 & E1 & E2 & HR & L1 & L2).
  assert (length R1 = n) as HL.
  { rewrite L1, length_firstn. apply Permutation_length in HP.
    rewrite List.length_seq, firstn_skipn in HP. lia. }
  destruct (reset_index_rows R1) as [Hrows Hidx].
  exists (pd.reset_index R1), (map snd R2).
  split; [|split; [|split]].
  - intros global. unfold pd.take. cbn [bind]. rewrite E1. reflexivity.
  - unfold pd.reset_index. rewrite length_combine, !length_map, List.length_seq.
    lia.
  - rewrite Hidx, HL. reflexivity.
  - rewrite Hrows, <- map_app. apply Permutation_map. exact HR.
Qed.

(** A sample with an integer [random_state] never reads the global
    generator and never moves it on, whether it returns or raises. *)
Lemma sample_seeded_pure (G : np.BitGenerator) (n : nat) (sd : Z)
  (ignore_index : bool) df :
  exists r, forall global,
      pd.sample G n (Some sd) ignore_index df global = (r, global).
Proof.
  unfold pd.sample. destruct (np.RandomState G sd) as [rs|e].
  - destruct (np.choice G (length df) n rs) as [idx rs'].
    eexists. intros global. reflexivity.
  - eexists. intros global. reflexivity.
Qed.

End SampleFacts.

(** C6.  A sample drawn with an integer [random_state] is a function of
    the frame, the size and the seed alone: whatever the state of numpy's
    global generator, the outcome is the same, hence the same on every
    run, and the global generator is left as it was.  For a seed from
    0 to 2**32 - 1 and a size that the frame has, the outcome is a frame
    of [N] rows of [D] under the fresh index 0 .. N - 1; cell 39 is such
    a call, with the seed 42.  Any other seed is refused with
    ValueError, on every run alike. *)
Theorem random_sel_deterministic (G : np.BitGenerator) (N : nat) (seed : Z)
  (D : DataFrame Compound) :
  (exists r, forall g : np.rng G, pd.sample G N (Some seed) true D g = (r, g))
  /\ ((N <= length D)%nat -> 0 <= seed < 4294967296 ->
      exists R,
        (forall g g' : np.rng G,
            fst (pd.sample G N (Some seed) true D g) = Ok R
            /\ fst (pd.sample G N (Some seed) true D g') = Ok R
            /\ snd (pd.sample G N (Some seed) true D g) = g)
        /\ (seed = 42 ->
            forall g : np.rng G, Notebook.random_sel G N D g = (Ok R, g))
        /\ length R = N
        /\ pd.index R = map Z.of_nat (seq 0 N)
        /\ exists rest, Permutation (map snd D) (map snd R ++ rest))
  /\ (~ 0 <= seed < 4294967296 ->
      forall g : np.rng G,
        pd.sample G N (Some seed) true D g = (Raise ValueError, g)).
Proof.
  split; [apply sample_seeded_pure|]. split.
  - intros Hn Hsd.
    destruct (sample_seeded G N seed D Hn Hsd) as (R & rest & H & HL & HI & HP).
    exists R. split; [|split; [|split; [|split]]]; try assumption.
    + intros g g'. rewrite !H. auto.
    + intros -> g. unfold Notebook.random_sel. apply H.
    + exists rest. exact HP.
  - intros Hsd g. unfold pd.sample.
    rewrite (RandomState_error G seed Hsd). reflexivity.
Qed.

Lemma random_sel_deterministic_witness :
  exists R,
    (forall g g' : np.rng np.mt19937,
        fst (pd.sample np.mt19937 3 (Some 42) true Notebook.scenario_db g) = Ok R
        /\ fst (pd.sample np.mt19937 3 (Some 42) true Notebook.scenario_db g')
           = Ok R
        /\ snd (pd.sample np.mt19937 3 (Some 42) true Notebook.scenario_db g) = g)
    /\ (42 = 42 ->
        forall g : np.rng np.mt19937,
          Notebook.random_sel np.mt19937 3 Notebook.scenario_db g = (Ok R, g))
    /\ length R = 3%nat
    /\ pd.index R = map Z.of_nat (seq 0 3)
    /\ exists rest,
        Permutation (map snd Notebook.scenario_db) (map snd R ++ rest).
Proof.
  destruct (random_sel_deterministic np.mt19937 3 42 Notebook.scenario_db)
    as (_ & H & _).
  apply H; [simpl; lia | lia].
Defined.

(** Under MT19937 cell 39 draws the rows 8, 1 and 5 of the ten-row
    scenario.  Without a seed the draw follows the global generator: two
    draws in a row differ. *)
Example random_sel_scenario :
  map (fun r => Scores (snd r))
    (match fst (Notebook.random_sel np.mt19937 3 Notebook.scenario_db
                  (np.seed np.mt19937 0)) with
     | Ok R => R
     | Raise _ => []
     end)
  = map Num [-1; -8; -4]%Q
  /\ (let run1 := pd.sample np.mt19937 3 None true Notebook.scenario_db
                    (np.seed np.mt19937 0) in
      let run2 := pd.sample np.mt19937 3 None true Notebook.scenario_db
                    (snd run1) in
      fst run1 <> fst run2).
Proof.
  split; [vm_compute; reflexivity|].
  vm_compute. intros H. discriminate H.
Qed.

(** ** Scoring (cells 67 and 69) *)

Lemma check_array_inv (X X' : list (list Q)) :
  sk.check_array X = Ok X' ->
  X <> [] /\ X' = map (map sk.float32) X
  /\ sk.n_features X <> 0%nat
  /\ Forall (fun x => length x = sk.n_features X) X
  /\ Forall (Forall (fun v => sk.float32_overflows v = false)) X.
Proof.
  destruct X as [|row rest]; [discriminate|]. unfold sk.check_array.
  destruct (forallb _ rest) eqn:Ef; [|discriminate].
  destruct (existsb _ (row :: rest)) eqn:Eo; [discriminate|].
  destruct (Nat.eqb (length row) 0) eqn:E0; [discriminate|].
  intros H. injection H as <-. apply Nat.eqb_neq in E0.
  split; [discriminate|]. split; [reflexivity|]. split; [exact E0|]. split.
  - constructor; [reflexivity|].
    apply List.Forall_forall. intros r Hr.
    rewrite forallb_forall in Ef. apply Nat.eqb_eq. apply Ef. exact Hr.
  - apply List.Forall_forall. intros r Hr.
    apply List.Forall_forall. intros v Hv.
    apply not_true_is_false. intros Hov.
    apply not_true_iff_false in Eo. apply Eo.
    apply existsb_exists. exists r. split; [exact Hr|].
    apply existsb_exists. exists v. split; assumption.
Qed.

Lemma check_array_error (X : list (list Q)) (e : exn) :
  sk.check_array X = Raise e -> e = ValueError.
Proof.
  destruct X as [|row rest]; [intros H; injection H as <-; reflexivity|].
  unfold sk.check_array.
  destruct (forallb _ rest); [|intros H; injection H as <-; reflexivity].
  destruct (existsb _ (row :: rest)); [intros H; injection H as <-; reflexivity|].
  destruct (Nat.eqb (length row) 0); [intros H; injection H as <-; reflexivity|].
  intros H. discriminate H.
Qed.

Lemma check_array_ok (X : list (list Q)) (n : nat) :
  X <> [] -> n <> 0%nat -> Forall (fun x => length x = n) X ->
  Forall (Forall (fun v => sk.float32_overflows v = false)) X ->
  sk.check_array X = Ok (map (map sk.float32) X) /\ sk.n_features X = n.
Proof.
  intros Hne Hn HX Hov. destruct X as [|row rest]; [congruence|].
  inversion HX as [|? ? Hrow Hrest]; subst. unfold sk.check_array.
  replace (forallb _ rest) with true.
  2:{ symmetry. apply forallb_forall. intros r Hr. apply Nat.eqb_eq.
      rewrite List.Forall_forall in Hrest. apply Hrest. exact Hr. }
  replace (existsb _ (row :: rest)) with false.
  2:{ symmetry. apply not_true_is_false. intros H.
      apply existsb_exists in H. destruct H as (r & Hr & H).
      apply existsb_exists in H. destruct H as (v & Hv & H).
      rewrite List.Forall_forall in Hov. specialize (Hov r Hr).
      rewrite List.Forall_forall in Hov. specialize (Hov v Hv). congruence. }
  apply Nat.eqb_neq in Hn. rewrite Hn. split; reflexivity.
Qed.

Lemma n_features_cast (X : list (list Q)) :
  sk.n_features (map (map sk.float32) X) = sk.n_features X.
Proof. destruct X; [reflexivity | apply length_map]. Qed.

Lemma predict_length (reg : sk.RandomForestRegressor) (X : list (list Q))
  (ys : list Q) :
  sk.predict reg X = Ok ys -> length ys = length X.
Proof.
  unfold sk.predict. destruct (sk.check_array X) as [X'|e] eqn:Ec; simpl;
    [|discriminate].
  destruct (check_array_inv X X' Ec) as (_ & -> & _).
  destruct (Nat.eqb _ (sk.n_features_in_ reg)); [|discriminate].
  intros H. injection H as <-. rewrite !length_map. reflexivity.
Qed.

Lemma predict_empty (reg : sk.RandomForestRegressor) :
  sk.predict reg [] = Raise ValueError.
Proof. reflexivity. Qed.

Section SetitemFacts.
Context {A B : Type} (mk : A -> Q -> B).

Lemma setitem_rows (df : DataFrame A) (values : list Q) (df' : DataFrame B) :
  pd.setitem mk df values = Ok df' ->
  length values = length df
  /\ df' = map (fun rv : (Z * A) * Q =>
                  (fst (fst rv), mk (snd (fst rv)) (snd rv)))
             (combine df values).
Proof.
  unfold pd.setitem. destruct (Nat.eqb _ _) eqn:E; [|discriminate].
  apply Nat.eqb_eq in E. intros H. injection H as <-. split; auto.
Qed.

(** Whatever of a row [mk] keeps, [setitem] keeps, row by row. *)
Lemma setitem_frame {C : Type} (keep : A -> C) (keep' : B -> C) (col : B -> Q)
  (df : DataFrame A) (values : list Q) (df' : DataFrame B) :
  (forall a q, keep' (mk a q) = keep a) -> (forall a q, col (mk a q) = q) ->
  pd.setitem mk df values = Ok df' ->
  map (fun r => (fst r, keep' (snd r))) df' = map (fun r => (fst r, keep (snd r))) df
  /\ map (fun r => col (snd r)) df' = values
  /\ length df' = length df.
Proof.
  intros Hk Hc H. apply setitem_rows in H. destruct H as [Hlen ->].
  rewrite !map_map, length_map, length_combine. cbn [fst snd].
  destruct (combine_projections df values (eq_sym Hlen)) as [H1 H2].
  split; [|split].
  - rewrite <- H1 at 2. rewrite map_map. apply map_ext. intros [[l a] q].
    cbn [fst snd]. rewrite Hk. reflexivity.
  - rewrite <- H2 at 2. apply map_ext. intros [[l a] q].
    cbn [fst snd]. apply Hc.
  - lia.
Qed.

End SetitemFacts.

Lemma map_pair_id {A : Type} (df : DataFrame A) :
  map (fun r => (fst r, snd r)) df = df.
Proof.
  induction df as [|[l a] df IH]; simpl; [reflexivity|]. rewrite IH. reflexivity.
Qed.

Lemma scorer_frame (reg : sk.RandomForestRegressor)
  (D : DataFrame Compound) (D' : DataFrame Scored) :
  Notebook.scorer reg D = Ok D' ->
  map (fun r => (fst r, compound (snd r))) D' = D
  /\ Notebook.predicted_scores RDKit reg D
     = Ok (map (fun r => Predictions (snd r)) D')
  /\ length D' = length D.
Proof.
  unfold Notebook.scorer.
  destruct (Notebook.predicted_scores RDKit reg D) as [ps|e]; simpl; [|discriminate].
  intros H.
  destruct (setitem_frame mkScored (fun c => c) compound Predictions D ps D')
    as (H1 & H2 & H3); auto.
  rewrite map_pair_id in H1. rewrite H2. auto.
Qed.

Section KernelFacts.
Import Notebook.

Lemma load_name_inv (x : string) (k : Kernel) (l : positive) (o : object) :
  load_name x k = Ok (l, o) <-> globals k !! x = Some l /\ heap k !! l = Some o.
Proof.
  unfold load_name. split.
  - destruct (globals k !! x) as [l0|]; [|discriminate].
    destruct (heap k !! l0) as [o0|] eqn:E; [|discriminate].
    intros H. injection H as <- <-. auto.
  - intros [-> ->]. reflexivity.
Qed.

Lemma store_new_fresh (x : string) (o : object) (k : Kernel) :
  let l := fresh (dom (heap k)) in
  heap k !! l = None
  /\ load_name x (store_new x o k) = Ok (l, o)
  /\ (forall l' o', heap k !! l' = Some o' ->
                    heap (store_new x o k) !! l' = Some o')
  /\ (forall y, y <> x -> globals (store_new x o k) !! y = globals k !! y).
Proof.
  intros l.
  assert (heap k !! l = None) as Hfr by (apply not_elem_of_dom, is_fresh).
  split; [exact Hfr|]. split; [|split].
  - apply load_name_inv. simpl. fold l. rewrite !lookup_insert_eq. auto.
  - intros l' o' H. simpl. fold l. rewrite lookup_insert_ne; [exact H|].
    intros E. rewrite E in Hfr. congruence.
  - intros y Hy. simpl. apply lookup_insert_ne. congruence.
Qed.

End KernelFacts.

(** C7.  Whenever scoring returns, it has kept every row, its label and
    its loaded cells, in order, and has added to each row the prediction
    of the model for that row, as the one new column [Predictions].  In
    the kernel, cell 69 changes the frame object in place and no other
    object; cell 67 before it only adds the object [predicted_scores].
    Where the column exists already, all other cells are kept as well. *)
Theorem scorer_adds_predictions_only :
  (forall (reg : sk.RandomForestRegressor) (D : DataFrame Compound)
          (D' : DataFrame Scored),
      Notebook.scorer reg D = Ok D' ->
      map (fun r => (fst r, compound (snd r))) D' = D
      /\ Notebook.predicted_scores RDKit reg D
         = Ok (map (fun r => Predictions (snd r)) D')
      /\ length D' = length D)
  /\ (forall (reg : sk.RandomForestRegressor) (D D' : DataFrame Scored),
      Notebook.rescorer reg D = Ok D' ->
      map (fun r => (fst r, compound (snd r))) D'
      = map (fun r => (fst r, compound (snd r))) D)
  /\ (forall (reg : sk.RandomForestRegressor) (k k1 k2 : Notebook.Kernel)
             (l : positive) (D : DataFrame Compound),
      Notebook.load_name "database" k = Ok (l, Notebook.Frame D) ->
      Notebook.cell_67 reg k = Ok k1 ->
      Notebook.cell_69 k1 = Ok k2 ->
      exists D',
        Notebook.scorer reg D = Ok D'
        /\ Notebook.load_name "database" k2 = Ok (l, Notebook.ScoredFrame D')
        /\ forall l' o, l' <> l -> Notebook.heap k !! l' = Some o ->
                        Notebook.heap k2 !! l' = Some o).
Proof.
  split; [exact scorer_frame|]. split.
  - intros reg D D'. unfold Notebook.rescorer.
    destruct (Notebook.predicted_scores _ reg D) as [ps|e]; simpl; [|discriminate].
    intros H.
    destruct (setitem_frame (fun r p => mkScored (compound r) p)
                compound compound Predictions D ps D') as (H1 & _ & _); auto.
  - intros reg k k1 k2 l D Hload H67 H69.
    unfold Notebook.cell_67 in H67. rewrite Hload in H67. simpl in H67.
    destruct (Notebook.predicted_scores RDKit reg D) as [ps|e] eqn:Eps;
      simpl in H67; [|discriminate].
    injection H67 as <-.
    destruct (store_new_fresh "predicted_scores" (Notebook.Floats ps) k)
      as (Hfr & Hps & Hold & Hglob).
    apply load_name_inv in Hload. destruct Hload as [Hg Hh].
    assert (Notebook.load_name "database"
              (Notebook.store_new "predicted_scores" (Notebook.Floats ps) k)
            = Ok (l, Notebook.Frame D)) as Hdb.
    { apply load_name_inv. split.
      - rewrite Hglob; [exact Hg | discriminate].
      - apply Hold. exact Hh. }
    unfold Notebook.cell_69 in H69. rewrite Hdb, Hps in H69. simpl in H69.
    destruct (pd.setitem mkScored D ps) as [D'|e] eqn:Eset; simpl in H69;
      [|discriminate].
    injection H69 as <-. exists D'. split; [|split].
    + unfold Notebook.scorer. rewrite Eps. simpl. exact Eset.
    + apply load_name_inv. simpl. split.
      * rewrite lookup_insert_ne; [exact Hg | discriminate].
      * apply lookup_insert_eq.
    + intros l' o Hne Hl'. simpl.
      rewrite lookup_insert_ne by congruence.
      apply (Hold l' o Hl').
Qed.

Lemma scorer_adds_predictions_only_witness :
  Notebook.scorer Notebook.scenario_reg Notebook.scenario_db
  = Ok (map (fun r => (fst r,
                       mkScored (snd r)
                         (if Z.eqb (fst r) 0 then -15 # 2
                          else if Z.eqb (fst r) 1 then -14 # 2
                          else if Z.eqb (fst r) 2 then -12 # 2
                          else -11 # 2)))
          Notebook.scenario_db)
  /\ map (fun r => (fst r, compound (snd r)))
       (map (fun r => (fst r,
                       mkScored (snd r)
                         (if Z.eqb (fst r) 0 then -15 # 2
                          else if Z.eqb (fst r) 1 then -14 # 2
                          else if Z.eqb (fst r) 2 then -12 # 2
                          else -11 # 2)))
          Notebook.scenario_db)
     = Notebook.scenario_db.
Proof.
  assert (E : Notebook.scorer Notebook.scenario_reg Notebook.scenario_db
              = Ok (map (fun r => (fst r,
                       mkScored (snd r)
                         (if Z.eqb (fst r) 0 then -15 # 2
                          else if Z.eqb (fst r) 1 then -14 # 2
                          else if Z.eqb (fst r) 2 then -12 # 2
                          else -11 # 2)))
                      Notebook.scenario_db)).
  { vm_compute. reflexivity. }
  split; [exact E|].
  destruct scorer_adds_predictions_only as (H & _).
  apply (H _ _ _ E).
Defined.

(** C8 as the code has it.  [predict] validates its input before it
    evaluates the trees: the empty list is not a 2-D array, and is
    answered with ValueError whatever the fitted model is, also when it
    comes from an empty [database] in cell 67. *)
Theorem predict_rejects_empty_input :
  (forall reg : sk.RandomForestRegressor, sk.predict reg [] = Raise ValueError)
  /\ (forall reg : sk.RandomForestRegressor,
      Notebook.predicted_scores RDKit reg [] = Raise ValueError)
  /\ (forall (reg : sk.RandomForestRegressor) (ys : list Q),
      sk.predict reg [] <> Ok ys).
Proof.
  split; [exact predict_empty|]. split; [intros reg; reflexivity|].
  intros reg ys H. rewrite predict_empty in H. discriminate H.
Qed.

(** C8 as stated fails: on the empty list [predict] raises and returns no
    list. *)
Lemma predict_empty_input_raises :
  sk.predict Notebook.scenario_reg [] = Raise ValueError
  /\ sk.predict Notebook.scenario_reg [] <> Ok [].
Proof. split; [reflexivity | discriminate]. Qed.

(** ** The docking loop (cell 19) *)

Section DockingFacts.
Import Notebook.
Variable V : Vina.

Lemma dock_one_failure (ligand : string) (st st' : docking V) (e : exn) :
  dock_one V ligand st = (st', Some e) ->
  docking_scores st' = docking_scores st
  /\ exists more, stdout st' = stdout st ++ DockingLigand ligand :: more.
Proof.
  unfold dock_one.
  destruct (set_ligand_from_file V (docker st) ligand) as [d1|e1].
  2: { intros H. injection H as <- <-. simpl. split; [reflexivity|].
       exists []. reflexivity. }
  destruct (compute_vina_maps V d1) as [d2|e2].
  2: { intros H. injection H as <- <-. simpl. split; [reflexivity|].
       exists []. reflexivity. }
  destruct (dock V d2 EXHAUSTIVENESS N_POSES) as [d3|e3].
  2: { intros H. injection H as <- <-. simpl. split; [reflexivity|].
       exists []. reflexivity. }
  destruct (energies V d3 N_POSES) as [es|e4].
  2: { intros H. injection H as <- <-. simpl. split; [reflexivity|].
       eexists. rewrite <- app_assoc. reflexivity. }
  destruct (bind (energies V d3 1) item00) as [score|e5].
  - discriminate.
  - intros H. injection H as <- <-. simpl. split; [reflexivity|].
    eexists. rewrite <- !app_assoc. reflexivity.
Qed.

Lemma dock_one_success (ligand : string) (st st' : docking V) :
  dock_one V ligand st = (st', None) ->
  exists score, docking_scores st' = docking_scores st ++ [score].
Proof.
  unfold dock_one.
  destruct (set_ligand_from_file V (docker st) ligand) as [d1|e1]; [|discriminate].
  destruct (compute_vina_maps V d1) as [d2|e2]; [|discriminate].
  destruct (dock V d2 EXHAUSTIVENESS N_POSES) as [d3|e3]; [|discriminate].
  destruct (energies V d3 N_POSES) as [es|e4]; [|discriminate].
  destruct (bind (energies V d3 1) item00) as [score|e5]; [|discriminate].
  intros H. injection H as <-. exists score. reflexivity.
Qed.

Lemma for_ligand_app (l1 l2 : list string) (st st1 : docking V) :
  for_ligand V l1 st = (st1, None) ->
  for_ligand V (l1 ++ l2) st = for_ligand V l2 st1.
Proof.
  revert st. induction l1 as [|x l1 IH]; simpl; intros st H.
  - injection H as <-. reflexivity.
  - destruct (dock_one V x st) as [st' [e|]]; [discriminate|].
    apply IH. exact H.
Qed.

Lemma for_ligand_all_docked (ligands : list string) (st st' : docking V) :
  for_ligand V ligands st = (st', None) ->
  length (docking_scores st')
  = (length (docking_scores st) + length ligands)%nat.
Proof.
  revert st. induction ligands as [|x l IH]; simpl; intros st H.
  - injection H as <-. lia.
  - destruct (dock_one V x st) as [st1 [e|]] eqn:E; [discriminate|].
    apply dock_one_success in E. destruct E as [score E].
    rewrite (IH st1 H), E, length_app. simpl. lia.
Qed.

End DockingFacts.

(** C9 as the code has it.  The loop has no exception handler.  When the
    body raises for a ligand, the exception leaves the loop at once: the
    result is the state the failing body left and the exception, whatever
    ligands come after it, none of which is announced or docked; the
    failing ligand adds no score, and what was printed for it begins with
    the line that announced it.  The ligands before it have added one
    score each. *)
Theorem docking_failure_ends_loop (V : Vina) (done rest : list string)
  (ligand : string) (st st1 st2 : Notebook.docking V) (e : exn) :
  Notebook.for_ligand V done st = (st1, None) ->
  Notebook.dock_one V ligand st1 = (st2, Some e) ->
  Notebook.for_ligand V (done ++ ligand :: rest) st = (st2, Some e)
  /\ Notebook.docking_scores st2 = Notebook.docking_scores st1
  /\ length (Notebook.docking_scores st2)
     = (length (Notebook.docking_scores st) + length done)%nat
  /\ exists more,
      Notebook.stdout st2
      = Notebook.stdout st1 ++ Notebook.DockingLigand ligand :: more.
Proof.
  intros Hdone Hfail.
  destruct (dock_one_failure V ligand st1 st2 e Hfail) as [Hs Hout].
  split; [|split; [|split]].
  - rewrite (for_ligand_app V done (ligand :: rest) st st1 Hdone).
    simpl. rewrite Hfail. reflexivity.
  - exact Hs.
  - rewrite Hs. apply for_ligand_all_docked. exact Hdone.
  - exact Hout.
Qed.

Lemma docking_failure_ends_loop_witness :
  Notebook.for_ligand Notebook.toy_vina
    (["a.pdbqt"%string] ++ "broken.pdbqt"%string :: ["b.pdbqt"%string])
    (Notebook.mkDocking (None : docker_state Notebook.toy_vina) [] [])
  = (Notebook.mkDocking (Some "a.pdbqt"%string : docker_state Notebook.toy_vina)
       [-(71 # 10)]%Q
       [Notebook.DockingLigand "a.pdbqt"; Notebook.DockingScoresHeader;
        Notebook.PoseEnergy 0
          [-(71 # 10); -(90 # 10); -(5 # 10); 24 # 10; -(5 # 10)]%Q;
        Notebook.PoseEnergy 1
          [-(68 # 10); -(86 # 10); -(6 # 10); 24 # 10; -(5 # 10)]%Q;
        Notebook.PoseEnergy 2
          [-(65 # 10); -(83 # 10); -(6 # 10); 24 # 10; -(5 # 10)]%Q;
        Notebook.Stars; Notebook.DockingLigand "broken.pdbqt"],
     Some RuntimeError).
Proof.
  eapply docking_failure_ends_loop.
  - vm_compute. reflexivity.
  - vm_compute. reflexivity.
Defined.

(** C9 as stated fails: with a ligand that the engine cannot read in
    front of a good one, cell 19 ends with the exception; the good ligand
    is neither announced nor docked, and no score is recorded. *)
Lemma docking_batch_aborted :
  Notebook.cell_19 Notebook.toy_vina 2 ["broken.pdbqt"; "b.pdbqt"]%string None
  = (Notebook.mkDocking (None : docker_state Notebook.toy_vina) []
       [Notebook.DockingLigand "broken.pdbqt"],
     Some RuntimeError)
  /\ ~ In (Notebook.DockingLigand "b.pdbqt")
         (Notebook.stdout
            (fst (Notebook.cell_19 Notebook.toy_vina 2
                    ["broken.pdbqt"; "b.pdbqt"]%string None)))
  /\ Notebook.docking_scores
       (fst (Notebook.cell_19 Notebook.toy_vina 1 ["b.pdbqt"]%string None))
     = [-(71 # 10)]%Q.
Proof.
  split; [vm_compute; reflexivity|]. split.
  - vm_compute. intros [H|[]]. discriminate.
  - vm_compute. reflexivity.
Qed.

(** ** Train/test splits (cells 49 and 58) *)

Lemma Qceiling_share (test_size : Q) (n : Z) :
  (0 < test_size)%Q -> (test_size < 1)%Q -> 1 <= n ->
  1 <= Qceiling (test_size * inject_Z n) <= n.
Proof.
  intros H0 H1 Hn. set (x := (test_size * inject_Z n)%Q).
  assert (0 < inject_Z n)%Q as Hn'.
  { change 0%Q with (inject_Z 0). rewrite <- Zlt_Qlt. lia. }
  assert (0 < x)%Q as Hx0 by (unfold x; nra).
  assert (x <= inject_Z n)%Q as Hx1 by (unfold x; nra).
  split.
  - pose proof (Qle_ceiling x) as Hc.
    assert (inject_Z 0 < inject_Z (Qceiling x))%Q as H
      by (apply (Qlt_le_trans _ x); assumption).
    rewrite <- Zlt_Qlt in H. lia.
  - rewrite <- (Qceiling_Z n). apply Qceiling_resp_le. exact Hx1.
Qed.

(** The sizes that [validate_shuffle_split] returns, and exactly when. *)
Lemma validate_shuffle_split_inv (n_samples : nat) (test_size : Q)
  (n_train n_test : nat) :
  sk.validate_shuffle_split sk.ceil_exact n_samples test_size
  = Ok (n_train, n_test) <->
  (0 < test_size)%Q /\ (test_size < 1)%Q
  /\ Z.of_nat n_test = Qceiling (test_size * inject_Z (Z.of_nat n_samples))
  /\ (1 <= n_test)%nat /\ (1 <= n_train)%nat
  /\ (n_train + n_test = n_samples)%nat.
Proof.
  unfold sk.validate_shuffle_split, sk.ceil_exact.
  destruct (Qle_bool test_size 0) eqn:E0.
  { apply Qle_bool_iff in E0. simpl. split; [discriminate|].
    intros (H & _). lra. }
  destruct (Qle_bool 1 test_size) eqn:E1.
  { apply Qle_bool_iff in E1. simpl. split; [discriminate|].
    intros (_ & H & _). lra. }
  assert (0 < test_size)%Q as H0.
  { apply Qnot_le_lt. intros H. apply Qle_bool_iff in H. congruence. }
  assert (test_size < 1)%Q as H1.
  { apply Qnot_le_lt. intros H. apply Qle_bool_iff in H. congruence. }
  simpl. set (c := Qceiling (test_size * inject_Z (Z.of_nat n_samples))).
  replace (Z.of_nat n_samples <? Z.of_nat n_samples - c + c) with false
    by (symmetry; apply Z.ltb_ge; lia).
  destruct (Z.of_nat n_samples - c =? 0) eqn:Ez.
  - apply Z.eqb_eq in Ez. split; [discriminate|].
    intros (_ & _ & Hc & _ & Ht & Hs). lia.
  - apply Z.eqb_neq in Ez. split.
    + intros H. injection H as <- <-.
      destruct (Z.le_gt_cases 1 (Z.of_nat n_samples)) as [Hn|Hn].
      * pose proof (Qceiling_share test_size _ H0 H1 Hn) as Hc. fold c in Hc.
        repeat split; try assumption; lia.
      * assert (n_samples = 0%nat) as -> by lia.
        exfalso. apply Ez. unfold c. simpl (inject_Z (Z.of_nat 0)).
        assert (test_size * 0 == inject_Z 0)%Q as Hq by (simpl; ring).
        rewrite Hq, Qceiling_Z. reflexivity.
    + intros (_ & _ & Hc & Ht & Htr & Hs). f_equal. f_equal; lia.
Qed.

Section SplitFacts.
Variable G : np.BitGenerator.

Lemma shuffle_split_partition (n_samples n_train n_test : nat) (s : np.rng G) :
  (n_train + n_test = n_samples)%nat ->
  let ix := sk.shuffle_split G n_samples n_train n_test s in
  Permutation (seq 0 n_samples) (fst ix ++ snd ix)
  /\ length (fst ix) = n_train /\ length (snd ix) = n_test.
Proof.
  intros Hsum. unfold sk.shuffle_split.
  pose proof (permutation_Permutation G n_samples s) as HP.
  destruct (np.permutation G n_samples s) as [p s']. cbn [fst snd] in *.
  assert (length p = n_samples) as Hlen.
  { rewrite <- (Permutation_length HP). apply List.length_seq. }
  assert (firstn n_train (skipn n_test p) = skipn n_test p) as ->.
  { apply firstn_all2. rewrite length_skipn. lia. }
  split; [|split].
  - rewrite HP at 1. rewrite Permutation_app_comm, firstn_skipn. reflexivity.
  - rewrite length_skipn. lia.
  - rewrite length_firstn. lia.
Qed.

End SplitFacts.

(** *** [_approximate_mode] on one or two classes *)

Lemma insert_sorted_Permutation (x : Q) (l : list Q) :
  Permutation (np.insert_sorted x l) (x :: l).
Proof.
  induction l as [|y l IH]; simpl; [reflexivity|].
  destruct (Qle_bool x y); [reflexivity|].
  rewrite IH. apply perm_swap.
Qed.

Lemma sort_Permutation (l : list Q) : Permutation (np.sort l) l.
Proof.
  induction l as [|x l IH]; simpl; [reflexivity|].
  rewrite insert_sorted_Permutation, IH. reflexivity.
Qed.

Lemma drop_repeats_In (l : list Q) (v : Q) :
  In v (np.drop_repeats l) -> In v l.
Proof.
  induction l as [|x l IH]; [intros []|].
  destruct l as [|y l]; [exact (fun H => H)|].
  change (np.drop_repeats (x :: y :: l))
    with (if Qeq_bool x y then np.drop_repeats (y :: l)
          else x :: np.drop_repeats (y :: l)).
  destruct (Qeq_bool x y).
  - intros H. right. apply IH. exact H.
  - intros [H|H]; [left; exact H | right; apply IH; exact H].
Qed.

Lemma drop_repeats_nil (l : list Q) : np.drop_repeats l = [] -> l = [].
Proof.
  induction l as [|x l IH]; [reflexivity|].
  destruct l as [|y l]; [discriminate|].
  change (np.drop_repeats (x :: y :: l))
    with (if Qeq_bool x y then np.drop_repeats (y :: l)
          else x :: np.drop_repeats (y :: l)).
  destruct (Qeq_bool x y); [|discriminate].
  intros H. apply IH in H. discriminate.
Qed.

(** The values that the loop of [_approximate_mode] walks through begin
    with one of the remainders. *)
Lemma remainder_values_head (remainder : list Q) :
  remainder <> [] ->
  exists v vs, rev (np.sort (np.unique remainder)) = v :: vs /\ In v remainder.
Proof.
  intros Hne.
  destruct (rev (np.sort (np.unique remainder))) as [|v vs] eqn:E.
  - exfalso. apply (f_equal (@length Q)) in E.
    rewrite length_rev, (Permutation_length (sort_Permutation _)) in E.
    apply length_zero_iff_nil in E. unfold np.unique in E.
    apply drop_repeats_nil in E.
    apply (f_equal (@length Q)) in E.
    rewrite (Permutation_length (sort_Permutation _)) in E.
    apply Hne. apply length_zero_iff_nil. exact E.
  - exists v, vs. split; [reflexivity|].
    assert (In v (rev (np.sort (np.unique remainder)))) as H
      by (rewrite E; left; reflexivity).
    apply in_rev in H.
    apply (Permutation_in _ (sort_Permutation _)) in H.
    unfold np.unique in H. apply drop_repeats_In in H.
    apply (Permutation_in _ (sort_Permutation _)) in H. exact H.
Qed.

Lemma where_eq_In (a : list Q) (v : Q) :
  In v a ->
  np.where_eq a v <> []
  /\ forall j, In j (np.where_eq a v) -> (j < length a)%nat.
Proof.
  intros Hv. unfold np.where_eq. split.
  - apply (In_nth _ _ 0%Q) in Hv. destruct Hv as (i & Hi & Ei).
    intros Hnil.
    assert (In i (List.filter (fun i => Qeq_bool (nth i a 0%Q) v)
                    (seq 0 (length a)))) as Hin.
    { apply filter_In. split; [apply in_seq; lia|].
      rewrite Ei. apply Qeq_bool_refl. }
    rewrite Hnil in Hin. exact Hin.
  - intros j Hj. apply filter_In in Hj. destruct Hj as [Hj _].
    apply in_seq in Hj. lia.
Qed.

Section ApproximateMode.
Variable G : np.BitGenerator.

(** Drawing one entry of a nonempty array gives one of its entries. *)
Lemma choice_from_one (a : list nat) (s : np.rng G) :
  a <> [] -> exists j, In j a /\ fst (np.choice_from G a 1 s) = [j].
Proof.
  intros Hne. unfold np.choice_from.
  pose proof (permutation_Permutation G (length a) s) as HP.
  destruct (np.permutation G (length a) s) as [p s']. cbn [fst] in *.
  destruct p as [|p0 p].
  - apply Permutation_length in HP. rewrite List.length_seq in HP.
    destruct a; [congruence | discriminate].
  - exists (nth p0 a 0%nat). split; [|reflexivity].
    apply nth_In.
    assert (In p0 (seq 0 (length a))) as H.
    { eapply Permutation_in; [symmetry; exact HP | left; reflexivity]. }
    apply in_seq in H. lia.
Qed.

(** With one draw left to add, the first round of the loop adds it to an
    entry whose remainder is the first value, and the loop ends. *)
Lemma add_by_remainder_one (v : Q) (vs remainder : list Q) (floored : list Z)
  (s : np.rng G) :
  In v remainder -> length floored = length remainder ->
  exists j f,
    floored !! j = Some f
    /\ Qeq_bool (nth j remainder 0%Q) v = true
    /\ fst (sk.add_by_remainder G (v :: vs) remainder floored 1 s)
       = <[j := f + 1]> floored.
Proof.
  intros Hv Hlen. destruct (where_eq_In remainder v Hv) as [Hne Hbound].
  cbn [sk.add_by_remainder].
  assert (Z.min (Z.of_nat (length (np.where_eq remainder v))) 1 = 1) as ->.
  { destruct (np.where_eq remainder v); [congruence|]. simpl length. lia. }
  change (Z.to_nat 1) with 1%nat.
  destruct (choice_from_one (np.where_eq remainder v) s Hne) as (j & Hj & Ej).
  destruct (np.choice_from G (np.where_eq remainder v) 1 s) as [chosen s'].
  cbn [fst] in Ej. subst chosen.
  assert (j < length floored)%nat as Hjb by (rewrite Hlen; apply Hbound, Hj).
  destruct (lookup_lt_is_Some_2 floored j Hjb) as [f Hf].
  exists j, f. split; [exact Hf|]. split.
  - unfold np.where_eq in Hj. apply filter_In in Hj. tauto.
  - change (1 - 1 =? 0) with true. cbn [fst sk.increment fold_left].
    rewrite Hf. reflexivity.
Qed.

End ApproximateMode.

Lemma share_bounds (c T d : Z) :
  0 <= c <= T -> 0 < T -> 0 <= d <= T ->
  (0 <= inject_Z c / inject_Z T * inject_Z d)%Q
  /\ (inject_Z c / inject_Z T * inject_Z d <= inject_Z c)%Q.
Proof.
  intros Hc HT Hd.
  assert (0 <= inject_Z c)%Q as Hc0
    by (change 0%Q with (inject_Z 0); rewrite <- Zle_Qle; lia).
  assert (0 < inject_Z T)%Q as HT0
    by (change 0%Q with (inject_Z 0); rewrite <- Zlt_Qlt; lia).
  assert (0 <= inject_Z d)%Q as Hd0
    by (change 0%Q with (inject_Z 0); rewrite <- Zle_Qle; lia).
  assert (inject_Z d <= inject_Z T)%Q as HdT by (rewrite <- Zle_Qle; lia).
  set (u := (inject_Z d / inject_Z T)%Q).
  assert (0 <= u)%Q as Hu0.
  { unfold u. apply Qle_shift_div_l; [exact HT0|]. lra. }
  assert (u <= 1)%Q as Hu1.
  { unfold u. apply Qle_shift_div_r; [exact HT0|]. lra. }
  assert (inject_Z c / inject_Z T * inject_Z d == inject_Z c * u)%Q as ->.
  { unfold u. field. lra. }
  split; nra.
Qed.

Lemma floor_share (x : Q) (c : Z) :
  (0 <= x)%Q -> (x <= inject_Z c)%Q ->
  0 <= Qfloor x <= c
  /\ ((inject_Z (Qfloor x) < x)%Q -> Qfloor x + 1 <= c).
Proof.
  intros H0 Hc. split; [split|].
  - change 0 with (Qfloor (inject_Z 0)) at 1. rewrite Qfloor_Z.
    rewrite <- (Qfloor_Z 0). apply Qfloor_resp_le. exact H0.
  - rewrite <- (Qfloor_Z c). apply Qfloor_resp_le. exact Hc.
  - intros Hlt. assert (inject_Z (Qfloor x) < inject_Z c)%Q as H
      by (apply (Qlt_le_trans _ x); assumption).
    rewrite <- Zlt_Qlt in H. lia.
Qed.

Section ApproximateModeTwo.
Variable G : np.BitGenerator.

(** One class gets all the draws. *)
Lemma approximate_mode_one (c d : Z) (s : np.rng G) :
  0 < c -> 0 <= d <= c ->
  fst (sk.approximate_mode G [c] d s) = [d].
Proof.
  intros Hc Hd. unfold sk.approximate_mode. cbn [map fold_right].
  rewrite !Z.add_0_r.
  assert (inject_Z c / inject_Z c * inject_Z d == inject_Z d)%Q as Hx.
  { field. change 0%Q with (inject_Z 0). rewrite inject_Z_injective. lia. }
  assert (Qfloor (inject_Z c / inject_Z c * inject_Z d) = d) as ->.
  { rewrite Hx. apply Qfloor_Z. }
  rewrite Z.sub_diag. reflexivity.
Qed.

(** Two classes share the draws: each gets at most its count, and the
    shares sum to the number of draws. *)
Lemma approximate_mode_two (c0 c1 d : Z) (s : np.rng G) :
  0 <= c0 -> 0 <= c1 -> 0 < c0 + c1 -> 0 <= d <= c0 + c1 ->
  exists r0 r1,
    fst (sk.approximate_mode G [c0; c1] d s) = [r0; r1]
    /\ 0 <= r0 <= c0 /\ 0 <= r1 <= c1 /\ r0 + r1 = d.
Proof.
  intros H0 H1 HT Hd. unfold sk.approximate_mode. cbn [map fold_right].
  rewrite !Z.add_0_r.
  set (x0 := (inject_Z c0 / inject_Z (c0 + c1) * inject_Z d)%Q).
  set (x1 := (inject_Z c1 / inject_Z (c0 + c1) * inject_Z d)%Q).
  destruct (share_bounds c0 (c0 + c1) d) as [Hx0 Hx0']; [lia..|]. fold x0 in Hx0, Hx0'.
  destruct (share_bounds c1 (c0 + c1) d) as [Hx1 Hx1']; [lia..|]. fold x1 in Hx1, Hx1'.
  assert (x0 + x1 == inject_Z d)%Q as Hsum.
  { unfold x0, x1. rewrite inject_Z_plus. field. rewrite <- inject_Z_plus.
    change 0%Q with (inject_Z 0). rewrite inject_Z_injective. lia. }
  destruct (floor_share x0 c0 Hx0 Hx0') as [Hf0 Hr0].
  destruct (floor_share x1 c1 Hx1 Hx1') as [Hf1 Hr1].
  pose proof (Qfloor_le x0) as Hl0. pose proof (Qlt_floor x0) as Hu0.
  pose proof (Qfloor_le x1) as Hl1. pose proof (Qlt_floor x1) as Hu1.
  rewrite inject_Z_plus in Hu0, Hu1.
  set (f0 := Qfloor x0) in *. set (f1 := Qfloor x1) in *.
  assert (0 <= d - (f0 + f1) <= 1) as Hneed.
  { split.
    - assert (inject_Z (f0 + f1) <= inject_Z d)%Q as H
        by (rewrite inject_Z_plus; lra).
      rewrite <- Zle_Qle in H. lia.
    - assert (inject_Z d < inject_Z (f0 + f1 + 2))%Q as H
        by (rewrite !inject_Z_plus; change (inject_Z 2) with 2%Q;
            change (inject_Z 1) with 1%Q in *; lra).
      rewrite <- Zlt_Qlt in H. lia. }
  destruct (d - (f0 + f1) >? 0) eqn:E.
  - assert (d - (f0 + f1) = 1) as Hone by lia. rewrite Hone.
    assert (inject_Z d == inject_Z f0 + inject_Z f1 + 1)%Q as Hd1.
    { replace d with (f0 + f1 + 1) by lia. rewrite !inject_Z_plus. reflexivity. }
    change (inject_Z 1) with 1%Q in Hu0, Hu1, Hd1.
    assert (inject_Z f0 < x0)%Q as Hp0 by lra.
    assert (inject_Z f1 < x1)%Q as Hp1 by lra.
    destruct (remainder_values_head
                [(x0 - inject_Z f0)%Q; (x1 - inject_Z f1)%Q])
      as (v & vs & -> & Hv); [discriminate|].
    destruct (add_by_remainder_one G v vs
                [(x0 - inject_Z f0)%Q; (x1 - inject_Z f1)%Q] [f0; f1] s Hv)
      as (j & f & Hj & _ & ->); [reflexivity|].
    destruct j as [|[|j]]; simpl in Hj; [| |discriminate];
      injection Hj as <-; simpl.
    + exists (f0 + 1), f1. specialize (Hr0 Hp0). repeat split; lia.
    + exists f0, (f1 + 1). specialize (Hr1 Hp1). repeat split; lia.
  - exists f0, f1. cbn [fst]. repeat split; lia.
Qed.

End ApproximateModeTwo.

(** *** The stratified split on boolean labels *)

Lemma take_clip_Permutation (ci p : list nat) :
  Permutation (seq 0 (length ci)) p -> Permutation (sk.take_clip ci p) ci.
Proof.
  intros HP. unfold sk.take_clip.
  transitivity (map (fun i => nth i ci 0%nat) p).
  - apply Permutation_refl'. apply map_ext_in. intros i Hi.
    apply (Permutation_in _ (Permutation_sym HP)) in Hi. apply in_seq in Hi.
    f_equal. lia.
  - rewrite <- HP, map_nth_seq. reflexivity.
Qed.

(** The train and test slices of one class are the class. *)
Lemma class_slices (ci p : list nat) (n t : Z) :
  Permutation (seq 0 (length ci)) p ->
  0 <= n -> 0 <= t -> n + t = Z.of_nat (length ci) ->
  Permutation
    (firstn (Z.to_nat n) (sk.take_clip ci p)
     ++ firstn (Z.to_nat t) (skipn (Z.to_nat n) (sk.take_clip ci p)))
    ci.
Proof.
  intros HP Hn Ht Hsum.
  pose proof (take_clip_Permutation ci p HP) as Hc.
  assert (firstn (Z.to_nat t) (skipn (Z.to_nat n) (sk.take_clip ci p))
          = skipn (Z.to_nat n) (sk.take_clip ci p)) as ->.
  { apply firstn_all2. rewrite length_skipn, (Permutation_length Hc). lia. }
  rewrite firstn_skipn. exact Hc.
Qed.

Lemma class_positions_split (y : list bool) :
  Permutation (seq 0 (length y))
    (sk.class_positions y false ++ sk.class_positions y true).
Proof.
  unfold sk.class_positions.
  induction (seq 0 (length y)) as [|i l IH]; simpl; [reflexivity|].
  destruct (nth i y false); simpl.
  - rewrite <- Permutation_middle. apply perm_skip. exact IH.
  - apply perm_skip. exact IH.
Qed.

Lemma class_positions_absent (y : list bool) (c : bool) :
  existsb (Bool.eqb c) y = false -> sk.class_positions y c = [].
Proof.
  intros H. unfold sk.class_positions.
  apply filter_none_gen. apply List.Forall_forall. intros i Hi.
  apply in_seq in Hi.
  destruct (Bool.eqb (nth i y false) c) eqn:E; [|reflexivity].
  apply eqb_prop in E.
  assert (existsb (Bool.eqb c) y = true) as Hc.
  { apply existsb_exists. exists (nth i y false). split.
    - apply nth_In. lia.
    - rewrite E. apply eqb_reflx. }
  congruence.
Qed.

Section StratifiedFacts.
Variable G : np.BitGenerator.

Lemma per_class_one (ci : list nat) (n t : Z) (s : np.rng G) :
  0 <= n -> 0 <= t -> n + t = Z.of_nat (length ci) ->
  exists train test s',
    sk.per_class G [ci] [n] [t] [] [] s = (train, test, s')
    /\ Permutation (train ++ test) ci.
Proof.
  intros Hn Ht Hsum. cbn [sk.per_class].
  pose proof (permutation_Permutation G (length ci) s) as HP.
  destruct (np.permutation G (length ci) s) as [p s1]. cbn [fst] in HP.
  do 3 eexists. split; [reflexivity|]. cbn [app].
  apply class_slices; assumption.
Qed.

Lemma per_class_two (ci0 ci1 : list nat) (n0 n1 t0 t1 : Z) (s : np.rng G) :
  0 <= n0 -> 0 <= t0 -> n0 + t0 = Z.of_nat (length ci0) ->
  0 <= n1 -> 0 <= t1 -> n1 + t1 = Z.of_nat (length ci1) ->
  exists train test s',
    sk.per_class G [ci0; ci1] [n0; n1] [t0; t1] [] [] s = (train, test, s')
    /\ Permutation (train ++ test) (ci0 ++ ci1).
Proof.
  intros Hn0 Ht0 Hs0 Hn1 Ht1 Hs1. cbn [sk.per_class].
  pose proof (permutation_Permutation G (length ci0) s) as HP0.
  destruct (np.permutation G (length ci0) s) as [p0 s1]. cbn [fst] in HP0.
  pose proof (permutation_Permutation G (length ci1) s1) as HP1.
  destruct (np.permutation G (length ci1) s1) as [p1 s2]. cbn [fst] in HP1.
  do 3 eexists. split; [reflexivity|]. cbn [app].
  pose proof (class_slices ci0 p0 n0 t0 HP0 Hn0 Ht0 Hs0) as H0.
  pose proof (class_slices ci1 p1 n1 t1 HP1 Hn1 Ht1 Hs1) as H1.
  rewrite <- H0, <- H1 at 3.
  rewrite <- !app_assoc. apply Permutation_app_head.
  rewrite !app_assoc. apply Permutation_app_tail.
  apply Permutation_app_comm.
Qed.

(** The two shuffles that end the stratified split keep the partition. *)
Lemma final_shuffles (train test all : list nat) (s : np.rng G) :
  Permutation (train ++ test) all ->
  exists train' test',
    (let (train, s) := np.permutation_of G train s in
     let (test, s) := np.permutation_of G test s in
     Ok (train, test))
    = Ok (train', test')
    /\ Permutation all (train' ++ test')
    /\ length train' = length train /\ length test' = length test.
Proof.
  intros H.
  pose proof (permutation_of_Permutation G train s) as H1.
  destruct (np.permutation_of G train s) as [train' s1]. cbn [fst] in H1.
  pose proof (permutation_of_Permutation G test s1) as H2.
  destruct (np.permutation_of G test s1) as [test' s2]. cbn [fst] in H2.
  exists train', test'. split; [reflexivity|]. split; [|split].
  - rewrite H1, H2. symmetry. exact H.
  - apply Permutation_length. exact H1.
  - apply Permutation_length. exact H2.
Qed.

End StratifiedFacts.

Section StratifiedSplit.
Variable G : np.BitGenerator.

Lemma classes_cases (y : list bool) :
  sk.classes y
  = (if existsb (Bool.eqb false) y then [false] else [])
    ++ (if existsb (Bool.eqb true) y then [true] else []).
Proof.
  unfold sk.classes. cbn [List.filter].
  destruct (existsb (Bool.eqb false) y), (existsb (Bool.eqb true) y); reflexivity.
Qed.

(** Whenever the stratified split returns, its two index arrays together
    rearrange all positions. *)
Lemma stratified_split_partition (y : list bool) (n_train n_test : nat)
  (s : np.rng G) (train test : list nat) :
  (n_train + n_test = length y)%nat -> (1 <= n_train)%nat -> (1 <= n_test)%nat ->
  sk.stratified_split G y n_train n_test s = Ok (train, test) ->
  Permutation (seq 0 (length y)) (train ++ test).
Proof.
  intros Hsum Htr Hte. unfold sk.stratified_split.
  pose proof (class_positions_split y) as Hall.
  rewrite classes_cases.
  destruct (existsb (Bool.eqb false) y) eqn:Ef;
    destruct (existsb (Bool.eqb true) y) eqn:Et; cbn [app map length Nat.eqb].
  - (* both classes *)
    set (ci0 := sk.class_positions y false) in *.
    set (ci1 := sk.class_positions y true) in *.
    assert (length ci0 + length ci1 = length y)%nat as Hlen.
    { apply Permutation_length in Hall.
      rewrite List.length_seq, length_app in Hall. lia. }
    destruct (existsb (fun c : Z => c <? 2) _); [intros H; discriminate H|].
    destruct (Nat.ltb n_train 2); [intros H; discriminate H|].
    destruct (Nat.ltb n_test 2); [intros H; discriminate H|].
    destruct (approximate_mode_two G (Z.of_nat (length ci0))
                (Z.of_nat (length ci1)) (Z.of_nat n_train) s)
      as (r0 & r1 & E & Hr0 & Hr1 & Hr); [lia..|].
    destruct (sk.approximate_mode G _ (Z.of_nat n_train) s) as [n_i s1].
    cbn [fst] in E. subst n_i. cbn [combine map fst snd].
    destruct (approximate_mode_two G (Z.of_nat (length ci0) - r0)
                (Z.of_nat (length ci1) - r1) (Z.of_nat n_test) s1)
      as (t0 & t1 & E & Ht0 & Ht1 & Ht); [lia..|].
    destruct (sk.approximate_mode G _ (Z.of_nat n_test) s1) as [t_i s2].
    cbn [fst] in E. subst t_i.
    destruct (per_class_two G ci0 ci1 r0 r1 t0 t1 s2)
      as (tr & te & s3 & -> & HP); [lia..|].
    destruct (final_shuffles G tr te (ci0 ++ ci1) s3 HP)
      as (tr' & te' & -> & HP' & _).
    intros H. injection H as <- <-. rewrite Hall. exact HP'.
  - (* only False *)
    rewrite (class_positions_absent y true Et), app_nil_r in Hall.
    set (ci := sk.class_positions y false) in *.
    assert (length ci = length y) as Hlen.
    { apply Permutation_length in Hall. rewrite List.length_seq in Hall. lia. }
    destruct (existsb (fun c : Z => c <? 2) _); [intros H; discriminate H|].
    destruct (Nat.ltb n_train 1); [intros H; discriminate H|].
    destruct (Nat.ltb n_test 1); [intros H; discriminate H|].
    pose proof (approximate_mode_one G (Z.of_nat (length ci)) (Z.of_nat n_train) s)
      as E.
    destruct (sk.approximate_mode G _ (Z.of_nat n_train) s) as [n_i s1].
    cbn [fst] in E. rewrite E by lia. cbn [combine map fst snd].
    pose proof (approximate_mode_one G (Z.of_nat (length ci) - Z.of_nat n_train)
                  (Z.of_nat n_test) s1) as E'.
    destruct (sk.approximate_mode G _ (Z.of_nat n_test) s1) as [t_i s2].
    cbn [fst] in E'. rewrite E' by lia.
    destruct (per_class_one G ci (Z.of_nat n_train) (Z.of_nat n_test) s2)
      as (tr & te & s3 & -> & HP); [lia..|].
    destruct (final_shuffles G tr te ci s3 HP) as (tr' & te' & -> & HP' & _).
    intros H. injection H as <- <-. rewrite Hall. exact HP'.
  - (* only True *)
    rewrite (class_positions_absent y false Ef) in Hall. cbn [app] in Hall.
    set (ci := sk.class_positions y true) in *.
    assert (length ci = length y) as Hlen.
    { apply Permutation_length in Hall. rewrite List.length_seq in Hall. lia. }
    destruct (existsb (fun c : Z => c <? 2) _); [intros H; discriminate H|].
    destruct (Nat.ltb n_train 1); [intros H; discriminate H|].
    destruct (Nat.ltb n_test 1); [intros H; discriminate H|].
    pose proof (approximate_mode_one G (Z.of_nat (length ci)) (Z.of_nat n_train) s)
      as E.
    destruct (sk.approximate_mode G _ (Z.of_nat n_train) s) as [n_i s1].
    cbn [fst] in E. rewrite E by lia. cbn [combine map fst snd].
    pose proof (approximate_mode_one G (Z.of_nat (length ci) - Z.of_nat n_train)
                  (Z.of_nat n_test) s1) as E'.
    destruct (sk.approximate_mode G _ (Z.of_nat n_test) s1) as [t_i s2].
    cbn [fst] in E'. rewrite E' by lia.
    destruct (per_class_one G ci (Z.of_nat n_train) (Z.of_nat n_test) s2)
      as (tr & te & s3 & -> & HP); [lia..|].
    destruct (final_shuffles G tr te ci s3 HP) as (tr' & te' & -> & HP' & _).
    intros H. injection H as <- <-. rewrite Hall. exact HP'.
  - intros H. discriminate H.
Qed.

End StratifiedSplit.

Section TrainTestSplitFacts.
Variable G : np.BitGenerator.
Variable ceil_product : Q -> nat -> Z.

Lemma validate_sizes_ok (n_samples n_train n_test : nat) :
  (1 <= n_train)%nat -> (1 <= n_test)%nat ->
  (n_train + n_test = n_samples)%nat ->
  sk.validate_sizes n_samples n_train n_test = Ok tt.
Proof.
  intros Htr Hte Hsum. unfold sk.validate_sizes.
  replace (Nat.leb n_samples n_test) with false
    by (symmetry; apply Nat.leb_gt; lia).
  replace (Nat.eqb n_test 0) with false by (symmetry; apply Nat.eqb_neq; lia).
  replace (Nat.leb n_samples n_train) with false
    by (symmetry; apply Nat.leb_gt; lia).
  replace (Nat.eqb n_train 0) with false by (symmetry; apply Nat.eqb_neq; lia).
  replace (Nat.ltb n_samples (n_train + n_test)) with false
    by (symmetry; apply Nat.ltb_ge; lia).
  reflexivity.
Qed.

Lemma validate_sizes_inv (n_samples n_train n_test : nat) :
  sk.validate_sizes n_samples n_train n_test = Ok tt ->
  (1 <= n_train < n_samples)%nat /\ (1 <= n_test < n_samples)%nat
  /\ (n_train + n_test <= n_samples)%nat.
Proof.
  unfold sk.validate_sizes.
  destruct (Nat.leb n_samples n_test) eqn:E1; [discriminate|].
  destruct (Nat.eqb n_test 0) eqn:E2; [discriminate|].
  destruct (Nat.leb n_samples n_train) eqn:E3; [discriminate|].
  destruct (Nat.eqb n_train 0) eqn:E4; [discriminate|].
  destruct (Nat.ltb n_samples (n_train + n_test)) eqn:E5; [discriminate|].
  intros _. apply Nat.leb_gt in E1, E3. apply Nat.eqb_neq in E2, E4.
  apply Nat.ltb_ge in E5. lia.
Qed.

(** Whatever the ceiling of the float64 product is, sizes that pass both
    validations add up to the number of samples. *)
Lemma validated_sizes_sum (n_samples : nat) (test_size : Q)
  (n_train n_test : nat) :
  sk.validate_shuffle_split ceil_product n_samples test_size
  = Ok (n_train, n_test) ->
  sk.validate_sizes n_samples n_train n_test = Ok tt ->
  (1 <= n_train)%nat /\ (1 <= n_test)%nat
  /\ (n_train + n_test = n_samples)%nat.
Proof.
  intros Ev Hs. apply validate_sizes_inv in Hs.
  unfold sk.validate_shuffle_split in Ev.
  destruct (_ || _); [discriminate|].
  destruct (_ <? _); [discriminate|].
  destruct (_ =? _); [discriminate|].
  injection Ev as <- <-. lia.
Qed.

Lemma split_indices_partition (n_samples : nat) (test_size : Q)
  (random_state : Z) (stratify : option (list bool)) (train test : list nat) :
  sk.split_indices G ceil_product n_samples test_size random_state stratify
  = Ok (train, test) ->
  Permutation (seq 0 n_samples) (train ++ test).
Proof.
  unfold sk.split_indices.
  destruct (sk.validate_shuffle_split ceil_product n_samples test_size)
    as [[a b]|e] eqn:Ev; [|intros H; discriminate H].
  cbn [bind fst snd].
  destruct stratify as [labels|]; cbn [bind].
  - destruct (Nat.eqb (length labels) n_samples) eqn:El; cbn [negb];
      [|intros H; discriminate H].
    destruct (sk.validate_sizes n_samples a b) as [[]|e] eqn:Es; cbn [bind];
      [|intros H; discriminate H].
    destruct (validated_sizes_sum _ _ _ _ Ev Es) as (Ha & Hb & Hsum).
    destruct (np.RandomState G random_state) as [rs|e] eqn:Er; cbn [bind];
      [|intros H; discriminate H].
    apply Nat.eqb_eq in El. intros H. rewrite <- El.
    apply (stratified_split_partition G labels a b rs train test);
      [lia | assumption..].
  - destruct (sk.validate_sizes n_samples a b) as [[]|e] eqn:Es; cbn [bind];
      [|intros H; discriminate H].
    destruct (validated_sizes_sum _ _ _ _ Ev Es) as (Ha & Hb & Hsum).
    destruct (np.RandomState G random_state) as [rs|e] eqn:Er; cbn [bind];
      [|intros H; discriminate H].
    intros H. injection H as H.
    destruct (shuffle_split_partition G n_samples a b rs Hsum) as (HP & _).
    rewrite H in HP. exact HP.
Qed.

(** Exactly when the unstratified split returns, and the sizes it gives. *)
Lemma split_indices_unstratified (n_samples : nat) (test_size : Q)
  (random_state : Z) :
  (0 < test_size)%Q -> (test_size < 1)%Q ->
  Qceiling (test_size * inject_Z (Z.of_nat n_samples)) < Z.of_nat n_samples ->
  0 <= random_state < 4294967296 ->
  exists train test,
    sk.split_indices G sk.ceil_exact n_samples test_size random_state None
    = Ok (train, test)
    /\ Z.of_nat (length test)
       = Qceiling (test_size * inject_Z (Z.of_nat n_samples))
    /\ (length train + length test = n_samples)%nat.
Proof.
  intros H0 H1 Hc Hrs.
  set (c := Qceiling (test_size * inject_Z (Z.of_nat n_samples))) in *.
  assert (0 <= c) as Hc0.
  { unfold c. rewrite <- (Qceiling_Z 0). apply Qceiling_resp_le.
    assert (0 <= inject_Z (Z.of_nat n_samples))%Q
      by (change 0%Q with (inject_Z 0); rewrite <- Zle_Qle; lia).
    change (inject_Z 0) with 0%Q. nra. }
  assert (1 <= c) as Hc1.
  { destruct (Qceiling_share test_size (Z.of_nat n_samples) H0 H1) as [H _];
      [lia | exact H]. }
  assert (sk.validate_shuffle_split sk.ceil_exact n_samples test_size
          = Ok (Z.to_nat (Z.of_nat n_samples - c), Z.to_nat c)) as Ev.
  { apply validate_shuffle_split_inv. fold c.
    repeat split; try assumption; lia. }
  unfold sk.split_indices. rewrite Ev. cbn [bind fst snd].
  rewrite validate_sizes_ok by lia. cbn [bind].
  rewrite (RandomState_ok G random_state Hrs). cbn [bind].
  destruct (shuffle_split_partition G n_samples
              (Z.to_nat (Z.of_nat n_samples - c)) (Z.to_nat c)
              (np.seed G random_state)) as (_ & L1 & L2); [lia|].
  destruct (sk.shuffle_split G n_samples _ _ _) as [train test].
  cbn [fst snd] in *. exists train, test. split; [reflexivity|]. lia.
Qed.

Lemma split_indices_train_empty (n_samples : nat) (test_size : Q)
  (random_state : Z) (stratify : option (list bool)) :
  Z.of_nat n_samples <= Qceiling (test_size * inject_Z (Z.of_nat n_samples)) ->
  sk.split_indices G sk.ceil_exact n_samples test_size random_state stratify
  = Raise ValueError.
Proof.
  intros Hc. unfold sk.split_indices.
  destruct (sk.validate_shuffle_split sk.ceil_exact n_samples test_size)
    as [[a b]|e] eqn:Ev.
  - apply validate_shuffle_split_inv in Ev. lia.
  - unfold sk.validate_shuffle_split in Ev.
    destruct (_ || _); [injection Ev as <-; reflexivity|].
    destruct (_ <? _); [injection Ev as <-; reflexivity|].
    destruct (_ =? _); [injection Ev as <-; reflexivity | discriminate].
Qed.

Lemma train_test_split_inv {B C : Type} (X : list B) (y : list C)
  (test_size : Q) (random_state : Z) (stratify : option (list bool))
  (X_train X_test : list B) (y_train y_test : list C) :
  sk.train_test_split G ceil_product X y test_size random_state stratify
  = Ok (X_train, X_test, y_train, y_test) ->
  exists train test,
    sk.split_indices G ceil_product (length X) test_size random_state stratify
    = Ok (train, test)
    /\ Permutation (seq 0 (length X)) (train ++ test)
    /\ take_at train X = Ok X_train /\ take_at test X = Ok X_test
    /\ take_at train y = Ok y_train /\ take_at test y = Ok y_test
    /\ Permutation X (X_train ++ X_test)
    /\ Permutation y (y_train ++ y_test)
    /\ (length X_train + length X_test = length X)%nat
    /\ length y_train = length X_train /\ length y_test = length X_test.
Proof.
  unfold sk.train_test_split.
  destruct (Nat.eqb (length X) (length y)) eqn:El; cbn [negb];
    [|intros H; discriminate H].
  apply Nat.eqb_eq in El.
  destruct (sk.split_indices G ceil_product (length X) test_size random_state
              stratify)
    as [[train test]|e] eqn:Ei; cbn [bind fst snd]; [|intros H; discriminate H].
  pose proof (split_indices_partition _ _ _ _ _ _ Ei) as HP.
  destruct (take_split train test X HP) as (X1 & X2 & E1 & E2 & HX & L1 & L2).
  rewrite El in HP.
  destruct (take_split train test y HP) as (y1 & y2 & E3 & E4 & Hy & L3 & L4).
  rewrite E1, E2, E3, E4. cbn [bind]. intros H. injection H as <- <- <- <-.
  exists train, test. rewrite El.
  repeat split; try assumption; try reflexivity.
  - apply Permutation_length in HX. rewrite length_app in HX. lia.
  - lia.
  - lia.
Qed.

End TrainTestSplitFacts.

(** C3 as the code has it.  Whenever [train_test_split] returns, with or
    without [stratify], for any [test_size] and whatever the ceiling of
    the float64 product [test_size * n] is, its outputs are [X] and [y]
    taken at two index arrays that together hold every position once:
    the two parts share no position, their sizes sum to the size of the
    input, and together they are the input.  On a single record the
    70/30 split of cell 58 and the stratified 80/20 split of cell 49
    raise ValueError. *)
Theorem train_test_split_partition :
  (forall (G : np.BitGenerator) (ceil_product : Q -> nat -> Z)
          (B C : Type) (X : list B) (y : list C)
          (test_size : Q) (random_state : Z) (stratify : option (list bool))
          (X_train X_test : list B) (y_train y_test : list C),
      sk.train_test_split G ceil_product X y test_size random_state stratify
      = Ok (X_train, X_test, y_train, y_test) ->
      exists train test,
        Permutation (seq 0 (length X)) (train ++ test)
        /\ List.NoDup (train ++ test)
        /\ take_at train X = Ok X_train /\ take_at test X = Ok X_test
        /\ take_at train y = Ok y_train /\ take_at test y = Ok y_test
        /\ Permutation X (X_train ++ X_test)
        /\ Permutation y (y_train ++ y_test)
        /\ (length X_train + length X_test = length X)%nat
        /\ (length y_train + length y_test = length y)%nat)
  /\ (forall (G : np.BitGenerator) (x : list Q) (score : float64),
      Notebook.cell_58 G [x] [score] = Raise ValueError)
  /\ (forall (G : np.BitGenerator) (x : list Q) (label : bool),
      Notebook.cell_49 G [x] [label] = Raise ValueError).
Proof.
  split; [|split].
  - intros G cp B C X y ts rs st X1 X2 y1 y2 H.
    destruct (train_test_split_inv G cp X y ts rs st X1 X2 y1 y2 H)
      as (train & test & _ & HP & E1 & E2 & E3 & E4 & HX & Hy & HL & L1 & L2).
    exists train, test. repeat split; try assumption.
    + apply (Permutation_NoDup HP). apply seq_NoDup.
    + apply Permutation_length in Hy. rewrite length_app in Hy. lia.
  - intros G x score. reflexivity.
  - intros G x label. reflexivity.
Qed.

Lemma train_test_split_partition_witness :
  exists X_train X_test y_train y_test train test,
    Notebook.cell_58 np.mt19937
      (fst (Notebook.cell_44 Notebook.scenario_db))
      (snd (Notebook.cell_44 Notebook.scenario_db))
    = Ok (X_train, X_test, y_train, y_test)
    /\ y_test = map Num [-1; -8; -4]%Q
    /\ y_train = map Num [-9; -2; -7; 1; -5; -6; -3]%Q
    /\ Permutation (seq 0 10) (train ++ test)
    /\ take_at test (fst (Notebook.cell_44 Notebook.scenario_db)) = Ok X_test
    /\ (length X_train + length X_test = 10)%nat.
Proof.
  destruct train_test_split_partition as (H & _).
  destruct (Notebook.cell_58 np.mt19937
              (fst (Notebook.cell_44 Notebook.scenario_db))
              (snd (Notebook.cell_44 Notebook.scenario_db)))
    as [[[[X1 X2] y1] y2]|e] eqn:E; [|vm_compute in E; discriminate E].
  destruct (H _ _ _ _ _ _ _ _ _ _ _ _ _ E)
    as (train & test & HP & _ & _ & E2 & _ & _ & _ & _ & HL & _).
  exists X1, X2, y1, y2, train, test.
  vm_compute in E. injection E as <- <- <- <-.
  repeat split; try assumption; reflexivity.
Defined.

(** C3 as stated fails on a database of one record: the 70/30 split
    would leave the train part empty and raises ValueError instead of
    returning two subsets, and so does the stratified 80/20 split. *)
Lemma train_test_split_raises :
  Notebook.cell_58 np.mt19937 [[1%Q]] [Num (-9)] = Raise ValueError
  /\ Notebook.cell_49 np.mt19937 [[1%Q]] [true] = Raise ValueError.
Proof.
  split; vm_compute; reflexivity.
Qed.

(** * Further properties *)

(** ** Filtering by label (cells 32 and 34) *)

Section FilterByLabel.
Context {A : Type}.
Implicit Types (D : DataFrame A) (r : Z * A).

Lemma index_In (bad : Z * A -> bool) D (l : Z) :
  In l (pd.index (List.filter bad D)) <->
  exists r', In r' D /\ bad r' = true /\ fst r' = l.
Proof.
  unfold pd.index. rewrite in_map_iff. split.
  - intros (r' & E & H). apply filter_In in H. exists r'. tauto.
  - intros (r' & H & Hb & E). exists r'. split; [exact E|].
    apply filter_In. tauto.
Qed.

Lemma unique_label D r r' :
  List.NoDup (pd.index D) -> In r D -> In r' D -> fst r = fst r' -> r = r'.
Proof.
  unfold pd.index. induction D as [|x D IH]; simpl; [intros _ []|].
  intros Hnd Hr Hr' E. inversion Hnd as [|? ? Hx Hnd']; subst.
  destruct Hr as [->|Hr], Hr' as [->|Hr'].
  - reflexivity.
  - exfalso. apply Hx. rewrite E. apply in_map. exact Hr'.
  - exfalso. apply Hx. rewrite <- E. apply in_map. exact Hr.
  - apply IH; assumption.
Qed.

Lemma sum_mask_map (f : Z * A -> bool) D :
  Notebook.sum_mask (map f D) = length (List.filter f D).
Proof.
  unfold Notebook.sum_mask. induction D as [|x D IH]; simpl; [reflexivity|].
  destruct (f x); simpl; rewrite IH; reflexivity.
Qed.

Lemma filter_complement_length (f : Z * A -> bool) D :
  (length (List.filter (fun r => negb (f r)) D) + length (List.filter f D)
   = length D)%nat.
Proof.
  induction D as [|x D IH]; simpl; [reflexivity|].
  destruct (f x); simpl; lia.
Qed.

End FilterByLabel.

(** X1.  Cell 34 drops by label: a row is kept exactly when it is a row
    of the frame and no row with a positive score carries its label.  A
    row with a score of 0 or less is dropped as well when it shares its
    label with a row that has a positive score. *)
Theorem filter_positive_kept_iff (A : Type) (col : A -> float64)
  (D : DataFrame A) :
  exists D',
    Notebook.filter_positive col D = Ok D'
    /\ forall r,
        In r D' <->
        In r D
        /\ forall r', In r' D -> f64.gtb (col (snd r')) (Num 0) = true ->
                      fst r' <> fst r.
Proof.
  unfold Notebook.filter_positive, pd.gt0.
  rewrite getitem_mask_map, drop_own_labels.
  eexists. split; [reflexivity|]. intros r. rewrite filter_In.
  rewrite negb_true_iff, <- not_true_iff_false, mem_In, index_In.
  split.
  - intros [Hr Hno]. split; [exact Hr|]. intros r' Hr' Hpos E.
    apply Hno. exists r'. split; [exact Hr'|]. split; assumption.
  - intros [Hr Hno]. split; [exact Hr|]. intros (r' & Hr' & Hb & E).
    apply (Hno r' Hr'); assumption.
Qed.

(** X2.  Under an index without repeated labels cell 34 keeps exactly the
    rows whose score is not greater than 0 (a number of 0 or less, or
    NaN), in order, and drops as many rows as cell 32 has counted. *)
Theorem filter_positive_unique_index (A : Type) (col : A -> float64)
  (D : DataFrame A) :
  List.NoDup (pd.index D) ->
  Notebook.filter_positive col D
  = Ok (List.filter (fun r => negb (f64.gtb (col (snd r)) (Num 0))) D)
  /\ (length (List.filter (fun r => negb (f64.gtb (col (snd r)) (Num 0))) D)
      + Notebook.cell_32 col D = length D)%nat
  /\ Forall (fun r => col (snd r) = NaN
                      \/ exists q, col (snd r) = Num q /\ (q <= 0)%Q)
       (List.filter (fun r => negb (f64.gtb (col (snd r)) (Num 0))) D).
Proof.
  intros Hnd. split; [|split].
  - unfold Notebook.filter_positive, pd.gt0.
    rewrite getitem_mask_map, drop_own_labels. f_equal.
    apply filter_ext_in. intros r Hr.
    set (bad := fun r : Z * A => f64.gtb (col (snd r)) (Num 0)).
    destruct (f64.gtb (col (snd r)) (Num 0)) eqn:E; cbn [negb].
    + apply negb_false_iff, mem_In, index_In. exists r.
      split; [exact Hr|]. split; [|reflexivity]. exact E.
    + apply negb_true_iff, not_true_iff_false. intros Hm.
      apply mem_In, index_In in Hm. destruct Hm as (r' & Hr' & Hb & El).
      assert (r' = r) as -> by (apply (unique_label D); assumption).
      unfold bad in Hb. rewrite E in Hb. discriminate.
  - unfold Notebook.cell_32, pd.gt0. rewrite sum_mask_map.
    apply (filter_complement_length
             (fun r => f64.gtb (col (snd r)) (Num 0)) D).
  - apply List.Forall_forall. intros r Hr. apply filter_In in Hr.
    destruct Hr as [_ Hr]. apply negb_true_iff in Hr.
    apply gt0_false. exact Hr.
Qed.

Lemma filter_positive_unique_index_witness :
  Notebook.filter_positive Scores Notebook.missing_db
  = Ok [(0, mkCompound [1%Q; 0%Q] NaN []);
        (2, mkCompound [1%Q; 1%Q] (Num (-1)) [])]
  /\ Notebook.cell_32 Scores Notebook.missing_db = 1%nat.
Proof.
  destruct (filter_positive_unique_index Compound Scores Notebook.missing_db)
    as (H1 & H2 & _).
  { vm_compute. repeat constructor; simpl; intuition discriminate. }
  split; [exact H1|].
  change (length (List.filter
                    (fun r => negb (f64.gtb (Scores (snd r)) (Num 0)))
                    Notebook.missing_db)) with 2%nat in H2.
  change (length Notebook.missing_db) with 3%nat in H2. lia.
Defined.

(** X3.  On a frame without positive scores cell 34 has nothing to drop
    and returns the rows as they are, whatever the labels. *)
Theorem filter_positive_nothing_to_drop (A : Type) (col : A -> float64)
  (D : DataFrame A) :
  Forall (fun r => f64.gtb (col (snd r)) (Num 0) = false) D ->
  Notebook.filter_positive col D = Ok D /\ Notebook.cell_32 col D = 0%nat.
Proof.
  intros Hb. split.
  - unfold Notebook.filter_positive, pd.gt0. apply drop_selected_again. exact Hb.
  - unfold Notebook.cell_32, pd.gt0. rewrite sum_mask_map.
    rewrite (filter_none _ D Hb). reflexivity.
Qed.

Lemma filter_positive_nothing_to_drop_witness :
  Notebook.filter_positive Scores (firstn 9 Notebook.scenario_db)
  = Ok (firstn 9 Notebook.scenario_db)
  /\ Notebook.cell_32 Scores (firstn 9 Notebook.scenario_db) = 0%nat.
Proof.
  apply (filter_positive_nothing_to_drop Compound Scores
           (firstn 9 Notebook.scenario_db)).
  repeat constructor.
Defined.

(** ** Sampling (cells 28 and 39) *)

(** X4.  A sample larger than the frame is refused with ValueError, with
    or without a seed, before any random number is drawn: the global
    generator stays as it was.  Cell 28 therefore fails on a table of
    fewer than five rows, and cell 39 on one of fewer than [N_SAMPLE]. *)
Theorem sample_larger_than_frame (G : np.BitGenerator) :
  (forall (A : Type) (n : nat) (random_state : option Z) (ignore_index : bool)
          (D : DataFrame A) (global : np.rng G),
      (length D < n)%nat ->
      pd.sample G n random_state ignore_index D global
      = (Raise ValueError, global))
  /\ (forall (D : DataFrame Compound) (global : np.rng G),
      (length D < 5)%nat ->
      Notebook.cell_28 G D global = (Raise ValueError, global))
  /\ (forall (N_SAMPLE : nat) (D : DataFrame Compound) (global : np.rng G),
      (length D < N_SAMPLE)%nat ->
      Notebook.random_sel G N_SAMPLE D global = (Raise ValueError, global)).
Proof.
  assert (H : forall (A : Type) (n : nat) (random_state : option Z)
                     (ignore_index : bool) (D : DataFrame A) (global : np.rng G),
             (length D < n)%nat ->
             pd.sample G n random_state ignore_index D global
             = (Raise ValueError, global)).
  { intros A n rs ign D g Hn. unfold pd.sample, np.choice.
    apply Nat.ltb_lt in Hn. rewrite Hn.
    destruct rs as [sd|]; [|reflexivity].
    unfold np.RandomState. destruct (_ && _); reflexivity. }
  split; [exact H|]. split.
  - intros D g Hn. apply H. exact Hn.
  - intros N D g Hn. apply H. exact Hn.
Qed.

Lemma sample_larger_than_frame_witness :
  Notebook.cell_28 np.mt19937 (firstn 4 Notebook.scenario_db)
    (np.seed np.mt19937 0)
  = (Raise ValueError, np.seed np.mt19937 0).
Proof.
  destruct (sample_larger_than_frame np.mt19937) as (_ & H & _).
  apply H. simpl. lia.
Defined.

(** X5.  A sample without a seed of at most as many rows as the frame
    has returns that many rows of the frame, with their labels, taken at
    positions that are all different; the global generator is left in
    the state in which the shuffle of the positions left it. *)
Theorem sample_unseeded_rows (G : np.BitGenerator) (A : Type) (n : nat)
  (D : DataFrame A) (global : np.rng G) :
  (n <= length D)%nat ->
  exists R rest idx,
    pd.sample G n None false D global
    = (Ok R, snd (np.permutation G (length D) global))
    /\ take_at idx D = Ok R
    /\ List.NoDup idx
    /\ length R = n
    /\ Permutation D (R ++ rest).
Proof.
  intros Hn. unfold pd.sample, np.choice.
  apply Nat.ltb_ge in Hn. rewrite Hn. apply Nat.ltb_ge in Hn.
  pose proof (permutation_Permutation G (length D) global) as HP.
  destruct (np.permutation G (length D) global) as [p s']. cbn [fst snd] in *.
  assert (List.NoDup p) as Hnd
    by (eapply Permutation_NoDup; [exact HP | apply List.seq_NoDup]).
  rewrite <- (firstn_skipn n p) in HP, Hnd.
  destruct (take_split _ _ D HP) as (R1 & R2 & E1 & E2 & HR & L1 & L2).
  exists R1, R2, (firstn n p).
  split; [unfold pd.take; cbn [bind]; rewrite E1; reflexivity|].
  split; [exact E1|]. split; [|split].
  - apply NoDup_app_remove_r in Hnd. exact Hnd.
  - rewrite L1, length_firstn. apply Permutation_length in HP.
    rewrite List.length_seq, firstn_skipn in HP. lia.
  - exact HR.
Qed.

Lemma sample_unseeded_rows_witness :
  exists R rest idx,
    Notebook.cell_28 np.mt19937 Notebook.scenario_db (np.seed np.mt19937 0)
    = (Ok R, snd (np.permutation np.mt19937 10 (np.seed np.mt19937 0)))
    /\ take_at idx Notebook.scenario_db = Ok R
    /\ List.NoDup idx
    /\ length R = 5%nat
    /\ Permutation Notebook.scenario_db (R ++ rest).
Proof.
  apply (sample_unseeded_rows np.mt19937 Compound 5 Notebook.scenario_db
           (np.seed np.mt19937 0)).
  simpl. lia.
Defined.

(** ** The percentile threshold (cell 47) *)

Lemma lerp_between (a b t lo hi : Q) :
  (lo <= a <= hi)%Q -> (lo <= b <= hi)%Q -> (0 <= t <= 1)%Q ->
  (lo <= np.lerp a b t <= hi)%Q.
Proof.
  intros Ha Hb Ht. unfold np.lerp. destruct (Qle_bool (1 # 2) t); split; nra.
Qed.

(** The steps of the method 'linear' on numbers of which there is one
    at least, for a percentage between 0 and 100: either the last order
    statistic, or an interpolation between two neighbours. *)
Lemma linear_cases (arr : list Q) (q : Q) :
  arr <> [] -> (0 <= q <= 100)%Q ->
  let n := length arr in
  let vi := (inject_Z (Z.of_nat n - 1) * (q / 100))%Q in
  ((inject_Z (Z.of_nat n - 1) <= vi)%Q
   /\ np.linear arr q = nth (n - 1) arr 0%Q)
  \/ (exists i : nat,
        (i + 1 < n)%nat
        /\ Z.of_nat i = Qfloor vi
        /\ (0 <= vi - inject_Z (Z.of_nat i) <= 1)%Q
        /\ np.linear arr q
           = np.lerp (nth i arr 0%Q) (nth (i + 1) arr 0%Q)
               (vi - inject_Z (Z.of_nat i))).
Proof.
  intros Hne Hq n vi. unfold np.linear. fold n. fold vi.
  assert (1 <= n)%nat as Hn.
  { unfold n. destruct arr; [congruence | simpl; lia]. }
  destruct (Qle_bool (inject_Z (Z.of_nat n - 1)) vi) eqn:E.
  - left. split; [apply Qle_bool_iff; exact E|]. f_equal. lia.
  - right.
    assert (vi < inject_Z (Z.of_nat n - 1))%Q as Hlt.
    { apply Qnot_le_lt. intros H. apply Qle_bool_iff in H. congruence. }
    assert (0 <= inject_Z (Z.of_nat n - 1))%Q as Hn0
      by (change 0%Q with (inject_Z 0); rewrite <- Zle_Qle; lia).
    assert (0 <= q / 100)%Q as Hq0
      by (apply Qle_shift_div_l; [reflexivity | lra]).
    assert (0 <= vi)%Q as Hvi by (unfold vi; nra).
    pose proof (Qfloor_le vi) as Hfl. pose proof (Qlt_floor vi) as Hfu.
    assert (0 <= Qfloor vi) as Hf0.
    { rewrite <- (Qfloor_Z 0). apply Qfloor_resp_le. exact Hvi. }
    assert (Qfloor vi < Z.of_nat n - 1) as Hf1.
    { rewrite Zlt_Qlt. apply (Qle_lt_trans _ vi); assumption. }
    exists (Z.to_nat (Qfloor vi)).
    rewrite Z2Nat.id by exact Hf0.
    rewrite inject_Z_plus in Hfu. change (inject_Z 1) with 1%Q in Hfu.
    split; [lia|]. split; [reflexivity|]. split; [split; lra|].
    f_equal. f_equal. lia.
Qed.

(** Any two bounds of the numbers bound what 'linear' returns. *)
Lemma linear_bounded (arr : list Q) (q lo hi : Q) :
  arr <> [] -> (0 <= q <= 100)%Q ->
  Forall (fun x => (lo <= x <= hi)%Q) arr ->
  (lo <= np.linear arr q <= hi)%Q.
Proof.
  intros Hne Hq Hb.
  assert (forall k, (k < length arr)%nat -> (lo <= nth k arr 0%Q <= hi)%Q)
    as Hnth.
  { intros k Hk. rewrite List.Forall_forall in Hb. apply Hb.
    apply nth_In. lia. }
  destruct (linear_cases arr q Hne Hq) as [[_ E]|(i & Hi & _ & Hg & E)];
    rewrite E.
  - apply Hnth. destruct arr; [congruence | simpl; lia].
  - apply lerp_between; [apply Hnth; lia | apply Hnth; lia | exact Hg].
Qed.

Lemma sort_Forall (P : Q -> Prop) (a : list Q) :
  Forall P a -> Forall P (np.sort a).
Proof.
  intros H. eapply Permutation_Forall; [|exact H].
  symmetry. apply sort_Permutation.
Qed.

Lemma numbers_Some (a : list float64) (qs : list Q) :
  np.numbers a = Some qs <-> a = map Num qs.
Proof.
  revert qs. induction a as [|[q|] a IH]; intros qs; simpl.
  - split.
    + intros H. injection H as <-. reflexivity.
    + destruct qs; [reflexivity | discriminate].
  - destruct (np.numbers a) as [qs'|].
    + split.
      * intros H. injection H as <-. simpl. f_equal. apply IH. reflexivity.
      * destruct qs as [|q' qs]; [discriminate|]. simpl. intros H.
        injection H as <- H. apply IH in H. injection H as <-. reflexivity.
    + split; [discriminate|].
      destruct qs as [|q' qs]; [discriminate|]. simpl. intros H.
      injection H as <- H. apply IH in H. discriminate.
  - split; [discriminate|]. destruct qs; discriminate.
Qed.

Lemma numbers_None (a : list float64) :
  np.numbers a = None <-> In NaN a.
Proof.
  induction a as [|[q|] a IH]; simpl.
  - split; [discriminate | intros []].
  - destruct (np.numbers a).
    + split; [discriminate|]. intros [H|H]; [discriminate|].
      apply IH in H. discriminate.
    + split; [|reflexivity]. intros _. right. apply IH. reflexivity.
  - split; [|reflexivity]. intros _. left. reflexivity.
Qed.

(** What [np.percentile(y, 30)] gives on a list that is not empty. *)
Lemma percentile_30 (y : list float64) :
  y <> [] ->
  (In NaN y /\ np.percentile y 30 = Ok NaN)
  \/ (exists qs, y = map Num qs
                 /\ np.percentile y 30 = Ok (Num (np.linear (np.sort qs) 30))).
Proof.
  intros Hne. unfold np.percentile.
  change (np.Qltb 30 0 || np.Qltb 100 30) with false. cbv iota.
  destruct y as [|x y]; [congruence|].
  destruct (np.numbers (x :: y)) as [qs|] eqn:E.
  - right. exists qs. split; [apply numbers_Some; exact E | reflexivity].
  - left. split; [apply numbers_None; exact E | reflexivity].
Qed.

Lemma sum_mask_map_filter {B : Type} (f : B -> bool) (l : list B) :
  Notebook.sum_mask (map f l) = length (List.filter f l).
Proof.
  unfold Notebook.sum_mask. induction l as [|x l IH]; simpl; [reflexivity|].
  destruct (f x); simpl; rewrite IH; reflexivity.
Qed.

Lemma filter_length_le {B : Type} (f : B -> bool) (l : list B) :
  (length (List.filter f l) <= length l)%nat.
Proof.
  induction l as [|x l IH]; simpl; [lia|]. destruct (f x); simpl; lia.
Qed.

Lemma filter_length_Permutation {B : Type} (f : B -> bool) (l l' : list B) :
  Permutation l l' -> length (List.filter f l) = length (List.filter f l').
Proof.
  induction 1 as [|x l l' _ IH|x y l|l l' l'' _ IH1 _ IH2]; simpl.
  - reflexivity.
  - destruct (f x); simpl; rewrite IH; reflexivity.
  - destruct (f x), (f y); reflexivity.
  - rewrite IH1. exact IH2.
Qed.

Lemma ltb_NaN (x : float64) : f64.ltb x NaN = false.
Proof. destruct x; reflexivity. Qed.

(** X7.  Cell 47 on the list of scores.  On an empty list
    [np.percentile] raises IndexError.  On a list that is not empty the
    cell returns a threshold and one label per score, and the two counts
    that cell 47 prints add up to the number of scores.  When a score is
    NaN the threshold is NaN and no score is labelled positive. *)
Theorem cell_47_label_counts :
  Notebook.cell_47 [] = Raise IndexError
  /\ forall y : list float64,
      y <> [] ->
      exists threshold y_cls,
        Notebook.cell_47 y = Ok (threshold, y_cls)
        /\ length y_cls = length y
        /\ (Notebook.positive_samples y_cls + Notebook.negative_samples y_cls
            = length y)%nat
        /\ (In NaN y ->
            threshold = NaN /\ Notebook.positive_samples y_cls = 0%nat
            /\ Forall (fun label => label = false) y_cls).
Proof.
  split; [reflexivity|]. intros y Hne.
  assert (forall t, Notebook.positive_samples
                      (map (fun score => f64.ltb score t) y)
                    + Notebook.negative_samples
                        (map (fun score => f64.ltb score t) y)
                    = length y)%nat as Hsum.
  { intros t. unfold Notebook.negative_samples, Notebook.positive_samples.
    rewrite sum_mask_map_filter, length_map.
    pose proof (filter_length_le (fun score => f64.ltb score t) y). lia. }
  unfold Notebook.cell_47.
  destruct (percentile_30 y Hne) as [[Hnan E]|(qs & Ey & E)]; rewrite E;
    cbn [bind]; eexists; eexists; (split; [reflexivity|]).
  - split; [apply length_map|]. split; [apply Hsum|].
    intros _. split; [reflexivity|]. split.
    + unfold Notebook.positive_samples. rewrite sum_mask_map_filter.
      rewrite filter_none_gen; [reflexivity|].
      apply List.Forall_forall. intros x _. apply ltb_NaN.
    + apply List.Forall_forall. intros l Hl. apply in_map_iff in Hl.
      destruct Hl as (x & <- & _). apply ltb_NaN.
  - split; [apply length_map|]. split; [apply Hsum|].
    intros H. exfalso. rewrite Ey in H. apply in_map_iff in H.
    destruct H as (q & Hq & _). discriminate.
Qed.

Lemma cell_47_label_counts_witness :
  exists threshold y_cls,
    Notebook.cell_47 [Num (-9); NaN; Num (-7)] = Ok (threshold, y_cls)
    /\ threshold = NaN /\ y_cls = [false; false; false]
    /\ Notebook.positive_samples y_cls = 0%nat
    /\ Notebook.negative_samples y_cls = 3%nat.
Proof.
  destruct cell_47_label_counts as (_ & H).
  destruct (H [Num (-9); NaN; Num (-7)]) as (t & y_cls & E & _ & _ & Hn);
    [discriminate|].
  destruct Hn as (Et & _ & _); [right; left; reflexivity|].
  exists t, y_cls. split; [exact E|]. split; [exact Et|].
  vm_compute in E. injection E as _ <-. repeat split.
Defined.

(** ** The split for the regressor (cells 44, 58 and 59) *)

Lemma take_at_map {B C : Type} (f : B -> C) (ps : list nat) (l : list B) :
  take_at ps (map f l)
  = (try R <- take_at ps l in Ok (map f R)).
Proof.
  induction ps as [|i ps IH]; simpl; [reflexivity|].
  rewrite nth_error_map. destruct (nth_error l i) as [x|]; simpl; [|reflexivity].
  rewrite IH. destruct (take_at ps l); reflexivity.
Qed.

Lemma ceiling_share_tenths (k : Z) (n : nat) :
  Qceiling ((k # 10) * inject_Z (Z.of_nat n)) = (k * Z.of_nat n + 9) / 10.
Proof.
  unfold Qceiling.
  assert (- ((k # 10) * inject_Z (Z.of_nat n)) == (- (k * Z.of_nat n)) # 10)%Q
    as E.
  { unfold Qeq, inject_Z, Qmult, Qopp. simpl Qnum. simpl Qden. lia. }
  rewrite (Qfloor_comp _ _ E). unfold Qfloor.
  generalize (k * Z.of_nat n). intros m. change (Z.pos 10) with 10.
  Z.div_mod_to_equations. lia.
Qed.

Section RegressorSplit.
Variable G : np.BitGenerator.

(** X8.  Cells 44 and 58 on a sample of [n] compounds.  With two
    compounds or more the split returns: the test part has
    [ceil(0.3 n)] rows and the train part the other ones, neither is
    empty, every compound is in exactly one part, and in both parts the
    fingerprint at a position and the score at that position belong to
    the same compound.  With fewer than two compounds it raises
    ValueError. *)
Theorem cell_58_after_cell_44 (random_sel : DataFrame Compound) :
  let X := fst (Notebook.cell_44 random_sel) in
  let y := snd (Notebook.cell_44 random_sel) in
  let n := length random_sel in
  ((2 <= n)%nat ->
   exists train test : DataFrame Compound,
     Notebook.cell_58 G X y
     = Ok (map (fun r => RDKit (snd r)) train,
           map (fun r => RDKit (snd r)) test,
           map (fun r => Scores (snd r)) train,
           map (fun r => Scores (snd r)) test)
     /\ Permutation random_sel (train ++ test)
     /\ length test = ((3 * n + 9) / 10)%nat
     /\ length train = (n - (3 * n + 9) / 10)%nat
     /\ (1 <= length train)%nat /\ (1 <= length test)%nat)
  /\ ((n < 2)%nat -> Notebook.cell_58 G X y = Raise ValueError).
Proof.
  intros X y n.
  assert (length X = n) as HX by apply length_map.
  assert (length y = n) as Hy by apply length_map.
  assert (Qceiling ((30 # 100) * inject_Z (Z.of_nat n))
          = Z.of_nat ((3 * n + 9) / 10)) as Hc.
  { assert ((30 # 100) * inject_Z (Z.of_nat n)
            == (3 # 10) * inject_Z (Z.of_nat n))%Q as E
      by (apply Qmult_comp; reflexivity).
    rewrite (Qceiling_comp _ _ E), ceiling_share_tenths.
    rewrite Nat2Z.inj_div. f_equal. lia. }
  assert (Z.of_nat ((3 * n + 9) / 10) = (3 * Z.of_nat n + 9) / 10) as Hd
    by (rewrite Nat2Z.inj_div; f_equal; lia).
  unfold Notebook.cell_58, sk.train_test_split.
  rewrite HX, Hy, Nat.eqb_refl. cbn [negb].
  split.
  - intros Hn.
    destruct (split_indices_unstratified G n (30 # 100) 42)
      as (itrain & itest & Ei & Lt & Ls);
      [reflexivity | reflexivity | rewrite Hc, Hd; Z.div_mod_to_equations; lia
      | lia |].
    rewrite Ei. cbn [bind fst snd].
    pose proof (split_indices_partition G _ _ _ _ _ _ _ Ei) as HP.
    destruct (take_split itrain itest random_sel HP)
      as (train & test & E1 & E2 & Hperm & L1 & L2).
    unfold X, y, Notebook.cell_44. cbn [fst snd].
    rewrite !take_at_map, E1, E2. cbn [bind].
    exists train, test. split; [reflexivity|]. split; [exact Hperm|].
    rewrite Hc in Lt.
    assert (length test = ((3 * n + 9) / 10)%nat) as Lte by lia.
    assert (Z.of_nat (length test) < Z.of_nat n)
      by (rewrite Lte, Hd; Z.div_mod_to_equations; lia).
    assert (1 <= Z.of_nat (length test))
      by (rewrite Lte, Hd; Z.div_mod_to_equations; lia).
    repeat split; lia.
  - intros Hn.
    rewrite (split_indices_train_empty G n (30 # 100) 42 None); [reflexivity|].
    rewrite Hc, Hd. Z.div_mod_to_equations. lia.
Qed.

End RegressorSplit.

Lemma cell_58_after_cell_44_witness :
  exists train test : DataFrame Compound,
    Notebook.cell_58 np.mt19937
      (fst (Notebook.cell_44 Notebook.scenario_db))
      (snd (Notebook.cell_44 Notebook.scenario_db))
    = Ok (map (fun r => RDKit (snd r)) train,
          map (fun r => RDKit (snd r)) test,
          map (fun r => Scores (snd r)) train,
          map (fun r => Scores (snd r)) test)
    /\ Permutation Notebook.scenario_db (train ++ test)
    /\ length test = 3%nat
    /\ length train = 7%nat
    /\ (1 <= length train)%nat /\ (1 <= length test)%nat.
Proof.
  apply (cell_58_after_cell_44 np.mt19937 Notebook.scenario_db).
  vm_compute. lia.
Defined.

(** ** The stratified split (cells 49 and 50) *)

Section StratifiedShares.
Variable G : np.BitGenerator.

(** The share of a class is its proportional share rounded down or up. *)
Lemma approximate_mode_two_near (c0 c1 d : Z) (s : np.rng G) :
  0 <= c0 -> 0 <= c1 -> 0 < c0 + c1 -> 0 <= d <= c0 + c1 ->
  exists r0 r1,
    fst (sk.approximate_mode G [c0; c1] d s) = [r0; r1]
    /\ 0 <= r0 <= c0 /\ 0 <= r1 <= c1 /\ r0 + r1 = d
    /\ c1 * d - (c0 + c1) < r1 * (c0 + c1) < c1 * d + (c0 + c1).
Proof.
  intros H0 H1 HT Hd. unfold sk.approximate_mode. cbn [map fold_right].
  rewrite !Z.add_0_r.
  set (x0 := (inject_Z c0 / inject_Z (c0 + c1) * inject_Z d)%Q).
  set (x1 := (inject_Z c1 / inject_Z (c0 + c1) * inject_Z d)%Q).
  destruct (share_bounds c0 (c0 + c1) d) as [Hx0 Hx0']; [lia..|]. fold x0 in Hx0, Hx0'.
  destruct (share_bounds c1 (c0 + c1) d) as [Hx1 Hx1']; [lia..|]. fold x1 in Hx1, Hx1'.
  assert (~ inject_Z (c0 + c1) == 0)%Q as HT0.
  { change 0%Q with (inject_Z 0). rewrite inject_Z_injective. lia. }
  assert (x0 + x1 == inject_Z d)%Q as Hsum.
  { unfold x0, x1. rewrite inject_Z_plus. field. rewrite <- inject_Z_plus.
    exact HT0. }
  assert (x1 * inject_Z (c0 + c1) == inject_Z (c1 * d))%Q as Hx1T.
  { unfold x1. rewrite inject_Z_mult. field. exact HT0. }
  clearbody x0 x1.
  assert (forall r1 : Z,
             (x1 - 1 < inject_Z r1)%Q -> (inject_Z r1 < x1 + 1)%Q ->
             c1 * d - (c0 + c1) < r1 * (c0 + c1) < c1 * d + (c0 + c1)) as Hnear.
  { intros r1 Hlo Hhi.
    assert (0 < inject_Z (c0 + c1))%Q as HTq
      by (change 0%Q with (inject_Z 0); rewrite <- Zlt_Qlt; lia).
    rewrite inject_Z_mult in Hx1T.
    split; rewrite Zlt_Qlt.
    - replace (c1 * d - (c0 + c1)) with (c1 * d + - (c0 + c1)) by lia.
      rewrite inject_Z_plus, inject_Z_opp, !inject_Z_mult. nra.
    - rewrite inject_Z_plus, !inject_Z_mult. nra. }
  destruct (floor_share x0 c0 Hx0 Hx0') as [Hf0 Hr0].
  destruct (floor_share x1 c1 Hx1 Hx1') as [Hf1 Hr1].
  pose proof (Qfloor_le x0) as Hl0. pose proof (Qlt_floor x0) as Hu0.
  pose proof (Qfloor_le x1) as Hl1. pose proof (Qlt_floor x1) as Hu1.
  rewrite inject_Z_plus in Hu0, Hu1.
  set (f0 := Qfloor x0) in *. set (f1 := Qfloor x1) in *.
  change (inject_Z 1) with 1%Q in Hu0, Hu1.
  assert (0 <= d - (f0 + f1) <= 1) as Hneed.
  { split.
    - assert (inject_Z (f0 + f1) <= inject_Z d)%Q as H
        by (rewrite inject_Z_plus; lra).
      rewrite <- Zle_Qle in H. lia.
    - assert (inject_Z d < inject_Z (f0 + f1 + 2))%Q as H
        by (rewrite !inject_Z_plus; change (inject_Z 2) with 2%Q; lra).
      rewrite <- Zlt_Qlt in H. lia. }
  destruct (d - (f0 + f1) >? 0) eqn:E.
  - assert (d - (f0 + f1) = 1) as Hone by lia. rewrite Hone.
    assert (inject_Z d == inject_Z f0 + inject_Z f1 + 1)%Q as Hd1.
    { replace d with (f0 + f1 + 1) by lia. rewrite !inject_Z_plus. reflexivity. }
    assert (inject_Z f0 < x0)%Q as Hp0 by lra.
    assert (inject_Z f1 < x1)%Q as Hp1 by lra.
    destruct (remainder_values_head
                [(x0 - inject_Z f0)%Q; (x1 - inject_Z f1)%Q])
      as (v & vs & -> & Hv); [discriminate|].
    destruct (add_by_remainder_one G v vs
                [(x0 - inject_Z f0)%Q; (x1 - inject_Z f1)%Q] [f0; f1] s Hv)
      as (j & f & Hj & _ & ->); [reflexivity|].
    destruct j as [|[|j]]; simpl in Hj; [| |discriminate];
      injection Hj as <-; simpl.
    + exists (f0 + 1), f1. specialize (Hr0 Hp0).
      split; [reflexivity|]. split; [lia|]. split; [lia|]. split; [lia|].
      apply Hnear; lra.
    + exists f0, (f1 + 1). specialize (Hr1 Hp1).
      split; [reflexivity|]. split; [lia|]. split; [lia|]. split; [lia|].
      apply Hnear; rewrite inject_Z_plus; change (inject_Z 1) with 1%Q; lra.
  - exists f0, f1. cbn [fst].
    split; [reflexivity|]. split; [lia|]. split; [lia|]. split; [lia|].
    apply Hnear; lra.
Qed.

End StratifiedShares.

Lemma filter_all_gen {B : Type} (f : B -> bool) (l : list B) :
  Forall (fun x => f x = true) l -> List.filter f l = l.
Proof.
  induction 1 as [|x l Hx _ IH]; simpl; [reflexivity|].
  rewrite Hx, IH. reflexivity.
Qed.

Lemma Forall_firstn_gen {B : Type} (P : B -> Prop) (k : nat) (l : list B) :
  Forall P l -> Forall P (firstn k l).
Proof.
  intros H. rewrite <- (firstn_skipn k l) in H.
  apply List.Forall_app in H. apply H.
Qed.

Lemma Forall_skipn_gen {B : Type} (P : B -> Prop) (k : nat) (l : list B) :
  Forall P l -> Forall P (skipn k l).
Proof.
  intros H. rewrite <- (firstn_skipn k l) in H.
  apply List.Forall_app in H. apply H.
Qed.

Lemma class_positions_label (y : list bool) (c : bool) :
  Forall (fun i => nth i y false = c) (sk.class_positions y c).
Proof.
  apply List.Forall_forall. intros i Hi. unfold sk.class_positions in Hi.
  apply filter_In in Hi. destruct Hi as [_ Hi]. apply eqb_prop. exact Hi.
Qed.

(** The two slices of one class: their sizes, and how many of their
    positions a test [f] accepts that is constant on the class. *)
Lemma class_slices_count (f : nat -> bool) (b : bool) (ci p : list nat) (n t : Z) :
  Permutation (seq 0 (length ci)) p ->
  0 <= n -> 0 <= t -> n + t = Z.of_nat (length ci) ->
  Forall (fun i => f i = b) ci ->
  let tr := firstn (Z.to_nat n) (sk.take_clip ci p) in
  let te := firstn (Z.to_nat t) (skipn (Z.to_nat n) (sk.take_clip ci p)) in
  length tr = Z.to_nat n /\ length te = Z.to_nat t
  /\ length (List.filter f tr) = (if b then Z.to_nat n else 0%nat)
  /\ length (List.filter f te) = (if b then Z.to_nat t else 0%nat).
Proof.
  intros HP Hn Ht Hsum Hf tr te.
  pose proof (take_clip_Permutation ci p HP) as Hc.
  assert (length (sk.take_clip ci p) = length ci) as Hlen
    by (apply Permutation_length; exact Hc).
  assert (Forall (fun i => f i = b) (sk.take_clip ci p)) as Hall
    by (eapply Permutation_Forall; [symmetry; exact Hc | exact Hf]).
  assert (length tr = Z.to_nat n) as Ltr
    by (unfold tr; rewrite length_firstn; lia).
  assert (length te = Z.to_nat t) as Lte
    by (unfold te; rewrite length_firstn, length_skipn; lia).
  assert (Forall (fun i => f i = b) tr) as Htr
    by (apply Forall_firstn_gen; exact Hall).
  assert (Forall (fun i => f i = b) te) as Hte
    by (apply Forall_firstn_gen, Forall_skipn_gen; exact Hall).
  split; [exact Ltr|]. split; [exact Lte|].
  destruct b.
  - rewrite !filter_all_gen by assumption. split; assumption.
  - rewrite !filter_none_gen by assumption. split; reflexivity.
Qed.

Section StratifiedCounts.
Variable G : np.BitGenerator.

(** What the stratified split returns on boolean labels: two index
    arrays of the sizes asked for that together hold every position
    once, and of the positions labelled True a share in [train] that is
    less than one away from their proportional share. *)
Lemma stratified_split_counts (y : list bool) (n_train n_test : nat)
  (s : np.rng G) (train test : list nat) :
  (n_train + n_test = length y)%nat -> (1 <= n_train)%nat -> (1 <= n_test)%nat ->
  sk.stratified_split G y n_train n_test s = Ok (train, test) ->
  let f := fun i => nth i y false in
  let p := length (sk.class_positions y true) in
  let r := length (List.filter f train) in
  Permutation (seq 0 (length y)) (train ++ test)
  /\ length train = n_train /\ length test = n_test
  /\ (r + length (List.filter f test) = p)%nat
  /\ Z.of_nat p * Z.of_nat n_train - Z.of_nat (length y)
     < Z.of_nat r * Z.of_nat (length y)
     < Z.of_nat p * Z.of_nat n_train + Z.of_nat (length y).
Proof.
  intros Hsum Htr Hte Hret f p r.
  pose proof (stratified_split_partition G y n_train n_test s train test
                Hsum Htr Hte Hret) as Hperm.
  split; [exact Hperm|].
  revert Hret. unfold sk.stratified_split.
  pose proof (class_positions_split y) as Hall.
  pose proof (class_positions_label y false) as Hf0.
  pose proof (class_positions_label y true) as Hf1.
  fold f in Hf0, Hf1.
  rewrite classes_cases.
  destruct (existsb (Bool.eqb false) y) eqn:Ef;
    destruct (existsb (Bool.eqb true) y) eqn:Et; cbn [app map length Nat.eqb].
  - (* both classes *)
    fold p. set (ci0 := sk.class_positions y false) in *.
    set (ci1 := sk.class_positions y true) in *.
    assert (length ci0 + length ci1 = length y)%nat as Hlen.
    { apply Permutation_length in Hall.
      rewrite List.length_seq, length_app in Hall. lia. }
    destruct (existsb (fun c : Z => c <? 2) _); [intros H; discriminate H|].
    destruct (Nat.ltb n_train 2); [intros H; discriminate H|].
    destruct (Nat.ltb n_test 2); [intros H; discriminate H|].
    destruct (approximate_mode_two_near G (Z.of_nat (length ci0))
                (Z.of_nat (length ci1)) (Z.of_nat n_train) s)
      as (r0 & r1 & E & Hr0 & Hr1 & Hr & Hnear); [lia..|].
    destruct (sk.approximate_mode G _ (Z.of_nat n_train) s) as [n_i s1].
    cbn [fst] in E. subst n_i. cbn [combine map fst snd].
    destruct (approximate_mode_two G (Z.of_nat (length ci0) - r0)
                (Z.of_nat (length ci1) - r1) (Z.of_nat n_test) s1)
      as (t0 & t1 & E & Ht0 & Ht1 & Ht); [lia..|].
    destruct (sk.approximate_mode G _ (Z.of_nat n_test) s1) as [t_i s2].
    cbn [fst] in E. subst t_i. cbn [sk.per_class].
    pose proof (permutation_Permutation G (length ci0) s2) as HP0.
    destruct (np.permutation G (length ci0) s2) as [p0 s3]. cbn [fst] in HP0.
    pose proof (permutation_Permutation G (length ci1) s3) as HP1.
    destruct (np.permutation G (length ci1) s3) as [p1 s4]. cbn [fst] in HP1.
    destruct (class_slices_count f false ci0 p0 r0 t0 HP0)
      as (A1 & A2 & A3 & A4); [lia.. | exact Hf0 |].
    destruct (class_slices_count f true ci1 p1 r1 t1 HP1)
      as (B1 & B2 & B3 & B4); [lia.. | exact Hf1 |].
    cbn [app].
    pose proof (permutation_of_Permutation G
                  (firstn (Z.to_nat r0) (sk.take_clip ci0 p0)
                   ++ firstn (Z.to_nat r1) (sk.take_clip ci1 p1)) s4) as Q1.
    destruct (np.permutation_of G _ s4) as [train' s5]. cbn [fst] in Q1.
    pose proof (permutation_of_Permutation G
                  (firstn (Z.to_nat t0)
                     (skipn (Z.to_nat r0) (sk.take_clip ci0 p0))
                   ++ firstn (Z.to_nat t1)
                        (skipn (Z.to_nat r1) (sk.take_clip ci1 p1))) s5) as Q2.
    destruct (np.permutation_of G _ s5) as [test' s6]. cbn [fst] in Q2.
    intros H. injection H as <- <-.
    assert (r = Z.to_nat r1) as Er.
    { unfold r. rewrite (filter_length_Permutation f _ _ Q1).
      rewrite List.filter_app, length_app, A3, B3. reflexivity. }
    assert (length (List.filter f test') = Z.to_nat t1) as Et1.
    { rewrite (filter_length_Permutation f _ _ Q2).
      rewrite List.filter_app, length_app, A4, B4. reflexivity. }
    rewrite (Permutation_length Q1), (Permutation_length Q2), !length_app.
    rewrite A1, A2, B1, B2, Et1, Er.
    split; [lia|]. split; [lia|]. split; [unfold p; lia|].
    unfold p. rewrite Z2Nat.id by lia.
    replace (Z.of_nat (length y))
      with (Z.of_nat (length ci0) + Z.of_nat (length ci1)) by lia.
    exact Hnear.
  - (* only False *)
    rewrite (class_positions_absent y true Et), app_nil_r in Hall.
    unfold p, r. rewrite (class_positions_absent y true Et).
    set (ci := sk.class_positions y false) in *.
    assert (length ci = length y) as Hlen.
    { apply Permutation_length in Hall. rewrite List.length_seq in Hall. lia. }
    destruct (existsb (fun c : Z => c <? 2) _); [intros H; discriminate H|].
    destruct (Nat.ltb n_train 1); [intros H; discriminate H|].
    destruct (Nat.ltb n_test 1); [intros H; discriminate H|].
    pose proof (approximate_mode_one G (Z.of_nat (length ci)) (Z.of_nat n_train) s)
      as E.
    destruct (sk.approximate_mode G _ (Z.of_nat n_train) s) as [n_i s1].
    cbn [fst] in E. rewrite E by lia. cbn [combine map fst snd].
    pose proof (approximate_mode_one G (Z.of_nat (length ci) - Z.of_nat n_train)
                  (Z.of_nat n_test) s1) as E'.
    destruct (sk.approximate_mode G _ (Z.of_nat n_test) s1) as [t_i s2].
    cbn [fst] in E'. rewrite E' by lia. cbn [sk.per_class].
    pose proof (permutation_Permutation G (length ci) s2) as HP0.
    destruct (np.permutation G (length ci) s2) as [p0 s3]. cbn [fst] in HP0.
    destruct (class_slices_count f false ci p0 (Z.of_nat n_train)
                (Z.of_nat n_test) HP0)
      as (A1 & A2 & A3 & A4); [lia.. | exact Hf0 |].
    cbn [app].
    pose proof (permutation_of_Permutation G
                  (firstn (Z.to_nat (Z.of_nat n_train)) (sk.take_clip ci p0)) s3)
      as Q1.
    destruct (np.permutation_of G _ s3) as [train' s5]. cbn [fst] in Q1.
    pose proof (permutation_of_Permutation G
                  (firstn (Z.to_nat (Z.of_nat n_test))
                     (skipn (Z.to_nat (Z.of_nat n_train)) (sk.take_clip ci p0)))
                  s5) as Q2.
    destruct (np.permutation_of G _ s5) as [test' s6]. cbn [fst] in Q2.
    intros H. injection H as <- <-.
    rewrite (filter_length_Permutation f _ _ Q1), A3.
    rewrite (filter_length_Permutation f _ _ Q2), A4.
    rewrite (Permutation_length Q1), (Permutation_length Q2), A1, A2.
    simpl length. repeat split; lia.
  - (* only True *)
    rewrite (class_positions_absent y false Ef) in Hall. cbn [app] in Hall.
    unfold p, r.
    set (ci := sk.class_positions y true) in *.
    assert (length ci = length y) as Hlen.
    { apply Permutation_length in Hall. rewrite List.length_seq in Hall. lia. }
    destruct (existsb (fun c : Z => c <? 2) _); [intros H; discriminate H|].
    destruct (Nat.ltb n_train 1); [intros H; discriminate H|].
    destruct (Nat.ltb n_test 1); [intros H; discriminate H|].
    pose proof (approximate_mode_one G (Z.of_nat (length ci)) (Z.of_nat n_train) s)
      as E.
    destruct (sk.approximate_mode G _ (Z.of_nat n_train) s) as [n_i s1].
    cbn [fst] in E. rewrite E by lia. cbn [combine map fst snd].
    pose proof (approximate_mode_one G (Z.of_nat (length ci) - Z.of_nat n_train)
                  (Z.of_nat n_test) s1) as E'.
    destruct (sk.approximate_mode G _ (Z.of_nat n_test) s1) as [t_i s2].
    cbn [fst] in E'. rewrite E' by lia. cbn [sk.per_class].
    pose proof (permutation_Permutation G (length ci) s2) as HP0.
    destruct (np.permutation G (length ci) s2) as [p0 s3]. cbn [fst] in HP0.
    destruct (class_slices_count f true ci p0 (Z.of_nat n_train)
                (Z.of_nat n_test) HP0)
      as (A1 & A2 & A3 & A4); [lia.. | exact Hf1 |].
    cbn [app].
    pose proof (permutation_of_Permutation G
                  (firstn (Z.to_nat (Z.of_nat n_train)) (sk.take_clip ci p0)) s3)
      as Q1.
    destruct (np.permutation_of G _ s3) as [train' s5]. cbn [fst] in Q1.
    pose proof (permutation_of_Permutation G
                  (firstn (Z.to_nat (Z.of_nat n_test))
                     (skipn (Z.to_nat (Z.of_nat n_train)) (sk.take_clip ci p0)))
                  s5) as Q2.
    destruct (np.permutation_of G _ s5) as [test' s6]. cbn [fst] in Q2.
    intros H. injection H as <- <-.
    rewrite (filter_length_Permutation f _ _ Q1), A3.
    rewrite (filter_length_Permutation f _ _ Q2), A4.
    rewrite (Permutation_length Q1), (Permutation_length Q2), A1, A2.
    rewrite Hlen. repeat split; lia.
  - intros H. discriminate H.
Qed.

End StratifiedCounts.

Lemma filter_map_length {B C : Type} (g : C -> bool) (h : B -> C) (l : list B) :
  length (List.filter g (map h l)) = length (List.filter (fun x => g (h x)) l).
Proof.
  induction l as [|x l IH]; simpl; [reflexivity|].
  destruct (g (h x)); simpl; rewrite IH; reflexivity.
Qed.

Lemma class_positions_true_length (y : list bool) :
  length (sk.class_positions y true) = Notebook.positive_samples y.
Proof.
  unfold sk.class_positions, Notebook.positive_samples, Notebook.sum_mask.
  rewrite <- (filter_map_length (fun b => Bool.eqb b true)
                (fun i => nth i y false) (seq 0 (length y))).
  rewrite map_nth_seq. f_equal. apply filter_ext. intros []; reflexivity.
Qed.

Lemma class_positions_false_length (y : list bool) :
  length (sk.class_positions y false) = Notebook.negative_samples y.
Proof.
  pose proof (class_positions_split y) as H. apply Permutation_length in H.
  rewrite List.length_seq, length_app, class_positions_true_length in H.
  unfold Notebook.negative_samples. fold (Notebook.positive_samples y). lia.
Qed.

Lemma existsb_class (y : list bool) (c : bool) :
  existsb (Bool.eqb c) y = negb (Nat.eqb (length (sk.class_positions y c)) 0).
Proof.
  destruct (existsb (Bool.eqb c) y) eqn:E.
  - apply existsb_exists in E. destruct E as (b & Hb & Hc).
    apply eqb_prop in Hc. subst b.
    destruct (In_nth y c false Hb) as (i & Hi & Hn).
    assert (In i (sk.class_positions y c)) as Hin.
    { unfold sk.class_positions. apply filter_In. split.
      - apply in_seq. lia.
      - rewrite Hn. apply eqb_reflx. }
    destruct (sk.class_positions y c); [destruct Hin | reflexivity].
  - rewrite (class_positions_absent y c E). reflexivity.
Qed.

Lemma validate_shuffle_split_error (ceil_product : Q -> nat -> Z)
  (n_samples : nat) (test_size : Q) (e : exn) :
  sk.validate_shuffle_split ceil_product n_samples test_size = Raise e ->
  e = ValueError.
Proof.
  unfold sk.validate_shuffle_split.
  destruct (_ || _); [intros H; injection H as <-; reflexivity|].
  destruct (_ <? _); [intros H; injection H as <-; reflexivity|].
  destruct (_ =? _); [intros H; injection H as <-; reflexivity|].
  intros H. discriminate H.
Qed.

Section StratifiedGuards.
Variable G : np.BitGenerator.

(** The checks that the stratified split makes before it draws. *)
Lemma stratified_split_guards (y : list bool) (n_train n_test : nat)
  (s : np.rng G) :
  (sk.stratified_split G y n_train n_test s = Raise ValueError
   /\ (sk.classes y = []
       \/ Exists (fun c => (length (sk.class_positions y c) < 2)%nat)
            (sk.classes y)
       \/ (n_train < length (sk.classes y))%nat
       \/ (n_test < length (sk.classes y))%nat))
  \/ ((exists ix, sk.stratified_split G y n_train n_test s = Ok ix)
      /\ sk.classes y <> []
      /\ Forall (fun c => (2 <= length (sk.class_positions y c))%nat)
           (sk.classes y)
      /\ (length (sk.classes y) <= n_train)%nat
      /\ (length (sk.classes y) <= n_test)%nat).
Proof.
  unfold sk.stratified_split.
  destruct (Nat.eqb (length (sk.classes y)) 0) eqn:E0.
  { left. split; [reflexivity|]. left. apply Nat.eqb_eq in E0.
    apply length_zero_iff_nil. exact E0. }
  apply Nat.eqb_neq in E0.
  destruct (existsb (fun c : Z => c <? 2) _) eqn:E1.
  { left. split; [reflexivity|]. right. left.
    apply existsb_exists in E1. destruct E1 as (c & Hc & Hlt).
    rewrite map_map in Hc. apply in_map_iff in Hc.
    destruct Hc as (b & <- & Hb). apply List.Exists_exists. exists b.
    split; [exact Hb|]. apply Z.ltb_lt in Hlt. lia. }
  destruct (Nat.ltb n_train (length (sk.classes y))) eqn:E2.
  { left. split; [reflexivity|]. right. right. left.
    apply Nat.ltb_lt. exact E2. }
  destruct (Nat.ltb n_test (length (sk.classes y))) eqn:E3.
  { left. split; [reflexivity|]. right. right. right.
    apply Nat.ltb_lt. exact E3. }
  right. apply Nat.ltb_ge in E2, E3.
  split; [|split; [|split; [|split]]]; try assumption.
  - destruct (sk.approximate_mode G _ _ s) as [n_i s1].
    destruct (sk.approximate_mode G _ _ s1) as [t_i s2].
    destruct (sk.per_class G _ n_i t_i [] [] s2) as [[tr te] s3].
    destruct (np.permutation_of G tr s3) as [tr' s4].
    destruct (np.permutation_of G te s4) as [te' s5].
    eexists. reflexivity.
  - intros E. rewrite E in E0. apply E0. reflexivity.
  - apply List.Forall_forall. intros b Hb.
    destruct (Nat.le_gt_cases 2 (length (sk.class_positions y b))) as [H|H];
      [exact H|].
    exfalso. apply not_true_iff_false in E1. apply E1.
    apply existsb_exists. exists (Z.of_nat (length (sk.class_positions y b))).
    split; [|apply Z.ltb_lt; lia].
    rewrite map_map. apply in_map_iff. exists b. split; [reflexivity | exact Hb].
Qed.

(** The guards in terms of the two counts of cell 47. *)
Lemma classes_by_counts (y : list bool) :
  let p := Notebook.positive_samples y in
  let q := Notebook.negative_samples y in
  length (sk.classes y)
  = ((if Nat.eqb q 0 then 0 else 1) + (if Nat.eqb p 0 then 0 else 1))%nat
  /\ (Forall (fun c => (2 <= length (sk.class_positions y c))%nat) (sk.classes y)
      <-> (p <> 1 /\ q <> 1)%nat).
Proof.
  intros p q. rewrite classes_cases, !existsb_class.
  rewrite class_positions_false_length, class_positions_true_length.
  fold p q.
  destruct (Nat.eqb q 0) eqn:Eq; destruct (Nat.eqb p 0) eqn:Ep; cbn [negb app length].
  - apply Nat.eqb_eq in Eq, Ep. split; [reflexivity|].
    split; [intros _; lia | constructor].
  - apply Nat.eqb_eq in Eq. apply Nat.eqb_neq in Ep. split; [reflexivity|].
    split.
    + intros H. inversion H as [|? ? H1 _]; subst.
      rewrite class_positions_true_length in H1. fold p in H1. lia.
    + intros [H1 _]. constructor; [|constructor].
      rewrite class_positions_true_length. fold p. lia.
  - apply Nat.eqb_neq in Eq. apply Nat.eqb_eq in Ep. split; [reflexivity|].
    split.
    + intros H. inversion H as [|? ? H1 _]; subst.
      rewrite class_positions_false_length in H1. fold q in H1. lia.
    + intros [_ H1]. constructor; [|constructor].
      rewrite class_positions_false_length. fold q. lia.
  - apply Nat.eqb_neq in Eq, Ep. split; [reflexivity|].
    split.
    + intros H. inversion H as [|? ? H0 H']; subst.
      inversion H' as [|? ? H1 _]; subst.
      rewrite class_positions_false_length in H0.
      rewrite class_positions_true_length in H1. fold p in H1. fold q in H0. lia.
    + intros [H1 H0]. constructor; [|constructor; [|constructor]].
      * rewrite class_positions_false_length. fold q. lia.
      * rewrite class_positions_true_length. fold p. lia.
Qed.

End StratifiedGuards.

Section ClassifierSplit.
Variable G : np.BitGenerator.

Lemma test_size_fifth (n : nat) :
  Qceiling ((20 # 100) * inject_Z (Z.of_nat n)) = Z.of_nat ((n + 4) / 5).
Proof.
  assert ((20 # 100) * inject_Z (Z.of_nat n)
          == (2 # 10) * inject_Z (Z.of_nat n))%Q as E
    by (apply Qmult_comp; reflexivity).
  rewrite (Qceiling_comp _ _ E), ceiling_share_tenths, Nat2Z.inj_div.
  rewrite Nat2Z.inj_add. change (Z.of_nat 4) with 4. change (Z.of_nat 5) with 5.
  Z.div_mod_to_equations. lia.
Qed.

Lemma split_sizes_fifth (n : nat) :
  (2 <= n)%nat ->
  sk.validate_shuffle_split sk.ceil_exact n (20 # 100)
  = Ok ((n - (n + 4) / 5)%nat, ((n + 4) / 5)%nat)
  /\ (1 <= (n + 4) / 5)%nat /\ ((n + 4) / 5 < n)%nat.
Proof.
  intros Hn.
  assert (1 <= (n + 4) / 5 < n)%nat as Hb.
  { pose proof (Nat.div_mod_eq (n + 4) 5) as H.
    pose proof (Nat.mod_upper_bound (n + 4) 5) as H'. lia. }
  split; [|lia].
  apply validate_shuffle_split_inv. rewrite test_size_fifth.
  repeat split; try reflexivity; lia.
Qed.

Lemma split_indices_stratified (n : nat) (labels : list bool) (test_size : Q)
  (n_train n_test : nat) :
  length labels = n ->
  sk.validate_shuffle_split sk.ceil_exact n test_size = Ok (n_train, n_test) ->
  sk.split_indices G sk.ceil_exact n test_size 42 (Some labels)
  = sk.stratified_split G labels n_train n_test (np.seed G 42).
Proof.
  intros Hlen Ev. unfold sk.split_indices. rewrite Ev. cbn [bind fst snd].
  rewrite Hlen, Nat.eqb_refl. cbn [negb].
  apply validate_shuffle_split_inv in Ev.
  destruct Ev as (_ & _ & _ & Hb & Ha & Hsum).
  rewrite (validate_sizes_ok n n_train n_test Ha Hb Hsum). reflexivity.
Qed.

(** When the stratified split of cell 49 returns, by the counts of the
    two labels. *)
Lemma cell_49_cases (X : list (list Q)) (y_cls : list bool) :
  let n := length y_cls in
  let p := Notebook.positive_samples y_cls in
  let q := Notebook.negative_samples y_cls in
  let splittable :=
    (length X = n /\ 2 <= n /\ p <> 1 /\ q <> 1 /\ (1 <= p -> 1 <= q -> 6 <= n))%nat in
  (splittable -> exists parts, Notebook.cell_49 G X y_cls = Ok parts)
  /\ (~ splittable -> Notebook.cell_49 G X y_cls = Raise ValueError).
Proof.
  intros n p q splittable.
  destruct (classes_by_counts y_cls) as [Hk Hmin]. fold p q in Hk, Hmin.
  assert (p + q = n)%nat as Hpq.
  { unfold q, Notebook.negative_samples, p, Notebook.positive_samples,
      Notebook.sum_mask, n.
    pose proof (filter_length_le (fun b : bool => b) y_cls). lia. }
  unfold Notebook.cell_49, sk.train_test_split.
  split.
  - intros (HX & Hn & Hp & Hq & Hboth).
    rewrite HX. fold n. rewrite Nat.eqb_refl. cbn [negb].
    destruct (split_sizes_fifth n Hn) as (Ev & Hb1 & Hb2).
    rewrite (split_indices_stratified n y_cls (20 # 100) _ _ eq_refl Ev).
    destruct (stratified_split_guards G y_cls (n - (n + 4) / 5) ((n + 4) / 5)
                (np.seed G 42))
      as [[_ Hbad]|(([train test] & E) & _)].
    + exfalso. destruct Hbad as [H|[H|[H|H]]].
      * rewrite H in Hk. simpl in Hk.
        destruct (Nat.eqb q 0) eqn:Eq; destruct (Nat.eqb p 0) eqn:Ep;
          try discriminate.
        apply Nat.eqb_eq in Eq, Ep. lia.
      * apply List.Exists_exists in H. destruct H as (c & Hc & Hlt).
        assert (Forall (fun c => (2 <= length (sk.class_positions y_cls c))%nat)
                  (sk.classes y_cls)) as HF by (apply Hmin; split; assumption).
        rewrite List.Forall_forall in HF. specialize (HF c Hc). lia.
      * rewrite Hk in H.
        pose proof (Nat.div_mod_eq (n + 4) 5) as Hd.
        pose proof (Nat.mod_upper_bound (n + 4) 5) as Hd'.
        destruct (Nat.eqb q 0) eqn:Eq; destruct (Nat.eqb p 0) eqn:Ep; try lia.
        apply Nat.eqb_neq in Eq, Ep. lia.
      * rewrite Hk in H.
        pose proof (Nat.div_mod_eq (n + 4) 5) as Hd.
        pose proof (Nat.mod_upper_bound (n + 4) 5) as Hd'.
        destruct (Nat.eqb q 0) eqn:Eq; destruct (Nat.eqb p 0) eqn:Ep; try lia.
        apply Nat.eqb_neq in Eq, Ep. lia.
    + assert (sk.split_indices G sk.ceil_exact n (20 # 100) 42 (Some y_cls) = Ok (train, test))
        as Ei
        by (rewrite (split_indices_stratified n y_cls (20 # 100) _ _ eq_refl Ev);
            exact E).
      rewrite E. cbn [bind fst snd].
      pose proof (split_indices_partition G _ _ _ _ _ _ _ Ei) as HP.
      destruct (take_split train test y_cls HP) as (y1 & y2 & E3 & E4 & _).
      fold n in HX. rewrite <- HX in HP.
      destruct (take_split train test X HP) as (X1 & X2 & E1 & E2 & _).
      rewrite E1, E2, E3, E4. eexists. reflexivity.
  - intros Hnot.
    destruct (Nat.eqb (length X) (length y_cls)) eqn:EX; cbn [negb];
      [|reflexivity].
    apply Nat.eqb_eq in EX. fold n in EX. rewrite EX.
    destruct (sk.validate_shuffle_split sk.ceil_exact n (20 # 100)) as [[a b]|e] eqn:Ev.
    + rewrite (split_indices_stratified n y_cls (20 # 100) a b eq_refl Ev).
      destruct (stratified_split_guards G y_cls a b (np.seed G 42))
        as [[E _]|(_ & Hne & HF & Ha & Hb)]; [rewrite E; reflexivity|].
      exfalso. apply Hnot.
      apply validate_shuffle_split_inv in Ev.
      destruct Ev as (_ & _ & Hc & Hb1 & Ha1 & Hsum).
      rewrite test_size_fifth in Hc. apply Nat2Z.inj in Hc. subst b.
      apply Hmin in HF. destruct HF as [Hp Hq].
      rewrite Hk in Hb.
      pose proof (Nat.div_mod_eq (n + 4) 5) as Hd.
      pose proof (Nat.mod_upper_bound (n + 4) 5) as Hd'.
      split; [exact EX|]. split; [lia|]. split; [exact Hp|]. split; [exact Hq|].
      intros H1 H2.
      destruct (Nat.eqb q 0) eqn:Eq; [apply Nat.eqb_eq in Eq; lia|].
      destruct (Nat.eqb p 0) eqn:Ep; [apply Nat.eqb_eq in Ep; lia|].
      lia.
    + pose proof (validate_shuffle_split_error _ _ _ _ Ev) as He. subst e.
      unfold sk.split_indices. rewrite Ev. reflexivity.
Qed.

(** X9.  Exactly when the stratified split of cell 49 returns.  With [p]
    labels True and [q] labels False among [n], it returns when [X] has
    one row per label, there are two labels or more, neither class has
    exactly one member, and, where both classes occur, there are six
    labels or more, so that the test part of [ceil(0.2 n)] rows has room
    for both; in every other case it raises ValueError. *)
Theorem cell_49_returns_iff (X : list (list Q)) (y_cls : list bool) :
  let n := length y_cls in
  let p := Notebook.positive_samples y_cls in
  let q := Notebook.negative_samples y_cls in
  let splittable :=
    (length X = n /\ 2 <= n /\ p <> 1 /\ q <> 1 /\ (1 <= p -> 1 <= q -> 6 <= n))%nat in
  (splittable -> exists parts, Notebook.cell_49 G X y_cls = Ok parts)
  /\ (~ splittable -> Notebook.cell_49 G X y_cls = Raise ValueError).
Proof.
  intros n p q splittable.
  destruct (cell_49_cases X y_cls) as [Hret Hraise].
  split; [exact Hret | exact Hraise].
Qed.

End ClassifierSplit.

Lemma cell_49_returns_iff_witness :
  exists parts,
    Notebook.cell_49 np.mt19937
      (fst (Notebook.cell_44 Notebook.scenario_db))
      [true; true; true; false; false; false; false; false; false; false]
    = Ok parts.
Proof.
  pose proof (cell_49_returns_iff np.mt19937
                (fst (Notebook.cell_44 Notebook.scenario_db))
                [true; true; true; false; false; false; false; false; false; false]) as H.
  cbv zeta in H. destruct H as [H _]. apply H.
  vm_compute. repeat split; lia.
Defined.

Section ClassBalance.
Variable G : np.BitGenerator.

(** X10.  What cell 50 prints after the stratified split of cell 49 has
    returned.  The test part has [ceil(0.2 n)] labels and the train part
    the other ones; the positive labels of the two parts are the
    positive labels of [y_cls]; and in each part the number of positive
    labels is less than one away from the share [p / n] of the part, so
    that both parts keep the class proportions of cell 47. *)
Theorem cell_49_keeps_class_balance (X X_train X_test : list (list Q))
  (y_cls y_train y_test : list bool) :
  Notebook.cell_49 G X y_cls = Ok (X_train, X_test, y_train, y_test) ->
  let n := length y_cls in
  let p := Notebook.positive_samples y_cls in
  length y_test = ((n + 4) / 5)%nat
  /\ length y_train = (n - (n + 4) / 5)%nat
  /\ length X_test = length y_test /\ length X_train = length y_train
  /\ (Notebook.positive_samples y_train + Notebook.positive_samples y_test = p)%nat
  /\ (Notebook.negative_samples y_train + Notebook.negative_samples y_test
      = Notebook.negative_samples y_cls)%nat
  /\ Z.of_nat p * Z.of_nat (length y_train) - Z.of_nat n
     < Z.of_nat (Notebook.positive_samples y_train) * Z.of_nat n
     < Z.of_nat p * Z.of_nat (length y_train) + Z.of_nat n
  /\ Z.of_nat p * Z.of_nat (length y_test) - Z.of_nat n
     < Z.of_nat (Notebook.positive_samples y_test) * Z.of_nat n
     < Z.of_nat p * Z.of_nat (length y_test) + Z.of_nat n.
Proof.
  intros Hret n p. unfold Notebook.cell_49 in Hret.
  assert (length X = n) as HX.
  { unfold sk.train_test_split in Hret.
    destruct (Nat.eqb (length X) (length y_cls)) eqn:E; cbn [negb] in Hret;
      [apply Nat.eqb_eq; exact E | discriminate Hret]. }
  destruct (train_test_split_inv G _ X y_cls _ _ _ _ _ _ _ Hret)
    as (train & test & Ei & HP & _ & _ & E3 & E4 & _ & _ & HL & L1 & L2).
  rewrite HX in Ei, HP, HL.
  destruct (sk.validate_shuffle_split sk.ceil_exact n (20 # 100)) as [[a b]|e] eqn:Ev.
  2: { unfold sk.split_indices in Ei. rewrite Ev in Ei. discriminate Ei. }
  rewrite (split_indices_stratified G n y_cls (20 # 100) a b eq_refl Ev) in Ei.
  apply validate_shuffle_split_inv in Ev.
  destruct Ev as (_ & _ & Hc & Hb1 & Ha1 & Hsum).
  rewrite test_size_fifth in Hc. apply Nat2Z.inj in Hc.
  destruct (stratified_split_counts G y_cls a b (np.seed G 42) train test
              Hsum Ha1 Hb1 Ei) as (_ & La & Lb & Hcount & Hnear).
  rewrite class_positions_true_length in Hcount, Hnear. fold p n in Hcount, Hnear.
  assert (forall ix : list nat,
             incl ix (seq 0 n) ->
             forall ys, take_at ix y_cls = Ok ys ->
                        length ys = length ix
                        /\ Notebook.positive_samples ys
                           = length (List.filter (fun i => nth i y_cls false) ix))
    as Hvals.
  { intros ix Hix ys Eys.
    rewrite (take_in_bounds y_cls ix false) in Eys.
    - injection Eys as <-. split; [apply length_map|].
      apply (sum_mask_map_filter (fun i => nth i y_cls false)).
    - apply List.Forall_forall. intros i Hi. apply Hix, in_seq in Hi.
      unfold n in Hi. lia. }
  destruct (Hvals train) with (ys := y_train) as [Ltr Ptr]; [|exact E3|].
  { intros i Hi. apply (Permutation_in i (Permutation_sym HP)).
    apply in_or_app. left. exact Hi. }
  destruct (Hvals test) with (ys := y_test) as [Lte Pte]; [|exact E4|].
  { intros i Hi. apply (Permutation_in i (Permutation_sym HP)).
    apply in_or_app. right. exact Hi. }
  assert (p <= n)%nat as Hpn.
  { unfold p, n, Notebook.positive_samples, Notebook.sum_mask.
    apply filter_length_le. }
  assert (Notebook.positive_samples y_train <= length y_train)%nat as Hp1
    by (unfold Notebook.positive_samples, Notebook.sum_mask; apply filter_length_le).
  assert (Notebook.positive_samples y_test <= length y_test)%nat as Hp2
    by (unfold Notebook.positive_samples, Notebook.sum_mask; apply filter_length_le).
  rewrite <- Ptr, <- Pte in *.
  unfold Notebook.negative_samples.
  fold (Notebook.positive_samples y_train) (Notebook.positive_samples y_test)
    (Notebook.positive_samples y_cls). fold p n.
  rewrite Ltr, Lte, La, Lb.
  split; [lia|]. split; [lia|]. split; [lia|]. split; [lia|].
  split; [exact Hcount|]. split; [lia|]. split; [exact Hnear|].
  nia.
Qed.

End ClassBalance.

Lemma cell_49_keeps_class_balance_witness :
  exists X_train X_test y_train y_test,
    Notebook.cell_49 np.mt19937
      (fst (Notebook.cell_44 Notebook.scenario_db))
      [true; true; true; false; false; false; false; false; false; false]
    = Ok (X_train, X_test, y_train, y_test)
    /\ length y_test = 2%nat /\ length y_train = 8%nat
    /\ (Notebook.positive_samples y_train + Notebook.positive_samples y_test
        = 3)%nat
    /\ 3 * 8 - 10 < Z.of_nat (Notebook.positive_samples y_train) * 10 < 3 * 8 + 10.
Proof.
  destruct (Notebook.cell_49 np.mt19937
              (fst (Notebook.cell_44 Notebook.scenario_db))
              [true; true; true; false; false; false; false; false; false; false])
    as [[[[X1 X2] y1] y2]|e] eqn:E; [|vm_compute in E; discriminate E].
  destruct (cell_49_keeps_class_balance np.mt19937 _ _ _ _ _ _ E)
    as (H1 & H2 & _ & _ & H5 & _ & H7 & _).
  exists X1, X2, y1, y2. split; [reflexivity|].
  split; [exact H1|]. split; [exact H2|]. split; [exact H5|].
  rewrite H2 in H7. exact H7.
Defined.

(** ** Predictions (cells 63 and 67) *)

(** X11.  When [predict] returns and when it raises.  It returns a list
    exactly for a batch of one row or more whose rows all have the
    width the model was fitted on and whose values all stay finite in
    float32; for every other input, the empty batch, a ragged one, one
    of another width or one with a value too large for float32, it
    raises ValueError, and it raises nothing else. *)
Theorem predict_returns_iff (reg : sk.RandomForestRegressor) (X : list (list Q)) :
  let fits :=
    X <> [] /\ sk.n_features_in_ reg <> 0%nat
    /\ Forall (fun x => length x = sk.n_features_in_ reg) X
    /\ Forall (Forall (fun v => sk.float32_overflows v = false)) X in
  ((exists ys, sk.predict reg X = Ok ys) <-> fits)
  /\ (sk.predict reg X = Raise ValueError <-> ~ fits)
  /\ (forall e, sk.predict reg X = Raise e -> e = ValueError).
Proof.
  intros fits. unfold sk.predict.
  destruct (sk.check_array X) as [X'|e] eqn:Ec; cbn [bind].
  - destruct (check_array_inv X X' Ec) as (Hne & -> & Hn & HF & Hov).
    rewrite n_features_cast.
    destruct (Nat.eqb (sk.n_features X) (sk.n_features_in_ reg)) eqn:En.
    + apply Nat.eqb_eq in En. rewrite En in Hn, HF.
      assert fits as Hfits by (repeat split; assumption).
      split; [|split].
      * split; [intros _; exact Hfits | intros _; eexists; reflexivity].
      * split; [intros H; discriminate H | intros H; exfalso; exact (H Hfits)].
      * intros e H. discriminate H.
    + apply Nat.eqb_neq in En.
      assert (~ fits) as Hnot.
      { intros (_ & _ & HF' & _). destruct X as [|row rest]; [congruence|].
        inversion HF'; subst. apply En. simpl. assumption. }
      split; [|split].
      * split; [intros [ys H]; discriminate H | intros H; exfalso; exact (Hnot H)].
      * split; [intros _; exact Hnot | reflexivity].
      * intros e H. injection H as <-. reflexivity.
  - pose proof (check_array_error X e Ec) as He. subst e.
    assert (~ fits) as Hnot.
    { intros (Hne & Hn & HF & Hov).
      destruct (check_array_ok X _ Hne Hn HF Hov) as [E _].
      rewrite E in Ec. discriminate Ec. }
    split; [|split].
    + split; [intros [ys H]; discriminate H | intros H; exfalso; exact (Hnot H)].
    + split; [intros _; exact Hnot | reflexivity].
    + intros e H. injection H as <-. reflexivity.
Qed.

(** ** From the loaded table to the biased selection (cells 34 to 71) *)

Lemma take_at_In {B : Type} (ps : list nat) (l R : list B) (x : B) :
  take_at ps l = Ok R -> In x R -> In x l.
Proof.
  revert R. induction ps as [|i ps IH]; simpl; intros R H Hx.
  - injection H as <-. destruct Hx.
  - destruct (nth_error l i) as [y|] eqn:E; [|discriminate H].
    destruct (take_at ps l) as [R'|e]; simpl in H; [|discriminate H].
    injection H as <-. destruct Hx as [<-|Hx].
    + eapply nth_error_In. exact E.
    + apply (IH R' eq_refl Hx).
Qed.

(** X13.  Cells 34, 67, 69 and 71 together, for any sorting routine:
    whenever they return a selection, it has at most [N_SAMPLE] rows, and
    each of them is a row of the loaded table, under its label and with
    its loaded cells, whose docking score is not greater than 0: a
    number of 0 or less, or NaN.  No compound with a positive score is
    ever selected, whatever its prediction. *)
Theorem screen_selection (argsort : list Q -> list nat)
  (reg : sk.RandomForestRegressor) (N_SAMPLE : nat)
  (database : DataFrame Compound) (biased_sel : DataFrame Scored) :
  Notebook.screen argsort reg N_SAMPLE database = Ok biased_sel ->
  (length biased_sel <= N_SAMPLE)%nat
  /\ forall r, In r biased_sel ->
               In (fst r, compound (snd r)) database
               /\ f64.gtb (Scores (compound (snd r))) (Num 0) = false
               /\ (Scores (compound (snd r)) = NaN
                   \/ exists q, Scores (compound (snd r)) = Num q
                                /\ (q <= 0)%Q).
Proof.
  unfold Notebook.screen. intros H.
  destruct (drop_selected (fun r : Z * Compound =>
                             f64.gtb (Scores (snd r)) (Num 0)) database)
    as (filtered & Ef & Hsub & Hle).
  unfold Notebook.filter_positive, pd.gt0 in H. rewrite Ef in H. cbn [bind] in H.
  destruct (Notebook.scorer reg filtered) as [scored|e] eqn:Es; cbn [bind] in H;
    [|discriminate H].
  destruct (scorer_frame reg filtered scored Es) as (Hrows & Hps & _).
  unfold Notebook.biased_sel, pd.sort_values, pd.take in H.
  destruct (take_at _ scored) as [sorted|e] eqn:Et; cbn [bind] in H;
    [|discriminate H].
  injection H as <-. unfold pd.head. split.
  - rewrite length_firstn. lia.
  - intros r Hr.
    assert (In r scored) as Hin.
    { apply (take_at_In _ _ _ _ Et).
      rewrite <- (firstn_skipn N_SAMPLE sorted). apply in_or_app. left. exact Hr. }
    assert (In (fst r, compound (snd r)) filtered) as Hf.
    { rewrite <- Hrows.
      apply (in_map (fun r => (fst r, compound (snd r))) scored r Hin). }
    split.
    + apply list_elem_of_In. eapply elem_of_sublist; [|exact Hsub].
      apply list_elem_of_In. exact Hf.
    + rewrite List.Forall_forall in Hle. specialize (Hle _ Hf).
      cbn [snd] in Hle. split; [exact Hle|]. apply gt0_false. exact Hle.
Qed.

Lemma screen_selection_witness :
  exists biased_sel,
    Notebook.screen Notebook.argsort_portable Notebook.scenario_reg 3
      Notebook.scenario_db = Ok biased_sel
    /\ (length biased_sel <= 3)%nat
    /\ forall r, In r biased_sel ->
                 In (fst r, compound (snd r)) Notebook.scenario_db
                 /\ f64.gtb (Scores (compound (snd r))) (Num 0) = false.
Proof.
  destruct (Notebook.screen Notebook.argsort_portable Notebook.scenario_reg 3
              Notebook.scenario_db) as [R|e] eqn:E;
    [|vm_compute in E; discriminate E].
  exists R. split; [reflexivity|].
  destruct (screen_selection _ _ _ _ _ E) as [H1 H2].
  split; [exact H1|]. intros r Hr. destruct (H2 r Hr) as (Ha & Hb & _).
  split; assumption.
Defined.

(** ** The docking loop as a whole (cell 19) *)

Section DockingLoop.
Import Notebook.
Variable V : Vina.

Lemma announced_app (out1 out2 : list printed) :
  announced (out1 ++ out2) = announced out1 ++ announced out2.
Proof. apply flat_map_app. Qed.

Lemma announced_poses (es : list (nat * list Q)) :
  announced (map (fun pe : nat * list Q => PoseEnergy (fst pe) (snd pe)) es) = [].
Proof. induction es as [|pe es IH]; simpl; [reflexivity | exact IH]. Qed.

(** One turn of the loop announces its ligand, whatever happens next,
    and adds a score exactly when it ends without an exception. *)
Lemma dock_one_outcome (ligand : string) (st : docking V) :
  let st' := fst (dock_one V ligand st) in
  announced (stdout st') = announced (stdout st) ++ [ligand]
  /\ match snd (dock_one V ligand st) with
     | None => exists score, docking_scores st' = docking_scores st ++ [score]
     | Some _ => docking_scores st' = docking_scores st
     end.
Proof.
  unfold dock_one.
  destruct (set_ligand_from_file V (docker st) ligand) as [d1|e1]; cbn [fst snd stdout docking_scores].
  2: { rewrite announced_app. split; reflexivity. }
  destruct (compute_vina_maps V d1) as [d2|e2]; cbn [fst snd stdout docking_scores].
  2: { rewrite announced_app. split; reflexivity. }
  destruct (dock V d2 EXHAUSTIVENESS N_POSES) as [d3|e3]; cbn [fst snd stdout docking_scores].
  2: { rewrite announced_app. split; reflexivity. }
  destruct (energies V d3 N_POSES) as [es|e4]; cbn [fst snd stdout docking_scores].
  2: { rewrite !announced_app. cbn [announced flat_map app].
       rewrite app_nil_r. split; reflexivity. }
  destruct (bind (energies V d3 1) item00) as [score|e5];
    cbn [fst snd stdout docking_scores];
    rewrite !announced_app, announced_poses; cbn [announced flat_map app];
    rewrite !app_nil_r.
  - split; [reflexivity|]. exists score. reflexivity.
  - split; reflexivity.
Qed.

Lemma for_ligand_outcome (ligands : list string) (st : docking V) :
  let st' := fst (for_ligand V ligands st) in
  exists done rest,
    ligands = done ++ rest
    /\ announced (stdout st') = announced (stdout st) ++ done
    /\ match snd (for_ligand V ligands st) with
       | None =>
           rest = []
           /\ length (docking_scores st')
              = (length (docking_scores st) + length ligands)%nat
       | Some _ =>
           (length (docking_scores st') + 1
            = length (docking_scores st) + length done)%nat
       end.
Proof.
  revert st. induction ligands as [|ligand ligands IH]; intros st; cbn [for_ligand].
  - exists [], []. cbn [fst snd].
    split; [reflexivity|]. split; [symmetry; apply app_nil_r|].
    split; [reflexivity | simpl; lia].
  - pose proof (dock_one_outcome ligand st) as H. cbv zeta in H.
    destruct (dock_one V ligand st) as [st1 [e|]]; cbn [fst snd] in H |- *.
    + destruct H as [Ha Hs]. exists [ligand], ligands.
      split; [reflexivity|]. split; [exact Ha|]. rewrite Hs. simpl. lia.
    + destruct H as [Ha [score Hs]].
      destruct (IH st1) as (done & rest & El & Hd & Hout).
      exists (ligand :: done), rest. split; [rewrite El; reflexivity|].
      split; [rewrite Hd, Ha, <- app_assoc; reflexivity|].
      destruct (snd (for_ligand V ligands st1)).
      * rewrite Hout, Hs, length_app. simpl. lia.
      * destruct Hout as [Hr Hlen]. split; [exact Hr|].
        rewrite Hlen, Hs, length_app. simpl. lia.
Qed.

(** X14.  Cell 19 as a whole.  The ligands it announces are the first
    ones of [ligands[:N_TO_DOCK]], in order.  When the cell ends without
    an exception it has announced all of [ligands[:N_TO_DOCK]] and
    recorded one score for each, min(N_TO_DOCK, len(ligands)) scores:
    a bound beyond the list is clipped.  When it ends with an exception,
    the ligand announced last has no score and every ligand before it has
    one. *)
Theorem cell_19_outcome (N_TO_DOCK : nat) (ligands : list string)
  (d : docker_state V) :
  let st := fst (cell_19 V N_TO_DOCK ligands d) in
  exists rest,
    firstn N_TO_DOCK ligands = announced (stdout st) ++ rest
    /\ match snd (cell_19 V N_TO_DOCK ligands d) with
       | None =>
           rest = []
           /\ length (docking_scores st) = Nat.min N_TO_DOCK (length ligands)
       | Some _ =>
           (length (docking_scores st) + 1 = length (announced (stdout st)))%nat
       end.
Proof.
  unfold cell_19.
  destruct (for_ligand_outcome (firstn N_TO_DOCK ligands) (mkDocking d [] []))
    as (done & rest & El & Hd & Hout).
  cbn [stdout docking_scores announced flat_map app length] in Hd, Hout.
  exists rest. rewrite Hd. split; [exact El|].
  destruct (snd (for_ligand V _ _)).
  - simpl in Hout. lia.
  - destruct Hout as [Hr Hlen]. split; [exact Hr|].
    rewrite Hlen, length_firstn. reflexivity.
Qed.

(** X15.  A ligand for which the engine finds no pose.  The body prints
    the header of the scores and then fails at [energies(n_poses=1)[0][0]]
    with IndexError: the ligand adds no score, the row of stars is not
    printed, and the loop ends there, whatever ligands follow. *)
Theorem no_pose_raises_IndexError (ligand : string) (rest : list string)
  (st : docking V) (d1 d2 d3 : docker_state V) (es : list (list Q)) :
  set_ligand_from_file V (docker st) ligand = Ok d1 ->
  compute_vina_maps V d1 = Ok d2 ->
  dock V d2 EXHAUSTIVENESS N_POSES = Ok d3 ->
  energies V d3 N_POSES = Ok es ->
  energies V d3 1 = Ok [] ->
  exists st',
    for_ligand V (ligand :: rest) st = (st', Some IndexError)
    /\ docking_scores st' = docking_scores st
    /\ stdout st'
       = stdout st ++ [DockingLigand ligand; DockingScoresHeader]
         ++ map (fun pe : nat * list Q => PoseEnergy (fst pe) (snd pe))
              (combine (seq 0 (length es)) es).
Proof.
  intros H1 H2 H3 H4 H5. cbn [for_ligand]. unfold dock_one.
  rewrite H1, H2, H3, H4, H5. cbn [bind item00].
  eexists. split; [reflexivity|]. cbn [docking_scores stdout].
  split; [reflexivity|]. rewrite <- !app_assoc. reflexivity.
Qed.

End DockingLoop.

Lemma cell_19_outcome_witness :
  let run := Notebook.cell_19 Notebook.toy_vina 5
               ["a.pdbqt"; "broken.pdbqt"; "b.pdbqt"]%string None in
  snd run = Some RuntimeError
  /\ Notebook.announced (Notebook.stdout (fst run))
     = ["a.pdbqt"; "broken.pdbqt"]%string
  /\ exists rest,
      firstn 5 ["a.pdbqt"; "broken.pdbqt"; "b.pdbqt"]%string
      = Notebook.announced (Notebook.stdout (fst run)) ++ rest
      /\ (length (Notebook.docking_scores (fst run)) + 1
          = length (Notebook.announced (Notebook.stdout (fst run))))%nat.
Proof.
  split; [vm_compute; reflexivity|]. split; [vm_compute; reflexivity|].
  destruct (cell_19_outcome Notebook.toy_vina 5
              ["a.pdbqt"; "broken.pdbqt"; "b.pdbqt"]%string None)
    as (rest & H1 & H2).
  exists rest. split; [exact H1 | exact H2].
Defined.

Lemma no_pose_raises_IndexError_witness :
  exists st',
    Notebook.for_ligand Notebook.poseless_vina ["a.pdbqt"; "b.pdbqt"]%string
      (Notebook.mkDocking (tt : docker_state Notebook.poseless_vina) [] [])
    = (st', Some IndexError)
    /\ Notebook.docking_scores st' = []
    /\ Notebook.stdout st'
       = [Notebook.DockingLigand "a.pdbqt"; Notebook.DockingScoresHeader].
Proof.
  apply (no_pose_raises_IndexError Notebook.poseless_vina "a.pdbqt"
           ["b.pdbqt"%string]
           (Notebook.mkDocking (tt : docker_state Notebook.poseless_vina) [] [])
           tt tt tt []); reflexivity.
Defined.

(** ** Running the scoring cells again, or out of order (cells 34, 67, 69) *)


Lemma filter_drops_one {B : Type} (f : B -> bool) (l : list B) (x : B) :
  In x l -> f x = false -> (length (List.filter f l) < length l)%nat.
Proof.
  induction l as [|y l IH]; intros Hx Hf; [destruct Hx|].
  simpl. destruct Hx as [->|Hx].
  - rewrite Hf. pose proof (filter_length_le f l). lia.
  - specialize (IH Hx Hf). destruct (f y); simpl; lia.
Qed.

Section KernelRuns.
Import Notebook.

Lemma cell_67_frame (reg : sk.RandomForestRegressor) (k k1 : Kernel)
  (l : positive) (D : DataFrame Compound) :
  load_name "database" k = Ok (l, Frame D) ->
  cell_67 reg k = Ok k1 ->
  exists ps,
    predicted_scores RDKit reg D = Ok ps
    /\ length ps = length D
    /\ k1 = store_new "predicted_scores" (Floats ps) k
    /\ load_name "database" k1 = Ok (l, Frame D)
    /\ load_name "predicted_scores" k1
       = Ok (fresh (dom (heap k)), Floats ps).
Proof.
  intros Hload H67. unfold cell_67 in H67. rewrite Hload in H67. simpl in H67.
  destruct (predicted_scores RDKit reg D) as [ps|e] eqn:Eps; simpl in H67;
    [|discriminate].
  injection H67 as <-. exists ps.
  destruct (store_new_fresh "predicted_scores" (Floats ps) k)
    as (Hfr & Hps & Hold & Hglob).
  apply load_name_inv in Hload. destruct Hload as [Hg Hh].
  split; [reflexivity|]. split.
  { unfold predicted_scores in Eps. apply predict_length in Eps.
    rewrite length_map in Eps. exact Eps. }
  split; [reflexivity|]. split; [|exact Hps].
  apply load_name_inv. split.
  - rewrite Hglob; [exact Hg | discriminate].
  - apply Hold. exact Hh.
Qed.


(** X17.  Cell 69 needs the predictions of the frame it assigns to.
    When the predictions are computed first (cell 67) and the rows with
    a positive score are dropped afterwards (cell 34), the list
    [predicted_scores] is longer than the frame, and cell 69 raises
    ValueError. *)
Theorem stale_predictions_rejected (reg : sk.RandomForestRegressor)
  (k k1 k2 : Kernel) (l : positive) (D : DataFrame Compound) :
  load_name "database" k = Ok (l, Frame D) ->
  (0 < cell_32 Scores D)%nat ->
  cell_67 reg k = Ok k1 ->
  cell_34 k1 = Ok k2 ->
  cell_69 k2 = Raise ValueError.
Proof.
  intros Hload Hpos H67 H34.
  destruct (cell_67_frame reg k k1 l D Hload H67)
    as (ps & Eps & Lps & -> & Hdb1 & Hps1).
  set (k1 := store_new "predicted_scores" (Floats ps) k) in *.
  unfold cell_34 in H34. rewrite Hdb1 in H34. simpl in H34.
  destruct (filter_positive Scores D) as [F|e] eqn:EF; simpl in H34;
    [|discriminate].
  injection H34 as <-.
  assert (length F < length D)%nat as Hshort.
  { unfold filter_positive, pd.gt0 in EF.
    rewrite getitem_mask_map, drop_own_labels in EF. injection EF as <-.
    unfold cell_32, pd.gt0 in Hpos. rewrite sum_mask_map_filter in Hpos.
    destruct (List.filter (fun r : Z * Compound =>
                             f64.gtb (Scores (snd r)) (Num 0)) D)
      as [|r0 rest] eqn:Eb; [simpl in Hpos; lia|].
    assert (In r0 (List.filter (fun r : Z * Compound =>
                                  f64.gtb (Scores (snd r)) (Num 0)) D)) as Hr0
      by (rewrite Eb; left; reflexivity).
    apply (filter_drops_one _ D r0).
    - apply filter_In in Hr0. apply Hr0.
    - apply negb_false_iff. apply mem_In. unfold pd.index.
      apply (in_map fst) in Hr0. exact Hr0. }
  destruct (store_new_fresh "database" (Frame F) k1)
    as (Hfr & Hdb2 & Hold & Hglob).
  assert (load_name "predicted_scores" (store_new "database" (Frame F) k1)
          = Ok (fresh (dom (heap k)), Floats ps)) as Hps2.
  { apply load_name_inv in Hps1. destruct Hps1 as [Hg Hh].
    apply load_name_inv. split.
    - rewrite Hglob; [exact Hg | discriminate].
    - apply Hold. exact Hh. }
  unfold cell_69. rewrite Hdb2, Hps2. simpl. unfold pd.setitem.
  replace (Nat.eqb (length ps) (length F)) with false; [reflexivity|].
  symmetry. apply Nat.eqb_neq. lia.
Qed.

End KernelRuns.


Lemma stale_predictions_rejected_witness :
  exists k1 k2 : Notebook.Kernel,
    Notebook.cell_67 Notebook.scenario_reg Notebook.scenario_kernel = Ok k1
    /\ Notebook.cell_34 k1 = Ok k2
    /\ Notebook.cell_69 k2 = Raise ValueError.
Proof.
  assert (Notebook.load_name "database" Notebook.scenario_kernel
          = Ok (1%positive, Notebook.Frame Notebook.scenario_db)) as Hload
    by (vm_compute; reflexivity).
  destruct (Notebook.cell_67 Notebook.scenario_reg Notebook.scenario_kernel)
    as [k1|e] eqn:E1; [|vm_compute in E1; discriminate E1].
  destruct (Notebook.cell_34 k1) as [k2|e] eqn:E2.
  - exists k1, k2. split; [reflexivity|]. split; [exact E2|].
    apply (stale_predictions_rejected Notebook.scenario_reg
             Notebook.scenario_kernel k1 k2 1%positive Notebook.scenario_db
             Hload); [vm_compute; lia | exact E1 | exact E2].
  - exfalso. vm_compute in E1. injection E1 as <-.
    vm_compute in E2. discriminate E2.
Defined.

(** ** From the loaded table to the training data (cells 34 to 47) *)

Lemma list_lower_bound (l : list Q) :
  exists lo, Forall (fun x => (lo <= x)%Q) l.
Proof.
  induction l as [|x l [lo IH]]; [exists 0%Q; constructor|].
  destruct (Qlt_le_dec x lo) as [H|H].
  - exists x. constructor; [apply Qle_refl|].
    eapply List.Forall_impl; [|exact IH]. intros z Hz. cbv beta in *. lra.
  - exists lo. constructor; assumption.
Qed.

Section TrainingData.
Variable G : np.BitGenerator.

(** X18.  Cells 34, 39, 44 and 47 together.  The sample drawn from the
    filtered table gives [N_SAMPLE] fingerprints and [N_SAMPLE] scores;
    the fingerprint and the score at a position are those of one
    compound of the loaded table; no score is greater than 0; and when
    the sample is not empty cell 47 returns a threshold that is not
    greater than 0 either, and that is NaN when a sampled score is. *)
Theorem training_data_nonpositive (N_SAMPLE : nat)
  (database filtered random_sel : DataFrame Compound) (g g' : np.rng G) :
  Notebook.filter_positive Scores database = Ok filtered ->
  Notebook.random_sel G N_SAMPLE filtered g = (Ok random_sel, g') ->
  let X := fst (Notebook.cell_44 random_sel) in
  let y := snd (Notebook.cell_44 random_sel) in
  length X = N_SAMPLE /\ length y = N_SAMPLE
  /\ Forall (fun score => f64.gtb score (Num 0) = false) y
  /\ (forall i x score,
         nth_error X i = Some x -> nth_error y i = Some score ->
         exists r, In r database /\ RDKit (snd r) = x /\ Scores (snd r) = score)
  /\ (N_SAMPLE <> 0%nat ->
      exists threshold y_cls,
        Notebook.cell_47 y = Ok (threshold, y_cls)
        /\ f64.gtb threshold (Num 0) = false
        /\ (In NaN y -> threshold = NaN)).
Proof.
  intros Hf Hs X y.
  destruct (drop_selected (fun r : Z * Compound =>
                             f64.gtb (Scores (snd r)) (Num 0)) database)
    as (F & EF & Hsub & Hle).
  unfold Notebook.filter_positive, pd.gt0 in Hf. rewrite EF in Hf.
  injection Hf as <-.
  assert (0 <= 42 < 4294967296) as H42 by lia.
  assert (N_SAMPLE <= length F)%nat as Hn.
  { destruct (Nat.le_gt_cases N_SAMPLE (length F)) as [H|H]; [exact H|].
    exfalso. unfold Notebook.random_sel, pd.sample in Hs.
    rewrite (RandomState_ok G 42 H42) in Hs. unfold np.choice in Hs.
    apply Nat.ltb_lt in H. rewrite H in Hs. cbn [bind] in Hs. discriminate Hs. }
  destruct (sample_seeded G N_SAMPLE 42 F Hn H42)
    as (R & rest & HR & HL & _ & HP).
  unfold Notebook.random_sel in Hs. rewrite HR in Hs. injection Hs as <- _.
  assert (forall c, In c (map snd R) ->
                    exists r, In r database /\ snd r = c
                              /\ f64.gtb (Scores c) (Num 0) = false)
    as Hrows.
  { intros c Hc.
    assert (In c (map snd F)) as HcF.
    { apply (Permutation_in c (Permutation_sym HP)). apply in_or_app.
      left. exact Hc. }
    apply in_map_iff in HcF. destruct HcF as (r & <- & Hr).
    exists r. split; [|split; [reflexivity|]].
    - apply list_elem_of_In. eapply elem_of_sublist; [|exact Hsub].
      apply list_elem_of_In. exact Hr.
    - rewrite List.Forall_forall in Hle. exact (Hle r Hr). }
  assert (Forall (fun score => f64.gtb score (Num 0) = false) y) as Hy.
  { unfold y, Notebook.cell_44. cbn [snd]. apply List.Forall_map.
    apply List.Forall_forall. intros r Hr.
    destruct (Hrows (snd r) (in_map snd R r Hr)) as (_ & _ & _ & H). exact H. }
  split; [unfold X, Notebook.cell_44; cbn [fst]; rewrite length_map; exact HL|].
  split; [unfold y, Notebook.cell_44; cbn [snd]; rewrite length_map; exact HL|].
  split; [exact Hy|]. split.
  - intros i x score Hx Hsc. unfold X, y, Notebook.cell_44 in Hx, Hsc.
    cbn [fst snd] in Hx, Hsc. rewrite nth_error_map in Hx, Hsc.
    destruct (nth_error R i) as [r|] eqn:Ei; [|discriminate Hx].
    injection Hx as <-. injection Hsc as <-.
    destruct (Hrows (snd r)) as (r0 & Hr0 & E0 & _).
    { apply in_map. eapply nth_error_In. exact Ei. }
    exists r0. rewrite E0. auto.
  - intros HN.
    assert (y <> []) as Hne.
    { intros E. apply (f_equal (@length float64)) in E.
      unfold y, Notebook.cell_44 in E. cbn [snd] in E.
      rewrite length_map, HL in E. simpl in E. lia. }
    unfold Notebook.cell_47.
    destruct (percentile_30 y Hne) as [[Hnan E]|(qs & Ey & E)]; rewrite E;
      cbn [bind]; eexists; eexists; (split; [reflexivity|]).
    + split; reflexivity.
    + assert (Forall (fun q => (q <= 0)%Q) qs) as Hqs.
      { rewrite Ey in Hy. apply List.Forall_map in Hy.
        eapply List.Forall_impl; [|exact Hy]. intros q Hq. cbv beta in Hq.
        apply gt0_false in Hq. destruct Hq as [Hq|(q' & Hq & Hq')];
          [discriminate Hq|]. injection Hq as ->. exact Hq'. }
      assert (np.linear (np.sort qs) 30 <= 0)%Q as Ht.
      { destruct (list_lower_bound qs) as [lo Hlo].
        apply (linear_bounded (np.sort qs) 30 lo 0).
        - intros E0. apply (f_equal (@length Q)) in E0.
          rewrite (Permutation_length (sort_Permutation qs)) in E0.
          apply Hne. rewrite Ey. destruct qs; [reflexivity | discriminate E0].
        - split; discriminate.
        - apply sort_Forall. rewrite List.Forall_forall in Hlo, Hqs.
          apply List.Forall_forall. intros x Hx.
          split; [apply Hlo | apply Hqs]; exact Hx. }
      split; [apply gt0_false; right; eexists; split; [reflexivity | exact Ht]|].
      intros H. exfalso. rewrite Ey in H. apply in_map_iff in H.
      destruct H as (q & Hq & _). discriminate Hq.
Qed.

End TrainingData.

Lemma training_data_nonpositive_witness :
  exists (random_sel : DataFrame Compound) threshold y_cls,
    Notebook.random_sel np.mt19937 3 (firstn 9 Notebook.scenario_db)
      (np.seed np.mt19937 0)
    = (Ok random_sel, np.seed np.mt19937 0)
    /\ length (snd (Notebook.cell_44 random_sel)) = 3%nat
    /\ Forall (fun score => f64.gtb score (Num 0) = false)
         (snd (Notebook.cell_44 random_sel))
    /\ Notebook.cell_47 (snd (Notebook.cell_44 random_sel))
       = Ok (threshold, y_cls)
    /\ f64.gtb threshold (Num 0) = false.
Proof.
  assert (Notebook.filter_positive Scores Notebook.scenario_db
          = Ok (firstn 9 Notebook.scenario_db)) as Hf
    by (vm_compute; reflexivity).
  destruct (Notebook.random_sel np.mt19937 3 (firstn 9 Notebook.scenario_db)
              (np.seed np.mt19937 0)) as [[R|e] g'] eqn:E.
  - destruct (training_data_nonpositive np.mt19937 3 Notebook.scenario_db
                (firstn 9 Notebook.scenario_db) R (np.seed np.mt19937 0) g'
                Hf E) as (_ & H2 & H3 & _ & H5).
    destruct H5 as (t & y_cls & H5 & H6 & _); [discriminate|].
    exists R, t, y_cls. split.
    + f_equal. vm_compute in E. injection E as _ <-. reflexivity.
    + split; [exact H2|]. split; [exact H3|]. split; [exact H5 | exact H6].
  - exfalso. vm_compute in E. discriminate E.
Defined.
